(** * pystargazer: the YouTube plugin (src/pystargazer/plugins/youtube.py)

    A shallow embedding of the channel-tracking engine of the plugin:
    the video records, the module-level state ([channel_list],
    [read_list], the scheduler's job store), the metadata resolver
    [query_video], the hub handshake, webhook ingestion, the periodic
    [tick], and [dump_state] / [load_state].

    Conventions of the embedding.
    - A coroutine is a function of the state that returns a result and the
      state it leaves behind.  A raised Python exception is the result
      [Raise e]; the state next to it is the state at the moment the
      exception left the coroutine (mutations done before are kept, as in
      Python).  Coroutines run one at a time: interleavings at [await]
      points are not part of this model.
    - [Video] objects are mutable and shared (the pending list, the events
      and the reminder job of a broadcast all hold the same object), so the
      state has a store of objects, [heap], and the lists hold references.
      An object enters the store when it is first stored or handed out; a
      [Video] that is still local to [post] is a plain value.
    - A [dict] is an association list in insertion order without repeated
      keys, as iteration order is observable in [tick].
    - What the outside world answers is an argument of the operation: the
      body of the metadata API's reply, the wall clock, the registry of
      vtubers and the option flags.  Transient network errors are retried
      by the source until a reply arrives; the reply is what is modelled. *)

From Stdlib Require Import ZArith Lia.
From stdpp Require Import base option list strings.

Open Scope string_scope.
Open Scope list_scope.
Open Scope Z_scope.

(** ** Data model *)

Inductive ResourceType := VIDEO | BROADCAST.

Inductive YoutubeEventType := PUBLISH | REMINDER | SCHEDULE | LIVE.

(** A [datetime.datetime]: an instant in whole seconds since the epoch, and
    whether the object carries a time zone.  [query_video] produces aware
    objects ([astimezone(tz.tzlocal())]), [datetime.fromtimestamp] naive
    ones.  Python's [==] between a naive and an aware object is [False],
    and their difference raises [TypeError]. *)
Record datetime := { ts : Z; aware : bool }.

Record Video := {
  video_id : string;
  title : string;
  link : string;
  type : option ResourceType;
  description : string;
  thumbnail : option string;
  scheduled_start_time : option datetime;
  actual_start_time : option datetime
}.

(** A reference to a [Video] object of the store: its index. *)
Abbreviation loc := nat (only parsing).

Record YoutubeEvent := {
  ev_type : option ResourceType;
  ev_event : YoutubeEventType;
  ev_channel : string;
  ev_video : loc
}.

(** [pystargazer.models.Event] as [send_youtube_event] builds it: a name, the
    vtuber's key and the payload.  The two time fields hold the instants whose
    [strftime] rendering is sent; they are absent when the payload has no such
    key. *)
Record Event := {
  e_name : string;
  e_key : string;
  e_title : string;
  e_description : string;
  e_images : list (option string);
  e_link : string;
  e_scheduled_start_time : option datetime;
  e_actual_start_time : option datetime
}.

(** One completed call of [send_youtube_event]: the notification event it was
    given (with the video as it was at that moment) and what it handed to
    [app.send_event], if anything. *)
Record Sent := {
  s_type : option ResourceType;
  s_event : YoutubeEventType;
  s_channel : string;
  s_video : Video;
  s_bus : option Event
}.

(** A reminder job of the scheduler: the callback's event and the instant the
    cron trigger was armed for. *)
Record Job := { job_event : YoutubeEvent; job_run_at : datetime }.

Inductive HubMode := HubSubscribe | HubUnsubscribe.

Record State := {
  heap : list Video;
  channel_list : list (string * list loc);
  read_list : list loc;
  jobs : list (string * Job);
  hub : list (HubMode * string);
  sent : list Sent
}.

Definition initial_state : State :=
  {| heap := []; channel_list := []; read_list := []; jobs := []; hub := []; sent := [] |}.

(** The registry of vtubers (key, channel id) and the option flags of
    [/configs/youtube], both owned by the application. *)
Record Env := {
  vtubers : list (string * string);
  video_disabled : bool;
  live_disabled : bool;
  reminder_disabled : bool;
  schedule_disabled : bool
}.

Inductive exn :=
| KeyError
| IndexError
| TypeError
| AttributeError
| ValueError (msg : string)
| JobLookupError
| ConflictingIdError.

Inductive Res (A : Type) :=
| Ok (a : A)
| Raise (e : exn).
Arguments Ok {A} a.
Arguments Raise {A} e.

#[global] Instance exn_eq_dec : EqDecision exn.
Proof. solve_decision. Defined.
#[global] Instance ResourceType_eq_dec : EqDecision ResourceType.
Proof. solve_decision. Defined.
#[global] Instance YoutubeEventType_eq_dec : EqDecision YoutubeEventType.
Proof. solve_decision. Defined.
#[global] Instance datetime_eq_dec : EqDecision datetime.
Proof. solve_decision. Defined.
#[global] Instance Video_eq_dec : EqDecision Video.
Proof. solve_decision. Defined.

(** ** The state-and-exception monad of the coroutines *)

Definition M (A : Type) : Type := State -> Res A * State.

Definition ret {A} (a : A) : M A := fun st => (Ok a, st).

Definition raise {A} (e : exn) : M A := fun st => (Raise e, st).

Definition bind {A B} (m : M A) (k : A -> M B) : M B :=
  fun st =>
    match m st with
    | (Ok a, st') => k a st'
    | (Raise e, st') => (Raise e, st')
    end.

#[global] Instance M_ret : MRet M := @ret.
#[global] Instance M_bind : MBind M := fun A B k m => bind m k.

Definition get_state : M State := fun st => (Ok st, st).

Definition lift {A} (r : Res A) : M A := fun st => (r, st).

(** [try: m except e: pass] for a statement [m]. *)
Definition try_pass (e : exn) (m : M unit) : M unit :=
  fun st =>
    match m st with
    | (Raise e', st') => if decide (e' = e) then (Ok tt, st') else (Raise e', st')
    | r => r
    end.

(** ** State primitives *)

Definition set_heap (h : list Video) (st : State) : State :=
  {| heap := h; channel_list := channel_list st; read_list := read_list st;
     jobs := jobs st; hub := hub st; sent := sent st |}.

Definition set_channel_list (cl : list (string * list loc)) (st : State) : State :=
  {| heap := heap st; channel_list := cl; read_list := read_list st;
     jobs := jobs st; hub := hub st; sent := sent st |}.

Definition set_read_list (rl : list loc) (st : State) : State :=
  {| heap := heap st; channel_list := channel_list st; read_list := rl;
     jobs := jobs st; hub := hub st; sent := sent st |}.

Definition set_jobs (js : list (string * Job)) (st : State) : State :=
  {| heap := heap st; channel_list := channel_list st; read_list := read_list st;
     jobs := js; hub := hub st; sent := sent st |}.

Definition set_hub (hb : list (HubMode * string)) (st : State) : State :=
  {| heap := heap st; channel_list := channel_list st; read_list := read_list st;
     jobs := jobs st; hub := hb; sent := sent st |}.

Definition set_sent (sn : list Sent) (st : State) : State :=
  {| heap := heap st; channel_list := channel_list st; read_list := read_list st;
     jobs := jobs st; hub := hub st; sent := sn |}.

Definition modify (f : State -> State) : M unit := fun st => (Ok tt, f st).

(** [for x in xs: body(x)] *)
Fixpoint for_each {A} (body : A -> M unit) (xs : list A) : M unit :=
  match xs with
  | [] => mret tt
  | x :: xs' => body x ≫= fun _ => for_each body xs'
  end.

(** *** Dictionaries in insertion order *)

Fixpoint dict_get {V} (k : string) (d : list (string * V)) : option V :=
  match d with
  | [] => None
  | (k', v) :: d' => if decide (k' = k) then Some v else dict_get k d'
  end.

Definition dict_mem {V} (k : string) (d : list (string * V)) : bool :=
  bool_decide (is_Some (dict_get k d)).

(** [d[k] = v]: an existing key keeps its place, a new one goes last. *)
Fixpoint dict_set {V} (k : string) (v : V) (d : list (string * V)) : list (string * V) :=
  match d with
  | [] => [(k, v)]
  | (k', v') :: d' => if decide (k' = k) then (k, v) :: d' else (k', v') :: dict_set k v d'
  end.

(** [d.pop(k)] / [del d[k]] *)
Fixpoint dict_pop {V} (k : string) (d : list (string * V)) : list (string * V) :=
  match d with
  | [] => []
  | (k', v') :: d' => if decide (k' = k) then dict_pop k d' else (k', v') :: dict_pop k d'
  end.

Definition dict_keys {V} (d : list (string * V)) : list string := d.*1.

(** *** The store of [Video] objects *)

Definition blank_video : Video :=
  {| video_id := ""; title := ""; link := ""; type := None; description := "";
     thumbnail := Some ""; scheduled_start_time := None; actual_start_time := None |}.

(** Reading an object.  Every reference the operations put into a list, an
    event or a job was allocated before, so the default is never read on a
    state the operations built. *)
Definition video_at (h : list Video) (l : loc) : Video := default blank_video (h !! l).

Definition deref (l : loc) : M Video := fun st => (Ok (video_at (heap st) l), st).

Definition alloc (v : Video) : M loc :=
  fun st => (Ok (length (heap st)), set_heap (heap st ++ [v]) st).

Definition store (l : loc) (v : Video) : M unit :=
  modify (fun st => set_heap (<[l := v]> (heap st)) st).

(** [obj.attr] on an [Optional] value that is [None]. *)
Definition attr {A} (o : option A) : M A :=
  match o with
  | Some a => mret a
  | None => raise AttributeError
  end.

(** *** The scheduler's job store (apscheduler)

    [get_job] returns the job or [None]; [remove_job] raises
    [JobLookupError] for an unknown id; [add_job] without
    [replace_existing] raises [ConflictingIdError] for an id in use. *)

Definition job_id (channel_id video_id : string) : string :=
  "reminder_" +:+ channel_id +:+ "_" +:+ video_id.

Definition get_job (id : string) : M (option Job) :=
  fun st => (Ok (dict_get id (jobs st)), st).

Definition remove_job (id : string) : M unit :=
  fun st =>
    match dict_get id (jobs st) with
    | None => (Raise JobLookupError, st)
    | Some _ => (Ok tt, set_jobs (dict_pop id (jobs st)) st)
    end.

Definition add_job (id : string) (job : Job) : M unit :=
  fun st =>
    match dict_get id (jobs st) with
    | Some _ => (Raise ConflictingIdError, st)
    | None => (Ok tt, set_jobs (jobs st ++ [(id, job)]) st)
    end.

(** ** Metadata resolver: [query_video] *)

Record Snippet := {
  snippet_description : option string;
  (* thumbnails.get("standard", {"url": None}).get("url"), or None without thumbnails *)
  snippet_standard_url : option string
}.

(** [liveStreamingDetails], its two times already parsed to instants. *)
Record Streaming := {
  scheduledStartTime : option Z;
  actualStartTime : option Z
}.

(** The body of the API's reply, by what [query_video] does with it. *)
Inductive ApiResponse :=
| RespEmpty                      (* r.json() is falsy *)
| RespNoItemsKey                 (* a non-empty body without "items", such as an error object *)
| RespNoItems                    (* "items": [] *)
| RespItem (snippet : option Snippet) (streaming : option Streaming).

Definition local_time (t : Z) : datetime := {| ts := t; aware := true |}.

Definition with_snippet (v : Video) (s : Snippet) : Video :=
  {| video_id := video_id v; title := title v; link := link v; type := type v;
     description := default "None" (snippet_description s) +:+ " ...";
     thumbnail := snippet_standard_url s;
     scheduled_start_time := scheduled_start_time v;
     actual_start_time := actual_start_time v |}.

Definition with_streaming (v : Video) (s : option Streaming) : Video :=
  match s with
  | Some d =>
      {| video_id := video_id v; title := title v; link := link v;
         type := Some BROADCAST;
         description := description v; thumbnail := thumbnail v;
         scheduled_start_time :=
           match scheduledStartTime d with
           | Some t => Some (local_time t)
           | None => scheduled_start_time v
           end;
         actual_start_time :=
           match actualStartTime d with
           | Some t => Some (local_time t)
           | None => actual_start_time v
           end |}
  | None =>
      {| video_id := video_id v; title := title v; link := link v;
         type := Some VIDEO;
         description := description v; thumbnail := thumbnail v;
         scheduled_start_time := scheduled_start_time v;
         actual_start_time := actual_start_time v |}
  end.

Definition apply_item (v : Video) (snippet : option Snippet) (streaming : option Streaming) : Video :=
  with_streaming (match snippet with Some s => with_snippet v s | None => v end) streaming.

(** [query_video] on the value of a video: the returned flag and the video as
    mutated. *)
Definition query_video_on (v : Video) (r : ApiResponse) : Res (bool * Video) :=
  match r with
  | RespEmpty => Ok (false, v)
  | RespNoItemsKey => Raise KeyError
  | RespNoItems => Ok (false, v)
  | RespItem snippet streaming => Ok (true, apply_item v snippet streaming)
  end.

(** [query_video] on an object of the store. *)
Definition query_video (l : loc) (r : ApiResponse) : M bool :=
  video ← deref l;
  '(ok, video') ← lift (query_video_on video r);
  store l video';;
  mret ok.

(** ** Notification events *)

(** [YoutubeEvent(type=..., event=..., channel=..., video=...)] with its
    [__post_init__]. *)
Definition new_YoutubeEvent (t : option ResourceType) (e : YoutubeEventType)
    (channel : string) (video : loc) : M YoutubeEvent :=
  v ← deref video;
  if bool_decide (t = Some BROADCAST) && bool_decide (scheduled_start_time v = None)
  then raise (ValueError "Missing field(s): scheduled_start_time in video.")
  else mret {| ev_type := t; ev_event := e; ev_channel := channel; ev_video := video |}.

(** [get_vtuber]: the first vtuber whose "youtube" field is the channel, or
    [None]. *)
Fixpoint get_vtuber (vs : list (string * string)) (channel_id : string) : option string :=
  match vs with
  | [] => None
  | (key, yt) :: vs' => if decide (yt = channel_id) then Some key else get_vtuber vs' channel_id
  end.

Definition bus_event (name key : string) (v : Video)
    (scheduled actual : option datetime) : Event :=
  {| e_name := name; e_key := key; e_title := title v; e_description := description v;
     e_images := [thumbnail v]; e_link := link v;
     e_scheduled_start_time := scheduled; e_actual_start_time := actual |}.

(** [vtuber.key] *)
Definition key_of (vtuber : option string) : Res string :=
  match vtuber with
  | Some key => Ok key
  | None => Raise AttributeError
  end.

(** The [Event] that [send_youtube_event] builds, or [None] when the event's
    category is disabled or matches no branch.  Reading an attribute of a
    missing vtuber or of a missing time raises [AttributeError]. *)
Definition build_event (env : Env) (ytb_event : YoutubeEvent) (video : Video)
    : Res (option Event) :=
  let vtuber := get_vtuber (vtubers env) (ev_channel ytb_event) in
  if bool_decide (ev_type ytb_event = Some VIDEO) && negb (video_disabled env) then
    match key_of vtuber with
    | Raise e => Raise e
    | Ok key => Ok (Some (bus_event "youtube_video" key video None None))
    end
  else if bool_decide (ev_type ytb_event = Some BROADCAST) then
    match scheduled_start_time video with
    | None => Raise AttributeError
    | Some scheduled =>
        if bool_decide (ev_event ytb_event = LIVE) && negb (live_disabled env) then
          match actual_start_time video with
          | None => Raise AttributeError
          | Some actual =>
              match key_of vtuber with
              | Raise e => Raise e
              | Ok key =>
                  Ok (Some (bus_event "youtube_broadcast_live" key video
                                      (Some scheduled) (Some actual)))
              end
          end
        else if bool_decide (ev_event ytb_event = REMINDER) && negb (reminder_disabled env) then
          match key_of vtuber with
          | Raise e => Raise e
          | Ok key =>
              Ok (Some (bus_event "youtube_broadcast_reminder" key video (Some scheduled) None))
          end
        else if bool_decide (ev_event ytb_event = SCHEDULE) && negb (schedule_disabled env) then
          match key_of vtuber with
          | Raise e => Raise e
          | Ok key =>
              Ok (Some (bus_event "youtube_broadcast_schedule" key video (Some scheduled) None))
          end
        else Ok None
    end
  else Ok None.

Definition sent_record (ytb_event : YoutubeEvent) (video : Video) (event : option Event) : Sent :=
  {| s_type := ev_type ytb_event; s_event := ev_event ytb_event;
     s_channel := ev_channel ytb_event; s_video := video; s_bus := event |}.

Definition send_youtube_event (env : Env) (ytb_event : YoutubeEvent) : M unit :=
  video ← deref (ev_video ytb_event);
  event ← lift (build_event env ytb_event video);
  modify (fun st => set_sent (sent st ++ [sent_record ytb_event video event]) st).

(** ** Subscription manager *)

(** The request to the hub; the source repeats it until it goes through. *)
Definition _subscribe (channel_id : string) (reverse : bool) : M unit :=
  modify (fun st =>
    set_hub (hub st ++ [(if reverse then HubUnsubscribe else HubSubscribe, channel_id)]) st).

Definition subscribe (channel_id : string) : M unit :=
  st ← get_state;
  match dict_get channel_id (channel_list st) with
  | Some _ => raise (ValueError "Conflict channel id.")
  | None =>
      (if negb (dict_mem channel_id (channel_list st))
       then modify (fun st => set_channel_list (dict_set channel_id [] (channel_list st)) st)
       else mret tt);;
      _subscribe channel_id false
  end.

Definition unsubscribe (channel_id : string) (pop : bool) : M unit :=
  st ← get_state;
  match dict_get channel_id (channel_list st) with
  | None => raise (ValueError "Not found.")
  | Some videos =>
      for_each (fun l =>
                  video ← deref l;
                  try_pass JobLookupError (remove_job (job_id channel_id (video_id video))))
               videos;;
      (if pop
       then modify (fun st => set_channel_list (dict_pop channel_id (channel_list st)) st)
       else mret tt);;
      _subscribe channel_id true
  end.

Definition renewal : M unit :=
  st ← get_state;
  for_each (fun channel_id => _subscribe channel_id false) (dict_keys (channel_list st)).

(** ** The webhook endpoint *)

Record Response := { status_code : Z; body : option string }.

(** [Response()] *)
Definition empty_response : Response := {| status_code := 200; body := None |}.

Definition HTTP_404_NOT_FOUND : Z := 404.

(** The verification handshake.  [topic_channel_id] is
    [parse_qs(urlparse(topic).query).get("channel_id")]: the first value of
    the parameter, or [None] when the topic has none. *)
Definition get (mode challenge : string) (topic_channel_id : option string) : M Response :=
  channel_id ← match topic_channel_id with
               | Some c => mret c
               | None => raise TypeError
               end;
  st ← get_state;
  let accept :=
    (bool_decide (mode = "subscribe") && dict_mem channel_id (channel_list st))
    || (bool_decide (mode = "unsubscribe") && negb (dict_mem channel_id (channel_list st))) in
  if negb accept
  then mret {| status_code := HTTP_404_NOT_FOUND; body := None |}
  else mret {| status_code := 200; body := Some challenge |}.

(** One entry of the parsed feed. *)
Record FeedEntry := {
  yt_videoid : string;
  entry_link : string;
  entry_title : string;
  yt_channelid : string
}.

(** The body of a notification: whether the text contains "deleted-entry",
    and the entries [feedparser] finds in it. *)
Record Notification := {
  deleted_entry : bool;
  entries : list FeedEntry
}.

Definition new_Video (video_id title link : string) : Video :=
  {| video_id := video_id; title := title; link := link; type := None;
     description := ""; thumbnail := Some "";
     scheduled_start_time := None; actual_start_time := None |}.

(** [next(_video for _video in videos if video_id == _video.video_id)], with
    [None] for [StopIteration]. *)
Fixpoint find_video (h : list Video) (id : string) (videos : list loc) : option loc :=
  match videos with
  | [] => None
  | l :: videos' =>
      if decide (id = video_id (video_at h l)) then Some l else find_video h id videos'
  end.

(** [videos.remove(x)]: drops the first element equal to [x] (dataclass
    equality, field by field); [None] stands for the [ValueError] of a list
    without such an element. *)
Fixpoint remove_first (h : list Video) (x : Video) (videos : list loc) : option (list loc) :=
  match videos with
  | [] => None
  | l :: videos' =>
      if decide (video_at h l = x) then Some videos'
      else cons l <$> remove_first h x videos'
  end.

(** [channel_list[channel_id].remove(video)] *)
Definition channel_remove (channel_id : string) (video : loc) : M unit :=
  fun st =>
    match dict_get channel_id (channel_list st) with
    | None => (Raise KeyError, st)
    | Some videos =>
        match remove_first (heap st) (video_at (heap st) video) videos with
        | None => (Raise (ValueError "list.remove(x): x not in list"), st)
        | Some videos' =>
            (Ok tt, set_channel_list (dict_set channel_id videos' (channel_list st)) st)
        end
    end.

(** [channel_list[channel_id].append(video)] *)
Definition channel_append (channel_id : string) (video : loc) : M unit :=
  fun st =>
    match dict_get channel_id (channel_list st) with
    | None => (Raise KeyError, st)
    | Some videos =>
        (Ok tt, set_channel_list (dict_set channel_id (videos ++ [video]) (channel_list st)) st)
    end.

(** The part of [post] after the resolver has answered and the duplicate check
    has passed. *)
Definition post_dispatch (env : Env) (channel_id : string) (old_video : option loc)
    (video : Video) : M Response :=
  if bool_decide (type video = Some VIDEO) then
    st ← get_state;
    match find_video (heap st) (video_id video) (read_list st) with
    | Some _ => mret empty_response
    | None =>
        l ← alloc video;
        event ← new_YoutubeEvent (type video) PUBLISH channel_id l;
        send_youtube_event env event;;
        modify (fun st => set_read_list (read_list st ++ [l]) st);;
        mret empty_response
    end
  else if bool_decide (type video = Some BROADCAST)
          && bool_decide (actual_start_time video = None) then
    match scheduled_start_time video with
    | None => mret empty_response   (* malformed video object *)
    | Some scheduled =>
        match old_video with
        | Some old => channel_remove channel_id old
        | None => mret tt
        end;;
        l ← alloc video;
        channel_append channel_id l;;
        event_schedule ← new_YoutubeEvent (type video) SCHEDULE channel_id l;
        event_reminder ← new_YoutubeEvent (type video) REMINDER channel_id l;
        let id := job_id channel_id (video_id video) in
        j ← get_job id;
        (if j is Some _ then remove_job id else mret tt);;
        add_job id {| job_event := event_reminder; job_run_at := scheduled |};;
        send_youtube_event env event_schedule;;
        mret empty_response
    end
  else mret empty_response.

(** [WebsubEndpoint.post].  [reply] is what the metadata API answers to the
    one query of this request. *)
Definition post (env : Env) (n : Notification) (reply : ApiResponse) : M Response :=
  if deleted_entry n then mret empty_response
  else
    match entries n with
    | [] => raise IndexError
    | entry :: _ =>
        let channel_id := yt_channelid entry in
        let video := new_Video (yt_videoid entry) (entry_title entry) (entry_link entry) in
        st ← get_state;
        match dict_get channel_id (channel_list st) with
        | None => raise KeyError
        | Some videos =>
            let old_video := find_video (heap st) (video_id video) videos in
            '(ok, video) ← lift (query_video_on video reply);
            if negb ok then mret empty_response
            else
              let dup :=
                match old_video with
                | Some old =>
                    bool_decide (title (video_at (heap st) old) = title video)
                    && bool_decide (scheduled_start_time (video_at (heap st) old)
                                    = scheduled_start_time video)
                | None => false
                end in
              if dup then mret empty_response
              else post_dispatch env channel_id old_video video
        end
    end.

(** ** The periodic tick *)

(** What the outside world shows while [tick] handles one video: the wall
    clock at the top of the loop body and the API's reply if it is asked. *)
Record Obs := { now : Z; reply : ApiResponse }.

(** [(a - b).total_seconds()] *)
Definition seconds_between (a b : datetime) : M Z :=
  if bool_decide (aware a = aware b) then mret (ts a - ts b) else raise TypeError.

(** [for x in xs: acc = body(acc, x)] *)
Fixpoint fold_m {A B} (body : B -> A -> M B) (xs : list A) (acc : B) : M B :=
  match xs with
  | [] => mret acc
  | x :: xs' => body acc x ≫= fold_m body xs'
  end.

(** The body of the inner loop of [tick]. *)
Definition tick_video (env : Env) (obs : loc -> Obs) (channel_id : string)
    (remove_list : list (string * loc)) (l : loc) : M (list (string * loc)) :=
  let now := local_time (now (obs l)) in
  video ← deref l;
  match scheduled_start_time video with
  | None => mret (remove_list ++ [(channel_id, l)])
  | Some scheduled =>
      d ← seconds_between now scheduled;
      if bool_decide (d > -600) then
        ok ← query_video l (reply (obs l));
        let remove_list := if negb ok then remove_list ++ [(channel_id, l)] else remove_list in
        video ← deref l;
        match actual_start_time video with
        | Some actual =>
            d ← seconds_between now actual;
            (if bool_decide (d < 10800) then
               (* broadcast has started *)
               event ← new_YoutubeEvent (Some BROADCAST) LIVE channel_id l;
               send_youtube_event env event
             else mret tt);;
            mret (remove_list ++ [(channel_id, l)])
        | None => mret remove_list
        end
      else mret remove_list
  end.

Definition tick_scan (env : Env) (obs : loc -> Obs) (channels : list (string * list loc))
    : M (list (string * loc)) :=
  fold_m (fun remove_list '(channel_id, videos) =>
            fold_m (tick_video env obs channel_id) videos remove_list)
         channels [].

Definition tick (env : Env) (obs : loc -> Obs) : M unit :=
  st ← get_state;
  remove_list ← tick_scan env obs (channel_list st);
  for_each (fun '(channel_id, video) => channel_remove channel_id video) remove_list.

(** ** State persistence *)

(** A dumped [Video]: [asdict] with the type's name and the two times as
    timestamps. *)
Record VideoState := {
  st_video_id : string;
  st_title : string;
  st_link : string;
  st_type : string;
  st_description : string;
  st_thumbnail : option string;
  st_scheduled_start_time : option Z;
  st_actual_start_time : option Z
}.

(** The two records of [app.plugin_state]; [None] is a missing key. *)
Record PluginState := {
  youtube_live_state : option (list (string * list VideoState));
  youtube_video_state : option (list VideoState)
}.

Definition type_name (t : ResourceType) : string :=
  match t with
  | VIDEO => "VIDEO"
  | BROADCAST => "BROADCAST"
  end.

(** [ResourceType[name]] *)
Definition type_of_name (name : string) : Res ResourceType :=
  if decide (name = "VIDEO") then Ok VIDEO
  else if decide (name = "BROADCAST") then Ok BROADCAST
  else Raise KeyError.

(** [Video.dump] *)
Definition dump (v : Video) : Res VideoState :=
  match type v with
  | None => Raise AttributeError
  | Some t =>
      Ok {| st_video_id := video_id v; st_title := title v; st_link := link v;
            st_type := type_name t;
            st_description := description v; st_thumbnail := thumbnail v;
            st_scheduled_start_time := ts <$> scheduled_start_time v;
            st_actual_start_time := ts <$> actual_start_time v |}
  end.

(** [datetime.datetime.fromtimestamp(ts) if ts else None]: a timestamp of
    zero is falsy. *)
Definition fromtimestamp_if (o : option Z) : option datetime :=
  match o with
  | Some t => if decide (t = 0) then None else Some {| ts := t; aware := false |}
  | None => None
  end.

(** [Video.load] *)
Definition load (state_dict : VideoState) : Res Video :=
  match type_of_name (st_type state_dict) with
  | Raise e => Raise e
  | Ok t =>
      Ok {| video_id := st_video_id state_dict; title := st_title state_dict;
            link := st_link state_dict; type := Some t;
            description := st_description state_dict;
            thumbnail := st_thumbnail state_dict;
            scheduled_start_time := fromtimestamp_if (st_scheduled_start_time state_dict);
            actual_start_time := fromtimestamp_if (st_actual_start_time state_dict) |}
  end.

Fixpoint map_res {A B} (f : A -> Res B) (xs : list A) : Res (list B) :=
  match xs with
  | [] => Ok []
  | x :: xs' =>
      match f x with
      | Raise e => Raise e
      | Ok y =>
          match map_res f xs' with
          | Raise e => Raise e
          | Ok ys => Ok (y :: ys)
          end
      end
  end.

(** [dump_state]: the two records it puts into the plugin state. *)
Definition dump_state : M PluginState :=
  st ← get_state;
  channel_state ← lift (map_res (fun '(channel, videos) =>
                                   match map_res (fun l => dump (video_at (heap st) l)) videos with
                                   | Raise e => Raise e
                                   | Ok ds => Ok (channel, ds)
                                   end)
                                (channel_list st));
  read_state ← lift (map_res (fun l => dump (video_at (heap st) l)) (read_list st));
  mret {| youtube_live_state := Some channel_state; youtube_video_state := Some read_state |}.

(** The body of the inner loop of [load_state]. *)
Definition load_saved (api : string -> ApiResponse) (channel : string) (_video : VideoState)
    : M unit :=
  video ← lift (load _video);
  '(_, video) ← lift (query_video_on video (api (video_id video)));
  if bool_decide (actual_start_time video = None) then
    l ← alloc video;
    event_reminder ← new_YoutubeEvent (type video) REMINDER channel l;
    (* set a reminder *)
    scheduled ← attr (scheduled_start_time video);
    add_job (job_id channel (video_id video))
            {| job_event := event_reminder; job_run_at := scheduled |};;
    channel_append channel l
  else mret tt.

Fixpoint alloc_all (vs : list Video) : M (list loc) :=
  match vs with
  | [] => mret []
  | v :: vs' => l ← alloc v; ls ← alloc_all vs'; mret (l :: ls)
  end.

(** [load_state]; [api] is the metadata API's reply for a video id while the
    state is being restored. *)
Definition load_state (saved : PluginState) (api : string -> ApiResponse) : M unit :=
  let channel_state := default [] (youtube_live_state saved) in
  let read_state := default [] (youtube_video_state saved) in
  for_each (fun '(channel, videos) => for_each (load_saved api channel) videos) channel_state;;
  videos ← lift (map_res load read_state);
  ls ← alloc_all videos;
  modify (set_read_list ls).

(** ** The scheduler running a reminder *)

(** The cron trigger of a reminder names one instant, so the job leaves the
    store when it runs; what its callback raises stays with the scheduler. *)
Definition fire_job (env : Env) (id : string) : M unit :=
  fun st =>
    match dict_get id (jobs st) with
    | None => (Ok tt, st)
    | Some job =>
        let st1 := set_jobs (dict_pop id (jobs st)) st in
        (Ok tt, (send_youtube_event env (job_event job) st1).2)
    end.

(** ** Vocabulary of the properties *)

(** [channel_id in channel_list] *)
Definition tracked (st : State) (channel_id : string) : Prop :=
  is_Some (dict_get channel_id (channel_list st)).

(** The pending videos of a channel, as objects; empty for an untracked
    channel. *)
Definition pending (st : State) (channel_id : string) : list loc :=
  default [] (dict_get channel_id (channel_list st)).

(** The ids of the videos a list of references points to. *)
Definition ids_of (h : list Video) (ls : list loc) : list string :=
  (fun l => video_id (video_at h l)) <$> ls.

(** The published-video dedup set: the ids in [read_list]. *)
Definition published (st : State) : list string := ids_of (heap st) (read_list st).

Definition has_job (st : State) (id : string) : Prop := is_Some (dict_get id (jobs st)).

(** The responses of the endpoint. *)
Definition accepted (challenge : string) : Response :=
  {| status_code := 200; body := Some challenge |}.
Definition not_found : Response := {| status_code := HTTP_404_NOT_FOUND; body := None |}.

(** The errors of the subscription manager. *)
Definition Conflict : exn := ValueError "Conflict channel id.".
Definition NotFound : exn := ValueError "Not found.".

(** The condition under which the handshake confirms the hub's request. *)
Definition handshake_ok (st : State) (mode channel_id : string) : Prop :=
  (mode = "subscribe" ∧ tracked st channel_id)
  ∨ (mode = "unsubscribe" ∧ ¬ tracked st channel_id).

(** The job store after [remove_job] has been tried for each id. *)
Definition cancel_jobs (ids : list string) (js : list (string * Job)) : list (string * Job) :=
  foldl (fun js id => dict_pop id js) js ids.

(** The job ids of a channel's videos. *)
Definition job_ids (h : list Video) (channel_id : string) (videos : list loc) : list string :=
  (fun l => job_id channel_id (video_id (video_at h l))) <$> videos.

(** ** Operations and runs *)

(** What can happen to the plugin's state, with what the outside world
    supplies at that moment. *)
Inductive Op :=
| OpSubscribe (channel_id : string)
| OpUnsubscribe (channel_id : string) (pop : bool)
| OpRenewal
| OpGet (mode challenge : string) (topic_channel_id : option string)
| OpPost (env : Env) (n : Notification) (reply : ApiResponse)
| OpTick (env : Env) (obs : loc -> Obs)
| OpFire (env : Env) (id : string)
| OpDump
| OpLoad (saved : PluginState) (api : string -> ApiResponse).

(** The state an operation leaves behind, whether it returned or raised: the
    web framework and the scheduler both survive a handler's exception. *)
Definition step (op : Op) (st : State) : State :=
  match op with
  | OpSubscribe channel_id => (subscribe channel_id st).2
  | OpUnsubscribe channel_id pop => (unsubscribe channel_id pop st).2
  | OpRenewal => (renewal st).2
  | OpGet mode challenge topic_channel_id => (get mode challenge topic_channel_id st).2
  | OpPost env n reply => (post env n reply st).2
  | OpTick env obs => (tick env obs st).2
  | OpFire env id => (fire_job env id st).2
  | OpDump => (dump_state st).2
  | OpLoad saved api => (load_state saved api st).2
  end.

Definition run (ops : list Op) (st : State) : State := foldl (fun st op => step op st) st ops.

Definition reachable (st : State) : Prop := ∃ ops, run ops initial_state = st.

Definition is_load (op : Op) : bool := if op is OpLoad _ _ then true else false.

(** ** Assertions about coroutines *)

(** From a state with [P], the coroutine ends in a state with [Q] at its
    result when it returns and with [E] when it raises. *)
Definition hoare {A} (P : State -> Prop) (m : M A) (Q : A -> State -> Prop)
    (E : State -> Prop) : Prop :=
  ∀ st, P st →
    match m st with
    | (Ok a, st') => Q a st'
    | (Raise _, st') => E st'
    end.

Definition preserves {A} (I : State -> Prop) (m : M A) : Prop :=
  hoare I m (fun _ => I) I.

(** ** Invariants of the state *)

(** The reference points into the store. *)
Definition valid_ref (st : State) (l : loc) : Prop := (l < length (heap st))%nat.

(** Every pending video has a scheduled start. *)
Definition pending_scheduled (st : State) : Prop :=
  Forall (fun cv => Forall (fun l => is_Some (scheduled_start_time (video_at (heap st) l))) cv.2)
         (channel_list st).

(** No two jobs of the store share an id. *)
Definition jobs_unique (st : State) : Prop := NoDup (dict_keys (jobs st)).

(** ** Events on the bus *)

Definition broadcast_event_names : list string :=
  ["youtube_broadcast_live"; "youtube_broadcast_reminder"; "youtube_broadcast_schedule"].

(** What holds of one completed [send_youtube_event]: an event of broadcast
    type was sent for a video with a scheduled start, and an [Event] with one
    of the three broadcast names comes from an event of broadcast type and
    shows that scheduled start. *)
Definition carries_schedule (s : Sent) : Prop :=
  (s_type s = Some BROADCAST → is_Some (scheduled_start_time (s_video s)))
  ∧ ∀ e, s_bus s = Some e → e_name e ∈ broadcast_event_names →
      s_type s = Some BROADCAST
      ∧ s_event s ≠ PUBLISH
      ∧ is_Some (e_scheduled_start_time e)
      ∧ e_scheduled_start_time e = scheduled_start_time (s_video s).

Definition bus_scheduled (st : State) : Prop := Forall carries_schedule (sent st).

(** ** Reminder jobs and pending snapshots *)

(** The channel has a pending snapshot of the video with a scheduled start
    and no actual start. *)
Definition pending_unresolved (st : State) (channel_id video : string) : Prop :=
  ∃ l, l ∈ pending st channel_id
       ∧ video_id (video_at (heap st) l) = video
       ∧ is_Some (scheduled_start_time (video_at (heap st) l))
       ∧ actual_start_time (video_at (heap st) l) = None.

(** A job exists under a key exactly when its video is pending and
    unresolved. *)
Definition job_invariant (st : State) : Prop :=
  ∀ channel_id video,
    has_job st (job_id channel_id video) ↔ pending_unresolved st channel_id video.

(** ** Concrete runs *)

Definition demo_env : Env :=
  {| vtubers := [("alice", "c1")]; video_disabled := false; live_disabled := false;
     reminder_disabled := false; schedule_disabled := false |}.

Definition demo_entry (video channel : string) : FeedEntry :=
  {| yt_videoid := video; entry_link := "https://youtu.be/" +:+ video;
     entry_title := "stream"; yt_channelid := channel |}.

Definition demo_note (video channel : string) : Notification :=
  {| deleted_entry := false; entries := [demo_entry video channel] |}.

(** The API's reply for a broadcast with the given scheduled and actual
    start. *)
Definition broadcast_reply (scheduled : Z) (actual : option Z) : ApiResponse :=
  RespItem None (Some {| scheduledStartTime := Some scheduled; actualStartTime := actual |}).

(** Channel "c1" subscribed, nothing pending. *)
Definition demo_tracking : State := (subscribe "c1" initial_state).2.

(** Then a notification for broadcast "v1", scheduled for 1000. *)
Definition demo_pending : State :=
  (post demo_env (demo_note "v1" "c1") (broadcast_reply 1000 None) demo_tracking).2.

(** Then one for broadcast "v2", scheduled for 1000 as well. *)
Definition demo_two_pending : State :=
  (post demo_env (demo_note "v2" "c1") (broadcast_reply 1000 None) demo_pending).2.

(** At 1700 the API shows "v1" (the first object) live since 1650, and
    answers the query for "v2" with a body that has no "items". *)
Definition demo_obs (l : loc) : Obs :=
  if decide (l = 0%nat)
  then {| now := 1700; reply := broadcast_reply 1000 (Some 1650) |}
  else {| now := 1700; reply := RespNoItemsKey |}.

(** At 500, inside the ten minutes before the scheduled start at 1000, the
    API has nothing for any video. *)
Definition demo_obs_gone (l : loc) : Obs := {| now := 500; reply := RespEmpty |}.

(** The API's reply for a plain video. *)
Definition plain_reply : ApiResponse := RespItem None None.

(** Channel "c1" subscribed, the plain video "p1" published, the broadcast
    "v1" pending. *)
Definition demo_published_and_pending : State :=
  run [OpSubscribe "c1";
       OpPost demo_env (demo_note "p1" "c1") plain_reply;
       OpPost demo_env (demo_note "v1" "c1") (broadcast_reply 1000 None)] initial_state.

(** The completed sends of [LIVE] events for a video of a channel. *)
Definition live_sent (channel video : string) (ss : list Sent) : list Sent :=
  filter (λ s, s_event s = LIVE ∧ s_channel s = channel ∧ video_id (s_video s) = video) ss.

(** The job store after the reminder under a key has been replaced: what was
    there under the key is gone, the new job is last. *)
Definition rearm (id : string) (job : Job) (js : list (string * Job)) : list (string * Job) :=
  dict_pop id js ++ [(id, job)].

(** The reminder job [post] arms for a video object. *)
Definition reminder_job (channel_id : string) (l : loc) (scheduled : datetime) : Job :=
  {| job_event := {| ev_type := Some BROADCAST; ev_event := REMINDER;
                     ev_channel := channel_id; ev_video := l |};
     job_run_at := scheduled |}.

(** The state in which [post] sends the [SCHEDULE] event: the new object
    stored, appended to the channel's list (from which the prior snapshot is
    gone), its reminder armed. *)
Definition scheduled_state (channel_id : string) (videos' : list loc) (video : Video)
    (scheduled : datetime) (st : State) : State :=
  let l := length (heap st) in
  set_jobs (rearm (job_id channel_id (video_id video)) (reminder_job channel_id l scheduled)
                  (jobs st))
    (set_channel_list (dict_set channel_id (videos' ++ [l]) (channel_list st))
       (set_heap (heap st ++ [video]) st)).

(** How many jobs the store holds under an id. *)
Definition job_count (id : string) (js : list (string * Job)) : nat :=
  length (filter (λ k, k = id) (dict_keys js)).

(** ** The published-video dedup set and [PUBLISH] events *)

(** The completed sends of [PUBLISH] events for a video id. *)
Definition publish_sent (video : string) (ss : list Sent) : list Sent :=
  filter (λ s, s_event s = PUBLISH ∧ video_id (s_video s) = video) ss.

(** [PUBLISH] was sent at most once for each video id, and only for ids that
    are in the dedup set. *)
Definition publish_ok (st : State) : Prop :=
  ∀ video, (length (publish_sent video (sent st)) ≤ 1)%nat
           ∧ (publish_sent video (sent st) ≠ [] → video ∈ published st).

(** The invariant behind [publish_ok]: the references of [read_list] are
    allocated and every job is a reminder. *)
Definition publish_inv (st : State) : Prop :=
  Forall (valid_ref st) (read_list st)
  ∧ Forall (λ ij, ev_event (job_event ij.2) = REMINDER) (jobs st)
  ∧ publish_ok st.

(** A video object with a scheduled start (which makes the reference an
    allocated one: the store's default has none). *)
Definition scheduled_ref (st : State) (l : loc) : Prop :=
  is_Some (scheduled_start_time (video_at (heap st) l)).

(** The video of every job has a scheduled start. *)
Definition jobs_scheduled (st : State) : Prop :=
  Forall (λ ij, scheduled_ref st (ev_video (job_event ij.2))) (jobs st).

(** Every completed send of a [SCHEDULE], [REMINDER] or [LIVE] event was for
    a video with a scheduled start. *)
Definition sent_scheduled (st : State) : Prop :=
  Forall (λ s, s_event s ≠ PUBLISH → is_Some (scheduled_start_time (s_video s))) (sent st).

(** The three together, and the objects of [ls] have a scheduled start. *)
Definition scheduled_inv (ls : list loc) (st : State) : Prop :=
  pending_scheduled st ∧ jobs_scheduled st ∧ sent_scheduled st
  ∧ Forall (scheduled_ref st) ls.

(** A [LIVE] event of broadcast type for a video whose actual start is less
    than 10800 seconds before one of the clock readings of the tick. *)
Definition live_fresh (obs : loc -> Obs) (s : Sent) : Prop :=
  s_event s = LIVE ∧ s_type s = Some BROADCAST
  ∧ ∃ l a, actual_start_time (s_video s) = Some a ∧ now (obs l) - ts a < 10800.

(** What has been sent since [st0] are fresh [LIVE] events. *)
Definition sent_fresh_since (obs : loc -> Obs) (st0 st : State) : Prop :=
  ∃ new, sent st = sent st0 ++ new ∧ Forall (live_fresh obs) new.

(** ** The callbacks of the vtuber registry *)

(** [on_update].  [added] and [removed] are the values of the key "youtube"
    in the dicts of these names ([None] when the key is not in the dict),
    [updated] the pair under that key in the dict [updated]. *)
Definition on_update (added removed : option string) (updated : option (string * string))
    : M unit :=
  match added with
  | Some channel_id => subscribe channel_id
  | None =>
      match removed with
      | Some channel_id => unsubscribe channel_id true
      | None =>
          match updated with
          | Some (old_id, new_id) => unsubscribe old_id true;; subscribe new_id
          | None => mret tt
          end
      end
  end.

(** [on_delete].  [yid] is [obj.value.get("youtube")]; a missing field and an
    empty string are both falsy. *)
Definition on_delete (yid : option string) : M unit :=
  match yid with
  | Some channel_id =>
      if decide (channel_id = "") then mret tt else unsubscribe channel_id true
  | None => mret tt
  end.

(** ** Subscribing at start *)

(** [asyncio.gather] of coroutines, without [return_exceptions]: every
    coroutine runs, an exception of one does not stop the others, and the
    first exception raised is the one [gather] raises.  The coroutines run in
    the order given: [subscribe] does not suspend before its request to the
    hub. *)
Fixpoint gather (ms : list (M unit)) : M unit :=
  match ms with
  | [] => mret tt
  | m :: ms' =>
      fun st =>
        match m st with
        | (Ok _, st1) => gather ms' st1
        | (Raise e, st1) => (Raise e, (gather ms' st1).2)
        end
  end.

(** [init_subscribe]: the channel ids are the "youtube" fields of the
    registry, in its order. *)
Definition init_subscribe (env : Env) : M unit :=
  let channel_ids := (vtubers env).*2 in
  gather (subscribe <$> channel_ids).

(** ** Videos that can be dumped *)

(** A video object with a type (which makes the reference an allocated one:
    the store's default has none). *)
Definition typed_ref (st : State) (l : loc) : Prop := is_Some (type (video_at (heap st) l)).

(** Every pending video and every video of the dedup list has a type, and so
    have the objects of [ls]. *)
Definition typed_inv (ls : list loc) (st : State) : Prop :=
  Forall (λ cv, Forall (typed_ref st) cv.2) (channel_list st)
  ∧ Forall (typed_ref st) (read_list st)
  ∧ Forall (typed_ref st) ls.

(** Channel "c1" subscribed and the plain video "p1" published, nothing
    pending. *)
Definition demo_published : State :=
  run [OpSubscribe "c1"; OpPost demo_env (demo_note "p1" "c1") plain_reply] initial_state.

(** ** Pending snapshots are distinct objects with distinct ids *)

(** Each pending video with its channel, in the order in which [tick] visits
    them. *)
Fixpoint pending_pairs (channels : list (string * list loc)) : list (string * loc) :=
  match channels with
  | [] => []
  | (channel_id, videos) :: channels' =>
      ((λ l, (channel_id, l)) <$> videos) ++ pending_pairs channels'
  end.

(** The channel and the video id of each of these pairs. *)
Definition pair_ids (h : list Video) (pairs : list (string * loc)) : list (string * string) :=
  (λ cl, (cl.1, video_id (video_at h cl.2))) <$> pairs.

(** [channel_list] has no repeated key, every pending reference is an object
    of the store, no object is pending twice, and no channel has two pending
    videos with one id. *)
Definition pending_wf (st : State) : Prop :=
  NoDup (dict_keys (channel_list st))
  ∧ Forall (valid_ref st) (pending_pairs (channel_list st)).*2
  ∧ NoDup (pending_pairs (channel_list st)).*2
  ∧ NoDup (pair_ids (heap st) (pending_pairs (channel_list st))).

(** No pending video has an actual start. *)
Definition pending_unstarted (st : State) : Prop :=
  Forall (λ cl, actual_start_time (video_at (heap st) cl.2) = None)
         (pending_pairs (channel_list st)).

(** What holds in the state [s] that the scan of a [tick] started in [st] has
    reached with the list [rl] of removals after the pairs [visited]: the
    pending lists are those of [st]; the objects not visited yet are as in
    [st], and no object has changed its id; the removals are among the
    visited pairs and include every visited video that has an actual start;
    and at most one [LIVE] event has been sent for a channel and a video id,
    for a video that is up for removal. *)
Definition scan_inv (st : State) (visited rl : list (string * loc)) (s : State) : Prop :=
  channel_list s = channel_list st
  ∧ length (heap s) = length (heap st)
  ∧ (∀ l, l ∉ visited.*2 → video_at (heap s) l = video_at (heap st) l)
  ∧ (∀ l, video_id (video_at (heap s) l) = video_id (video_at (heap st) l))
  ∧ sublist rl visited
  ∧ (∀ cl, cl ∈ visited → actual_start_time (video_at (heap s) cl.2) ≠ None → cl ∈ rl)
  ∧ ∃ new, sent s = sent st ++ new
           ∧ ∀ c v, (length (live_sent c v new) ≤ 1)%nat
                    ∧ (live_sent c v new ≠ [] →
                       ∃ l, (c, l) ∈ rl ∧ video_id (video_at (heap st) l) = v).

(** At 1700 the API shows "v1" (the first object) live since 1650 and "v2"
    still scheduled for 1000. *)
Definition demo_obs_live (l : loc) : Obs :=
  if decide (l = 0%nat)
  then {| now := 1700; reply := broadcast_reply 1000 (Some 1650) |}
  else {| now := 1700; reply := broadcast_reply 1000 None |}.

(** ** The keys of the jobs in the store *)

(** Every job is the reminder of an object of the store and sits under the
    key of its own channel and video. *)
Definition job_keyed (st : State) : Prop :=
  Forall (λ ij, valid_ref st (ev_video (job_event ij.2))
                ∧ ev_event (job_event ij.2) = REMINDER
                ∧ ij.1 = job_id (ev_channel (job_event ij.2))
                                (video_id (video_at (heap st) (ev_video (job_event ij.2)))))
         (jobs st).

(** Whether a tick with the clock readings and replies [obs] takes the
    pending video [l] of the state [st] off its list: the video has no
    scheduled start; or its scheduled start is less than ten minutes ahead
    and the API has nothing for it or shows it with an actual start. *)
Definition tick_drops (obs : loc -> Obs) (st : State) (l : loc) : bool :=
  let video := video_at (heap st) l in
  match scheduled_start_time video with
  | None => true
  | Some scheduled =>
      bool_decide (now (obs l) - ts scheduled > -600)
      && match query_video_on video (reply (obs l)) with
         | Ok (ok, video') => negb ok || bool_decide (is_Some (actual_start_time video'))
         | Raise _ => false
         end
  end.

(** The operations that lead to [demo_two_pending]. *)
Definition demo_ops : list Op :=
  [OpSubscribe "c1";
   OpPost demo_env (demo_note "v1" "c1") (broadcast_reply 1000 None);
   OpPost demo_env (demo_note "v2" "c1") (broadcast_reply 1000 None)].

(** ** Basic facts *)

Ltac munfold :=
  unfold mbind, mret, M_bind, M_ret, bind, ret, raise, lift, get_state, modify, attr in *.

Ltac mprim :=
  unfold get_state, lift, modify, raise, mret, M_ret, ret, deref, alloc, store, attr.

Lemma set_jobs_id st : set_jobs (jobs st) st = st.
Proof. by destruct st. Qed.

Lemma bind_unfold {A B} (m : M A) (k : A → M B) st :
  (m ≫= k) st =
    match m st with
    | (Ok a, st') => k a st'
    | (Raise e, st') => (Raise e, st')
    end.
Proof. reflexivity. Qed.

Ltac mstep := rewrite bind_unfold; mprim; cbn beta iota.

Lemma for_each_cons {A} (body : A → M unit) x xs st :
  for_each body (x :: xs) st =
    match body x st with
    | (Ok _, st') => for_each body xs st'
    | (Raise e, st') => (Raise e, st')
    end.
Proof. reflexivity. Qed.

Section dict.
Context {V : Type}.
Implicit Types (d : list (string * V)) (k : string) (v : V).

Lemma dict_mem_true k d : dict_mem k d = true ↔ is_Some (dict_get k d).
Proof. unfold dict_mem. by rewrite bool_decide_eq_true. Qed.

Lemma dict_mem_false k d : dict_mem k d = false ↔ dict_get k d = None.
Proof.
  unfold dict_mem. rewrite bool_decide_eq_false.
  by rewrite eq_None_not_Some.
Qed.

Lemma dict_get_set_eq k v d : dict_get k (dict_set k v d) = Some v.
Proof.
  induction d as [|[k' v'] d IH]; simpl.
  - by rewrite decide_True.
  - destruct (decide (k' = k)); simpl.
    + by rewrite decide_True.
    + by rewrite decide_False.
Qed.

Lemma dict_get_set_ne k k' v d : k ≠ k' → dict_get k' (dict_set k v d) = dict_get k' d.
Proof.
  intros Hne. induction d as [|[k0 v0] d IH]; simpl.
  - by rewrite decide_False.
  - destruct (decide (k0 = k)) as [->|]; simpl.
    + by rewrite !decide_False.
    + by rewrite IH.
Qed.

Lemma dict_get_pop_eq k d : dict_get k (dict_pop k d) = None.
Proof.
  induction d as [|[k' v'] d IH]; simpl; [done|].
  destruct (decide (k' = k)); simpl; [done|].
  by rewrite decide_False.
Qed.

Lemma dict_get_pop_ne k k' d : k ≠ k' → dict_get k' (dict_pop k d) = dict_get k' d.
Proof.
  intros Hne. induction d as [|[k0 v0] d IH]; simpl; [done|].
  destruct (decide (k0 = k)) as [->|]; simpl.
  - by rewrite decide_False.
  - by rewrite IH.
Qed.

Lemma dict_pop_absent k d : dict_get k d = None → dict_pop k d = d.
Proof.
  induction d as [|[k' v'] d IH]; simpl; [done|].
  destruct (decide (k' = k)); [done|]. intros H. by rewrite IH.
Qed.

Lemma dict_get_app_None k d v :
  dict_get k d = None → dict_get k (d ++ [(k, v)]) = Some v.
Proof.
  induction d as [|[k' v'] d IH]; simpl.
  - by rewrite decide_True.
  - destruct (decide (k' = k)); [done|]. apply IH.
Qed.

Lemma dict_get_app_ne k k' d v :
  k ≠ k' → dict_get k' (d ++ [(k, v)]) = dict_get k' d.
Proof.
  intros Hne. induction d as [|[k0 v0] d IH]; simpl.
  - by rewrite decide_False.
  - by rewrite IH.
Qed.


Lemma dict_get_None_keys k d : dict_get k d = None ↔ k ∉ dict_keys d.
Proof.
  unfold dict_keys. induction d as [|[k' v'] d IH]; simpl.
  - split; [intros _; apply not_elem_of_nil | done].
  - rewrite not_elem_of_cons. destruct (decide (k' = k)) as [->|Hne].
    + split; [done | by intros [? _]].
    + rewrite IH. naive_solver.
Qed.
End dict.

(** ** The verification handshake *)

Lemma get_spec mode challenge c st :
  get mode challenge (Some c) st =
    (Ok (if bool_decide (handshake_ok st mode c) then accepted challenge else not_found), st).
Proof.
  unfold get, handshake_ok, tracked. munfold.
  destruct (dict_mem c (channel_list st)) eqn:Hm.
  - apply dict_mem_true in Hm.
    destruct (decide (mode = "subscribe")) as [->|Hs].
    + rewrite bool_decide_eq_true_2 by done. simpl.
      rewrite bool_decide_eq_true_2; [done|]. by left.
    + rewrite (bool_decide_eq_false_2 (mode = "subscribe")) by done. simpl.
      rewrite andb_false_r. simpl.
      rewrite bool_decide_eq_false_2; [done|]. intros [[? _]|[_ ?]]; done.
  - apply dict_mem_false in Hm.
    assert (¬ is_Some (dict_get c (channel_list st))) as Hn by (rewrite Hm; by intros [? ?]).
    rewrite andb_false_r, andb_true_r. simpl.
    destruct (decide (mode = "unsubscribe")) as [->|Hs].
    + rewrite bool_decide_eq_true_2 by done. simpl.
      rewrite bool_decide_eq_true_2; [done|]. by right.
    + rewrite (bool_decide_eq_false_2 (mode = "unsubscribe")) by done. simpl.
      rewrite bool_decide_eq_false_2; [done|]. intros [[_ ?]|[? _]]; done.
Qed.

(** C6. The handshake answers with the challenge, unchanged, exactly when
    the mode is "subscribe" and the channel is tracked or the mode is
    "unsubscribe" and the channel is not tracked; it answers 404 exactly in
    every other case.  (The state is left as it was.) *)
Theorem handshake_accepts_iff mode challenge c st :
  (get mode challenge (Some c) st = (Ok (accepted challenge), st) ↔ handshake_ok st mode c)
  ∧ (get mode challenge (Some c) st = (Ok not_found, st) ↔ ¬ handshake_ok st mode c).
Proof.
  rewrite get_spec. split; case_bool_decide; split; done.
Qed.

(** ** Subscribe and unsubscribe *)

Lemma try_remove_job id st :
  try_pass JobLookupError (remove_job id) st = (Ok tt, set_jobs (dict_pop id (jobs st)) st).
Proof.
  unfold try_pass, remove_job.
  destruct (dict_get id (jobs st)) eqn:Hg; [done|].
  rewrite decide_True by done.
  by rewrite dict_pop_absent, set_jobs_id.
Qed.

Lemma cancel_loop channel_id videos st :
  for_each (fun l =>
              video ← deref l;
              try_pass JobLookupError (remove_job (job_id channel_id (video_id video))))
           videos st
  = (Ok tt, set_jobs (cancel_jobs (job_ids (heap st) channel_id videos) (jobs st)) st).
Proof.
  revert st. induction videos as [|l videos IH]; intros st.
  - simpl. by rewrite set_jobs_id.
  - rewrite for_each_cons, bind_unfold. unfold deref at 1.
    rewrite try_remove_job, IH. by destruct st.
Qed.

Lemma unsubscribe_tracked channel_id pop st videos :
  dict_get channel_id (channel_list st) = Some videos →
  unsubscribe channel_id pop st =
    (Ok tt,
     set_hub (hub st ++ [(HubUnsubscribe, channel_id)])
       (set_channel_list
          (if pop then dict_pop channel_id (channel_list st) else channel_list st)
          (set_jobs (cancel_jobs (job_ids (heap st) channel_id videos) (jobs st)) st))).
Proof.
  intros Hg. unfold unsubscribe. mstep. rewrite Hg.
  rewrite bind_unfold, cancel_loop. unfold _subscribe.
  destruct pop; repeat mstep; [done|]. by destruct st.
Qed.

Lemma subscribe_untracked channel_id st :
  dict_get channel_id (channel_list st) = None →
  subscribe channel_id st =
    _subscribe channel_id false
      (set_channel_list (dict_set channel_id [] (channel_list st)) st).
Proof.
  intros Hg. unfold subscribe. mstep. rewrite Hg.
  apply dict_mem_false in Hg. rewrite Hg. by mstep.
Qed.

(** C9. [subscribe] raises the conflict error exactly when the channel is
    tracked (and then changes nothing); otherwise the hub request is issued
    from a state in which the channel already has an empty pending list, and
    the call succeeds.  [unsubscribe] raises the not-found error exactly when
    the channel is not tracked (and then changes nothing); otherwise it
    succeeds, and with [pop] the channel is no longer tracked afterwards. *)
Theorem subscribe_unsubscribe_errors channel_id pop st :
  ((subscribe channel_id st).1 = Raise Conflict ↔ tracked st channel_id)
  ∧ (tracked st channel_id → subscribe channel_id st = (Raise Conflict, st))
  ∧ (¬ tracked st channel_id →
       let registered := set_channel_list (dict_set channel_id [] (channel_list st)) st in
       dict_get channel_id (channel_list registered) = Some []
       ∧ subscribe channel_id st = _subscribe channel_id false registered
       ∧ (subscribe channel_id st).1 = Ok tt
       ∧ hub (subscribe channel_id st).2 = hub st ++ [(HubSubscribe, channel_id)]
       ∧ dict_get channel_id (channel_list (subscribe channel_id st).2) = Some [])
  ∧ ((unsubscribe channel_id pop st).1 = Raise NotFound ↔ ¬ tracked st channel_id)
  ∧ (¬ tracked st channel_id → unsubscribe channel_id pop st = (Raise NotFound, st))
  ∧ (tracked st channel_id →
       (unsubscribe channel_id pop st).1 = Ok tt
       ∧ hub (unsubscribe channel_id pop st).2 = hub st ++ [(HubUnsubscribe, channel_id)]
       ∧ (pop = true → ¬ tracked (unsubscribe channel_id pop st).2 channel_id)).
Proof.
  unfold tracked.
  destruct (dict_get channel_id (channel_list st)) as [videos|] eqn:Hg.
  - assert (subscribe channel_id st = (Raise Conflict, st)) as Hs.
    { unfold subscribe. mstep. by rewrite Hg. }
    assert (¬ ¬ is_Some (Some videos)) as Hnn by (intros Hn; by apply Hn).
    rewrite (unsubscribe_tracked _ _ _ _ Hg), Hs. simpl.
    split_and!; try done; try (intros H; by destruct (Hnn H)).
    intros _. split_and!; try done.
    intros ->. rewrite dict_get_pop_eq. by intros [? ?].
  - assert (unsubscribe channel_id pop st = (Raise NotFound, st)) as Hu.
    { unfold unsubscribe. mstep. by rewrite Hg. }
    assert (¬ @is_Some (list loc) None) as Hn by (by intros [? ?]).
    rewrite (subscribe_untracked _ _ Hg), Hu. unfold _subscribe. mprim. simpl.
    rewrite dict_get_set_eq.
    split_and!; try done; try (intros H; by destruct (Hn H)).
Qed.

(** ** Webhook ingestion *)

Lemma post_deleted env n reply st :
  deleted_entry n = true → post env n reply st = (Ok empty_response, st).
Proof. intros Hd. unfold post. by rewrite Hd. Qed.

Lemma post_no_entries env n reply st :
  deleted_entry n = false → entries n = [] → post env n reply st = (Raise IndexError, st).
Proof. intros Hd He. unfold post. by rewrite Hd, He. Qed.

Lemma post_untracked env n entry rest reply st :
  deleted_entry n = false → entries n = entry :: rest →
  dict_get (yt_channelid entry) (channel_list st) = None →
  post env n reply st = (Raise KeyError, st).
Proof. intros Hd He Hg. unfold post. rewrite Hd, He. mstep. by rewrite Hg. Qed.

(** [post] on a tracked channel, up to the point where the event path starts. *)
Lemma post_tracked env n entry rest reply st videos :
  deleted_entry n = false → entries n = entry :: rest →
  dict_get (yt_channelid entry) (channel_list st) = Some videos →
  post env n reply st =
    match query_video_on
            (new_Video (yt_videoid entry) (entry_title entry) (entry_link entry)) reply with
    | Raise e => (Raise e, st)
    | Ok (false, _) => (Ok empty_response, st)
    | Ok (true, video) =>
        let old_video := find_video (heap st) (yt_videoid entry) videos in
        let dup :=
          match old_video with
          | Some old =>
              bool_decide (title (video_at (heap st) old) = title video)
              && bool_decide (scheduled_start_time (video_at (heap st) old)
                              = scheduled_start_time video)
          | None => false
          end in
        if dup then (Ok empty_response, st)
        else post_dispatch env (yt_channelid entry) old_video video st
    end.
Proof.
  intros Hd He Hg. unfold post. rewrite Hd, He. mstep. rewrite Hg. mstep.
  destruct (query_video_on _ reply) as [[[] video]|e]; try done.
  simpl. by destruct (match find_video _ _ _ with Some _ => _ | None => _ end).
Qed.

Lemma apply_item_id v snippet streaming : video_id (apply_item v snippet streaming) = video_id v.
Proof. by destruct snippet, streaming. Qed.

Lemma apply_item_title v snippet streaming : title (apply_item v snippet streaming) = title v.
Proof. by destruct snippet, streaming. Qed.

Lemma apply_item_type v snippet streaming :
  type (apply_item v snippet streaming)
  = Some (if streaming is Some _ then BROADCAST else VIDEO).
Proof. by destruct snippet, streaming. Qed.

Lemma apply_item_scheduled v snippet streaming :
  scheduled_start_time (apply_item v snippet streaming)
  = match streaming ≫= scheduledStartTime with
    | Some t => Some (local_time t)
    | None => scheduled_start_time v
    end.
Proof. by destruct snippet, streaming as [[[] ?]|]. Qed.

Lemma apply_item_actual v snippet streaming :
  actual_start_time (apply_item v snippet streaming)
  = match streaming ≫= actualStartTime with
    | Some t => Some (local_time t)
    | None => actual_start_time v
    end.
Proof. by destruct snippet, streaming as [[? []]|]. Qed.

(** C3 (the code does otherwise).  A notification without the deletion marker
    whose channel is not tracked makes [post] raise [KeyError] at the lookup
    of the channel's pending list: the resolver is not asked, nothing is
    emitted or stored, and no response is returned. *)
Theorem post_untracked_raises env n entry rest reply st :
  deleted_entry n = false → entries n = entry :: rest →
  ¬ tracked st (yt_channelid entry) →
  post env n reply st = (Raise KeyError, st).
Proof.
  intros Hd He Hn. apply (post_untracked _ _ _ _ _ _ Hd He).
  apply eq_None_not_Some, Hn.
Qed.

(** C8. A notification that resolves to a broadcast with neither an actual
    nor a scheduled start leaves the whole state as it was (nothing emitted,
    nothing stored, no job armed), and on a tracked channel the handler
    returns its empty response. *)
Theorem post_malformed_broadcast env n snippet st :
  let reply :=
    RespItem snippet (Some {| scheduledStartTime := None; actualStartTime := None |}) in
  (post env n reply st).2 = st
  ∧ ∀ entry rest,
      deleted_entry n = false → entries n = entry :: rest →
      tracked st (yt_channelid entry) →
      post env n reply st = (Ok empty_response, st).
Proof.
  intros reply.
  assert (∀ entry rest videos,
            deleted_entry n = false → entries n = entry :: rest →
            dict_get (yt_channelid entry) (channel_list st) = Some videos →
            post env n reply st = (Ok empty_response, st)) as Htracked.
  { intros entry rest videos Hd He Hg.
    rewrite (post_tracked _ _ _ _ _ _ _ Hd He Hg). subst reply. cbn [query_video_on].
    cbv zeta. destruct (match find_video _ _ _ with Some _ => _ | None => _ end); [done|].
    unfold post_dispatch. rewrite apply_item_type.
    rewrite bool_decide_eq_false_2 by done.
    rewrite bool_decide_eq_true_2 by done.
    rewrite apply_item_actual, apply_item_scheduled. simpl. by mprim. }
  split.
  - destruct (deleted_entry n) eqn:Hd; [by rewrite post_deleted|].
    destruct (entries n) as [|entry rest] eqn:He; [by rewrite post_no_entries|].
    destruct (dict_get (yt_channelid entry) (channel_list st)) as [videos|] eqn:Hg.
    + by rewrite (Htracked entry rest videos).
    + by rewrite (post_untracked _ _ _ _ _ _ Hd He Hg).
  - intros entry rest Hd He [videos Hg]. by apply (Htracked _ _ _ Hd He Hg).
Qed.

(** C7. When the video of a notification is already pending in its channel
    and the resolved title and scheduled start equal those of the stored
    snapshot, [post] returns its empty response and leaves the whole state as
    it was: no event, no change of the pending list, no change of the job. *)
Theorem post_duplicate_suppressed env n entry rest reply st videos old video :
  deleted_entry n = false → entries n = entry :: rest →
  dict_get (yt_channelid entry) (channel_list st) = Some videos →
  find_video (heap st) (yt_videoid entry) videos = Some old →
  query_video_on (new_Video (yt_videoid entry) (entry_title entry) (entry_link entry)) reply
    = Ok (true, video) →
  title (video_at (heap st) old) = title video →
  scheduled_start_time (video_at (heap st) old) = scheduled_start_time video →
  post env n reply st = (Ok empty_response, st).
Proof.
  intros Hd He Hg Hold Hq Ht Hs.
  rewrite (post_tracked _ _ _ _ _ _ _ Hd He Hg), Hq. cbv zeta.
  rewrite Hold, Ht, Hs. by rewrite !bool_decide_eq_true_2.
Qed.

(** ** Reasoning about coroutines *)

Section hoare.
Context {A B : Type}.
Implicit Types (P E : State → Prop).

Lemma hoare_ret P (a : A) (Q : A → State → Prop) E :
  (∀ st, P st → Q a st) → hoare P (mret a) Q E.
Proof. intros H st HP. by apply H. Qed.

Lemma hoare_raise P e (Q : A → State → Prop) E :
  (∀ st, P st → E st) → hoare P (raise e) Q E.
Proof. intros H st HP. by apply H. Qed.

Lemma hoare_bind P (m : M A) (k : A → M B) (R : A → State → Prop)
    (Q : B → State → Prop) E :
  hoare P m R E → (∀ a, hoare (R a) (k a) Q E) → hoare P (m ≫= k) Q E.
Proof.
  intros Hm Hk st HP. rewrite bind_unfold. specialize (Hm st HP).
  destruct (m st) as [[a|e] st']; [|done]. by apply Hk.
Qed.

Lemma hoare_conseq P P' (m : M A) (Q Q' : A → State → Prop) E E' :
  hoare P' m Q' E' → (∀ st, P st → P' st) → (∀ a st, Q' a st → Q a st) →
  (∀ st, E' st → E st) → hoare P m Q E.
Proof.
  intros Hm HP HQ HE st Hst. specialize (Hm st (HP _ Hst)).
  destruct (m st) as [[a|e] st']; eauto.
Qed.
End hoare.

Lemma preserves_bind {A B} I (m : M A) (k : A → M B) :
  preserves I m → (∀ a, preserves I (k a)) → preserves I (m ≫= k).
Proof. intros Hm Hk. by eapply hoare_bind. Qed.

Lemma preserves_for_each {A} I (body : A → M unit) xs :
  (∀ x, x ∈ xs → preserves I (body x)) → preserves I (for_each body xs).
Proof.
  induction xs as [|x xs IH]; intros Hb.
  - by apply hoare_ret.
  - simpl. apply preserves_bind.
    + apply Hb. by left.
    + intros _. apply IH. intros y Hy. apply Hb. by right.
Qed.

Lemma preserves_fold_m {A B} I (body : B → A → M B) xs acc :
  (∀ acc x, x ∈ xs → preserves I (body acc x)) → preserves I (fold_m body xs acc).
Proof.
  revert acc. induction xs as [|x xs IH]; intros acc Hb.
  - by apply hoare_ret.
  - simpl. apply preserves_bind.
    + apply Hb. by left.
    + intros acc'. apply IH. intros acc'' y Hy. apply Hb. by right.
Qed.

Lemma preserves_try_pass I e m : preserves I m → preserves I (try_pass e m).
Proof.
  intros Hm st HI. specialize (Hm st HI). unfold try_pass.
  destruct (m st) as [[[]|e'] st']; [done|]. by destruct (decide (e' = e)).
Qed.

Lemma preserves_ret {A} I (a : A) : preserves I (mret a).
Proof. by apply hoare_ret. Qed.

Lemma preserves_raise {A} I e : preserves I (@raise A e).
Proof. by apply hoare_raise. Qed.

Lemma preserves_lift {A} I (r : Res A) : preserves I (lift r).
Proof. intros st H. unfold lift. by destruct r. Qed.

Lemma preserves_get_state I : preserves I get_state.
Proof. by intros st H. Qed.

Lemma preserves_deref I l : preserves I (deref l).
Proof. by intros st H. Qed.

Lemma preserves_get_job I id : preserves I (get_job id).
Proof. by intros st H. Qed.

Lemma preserves_attr {A} I (o : option A) : preserves I (attr o).
Proof. intros st H. by destruct o. Qed.

Lemma preserves_new_YoutubeEvent I t e c l : preserves I (new_YoutubeEvent t e c l).
Proof.
  intros st H. unfold new_YoutubeEvent. rewrite bind_unfold. unfold deref.
  by destruct (_ && _).
Qed.

(** A constructed event is the record of the constructor's arguments. *)
Lemma preserves_new_YoutubeEvent_bind {B} I t e c l (k : YoutubeEvent → M B) :
  preserves I (k {| ev_type := t; ev_event := e; ev_channel := c; ev_video := l |}) →
  preserves I (new_YoutubeEvent t e c l ≫= k).
Proof.
  intros Hk st H. rewrite bind_unfold. unfold new_YoutubeEvent. rewrite bind_unfold.
  unfold deref. cbn beta iota. destruct (_ && _); [done|]. by apply Hk.
Qed.

Lemma preserves_snd {A} I (m : M A) st : preserves I m → I st → I (m st).2.
Proof. intros Hm H. specialize (Hm st H). by destruct (m st) as [[a|e] st']. Qed.

Create HintDb pres.
#[export] Hint Resolve preserves_ret preserves_raise preserves_lift preserves_get_state
  preserves_deref preserves_get_job preserves_attr preserves_new_YoutubeEvent : pres.

(** Walks through the binds, loops and case distinctions of a coroutine and
    leaves the steps that the hints do not settle. *)
Ltac pres :=
  lazymatch goal with
  | |- preserves _ (mbind _ (new_YoutubeEvent _ _ _ _)) =>
      apply preserves_new_YoutubeEvent_bind; pres
  | |- preserves _ (mbind _ _) => apply preserves_bind; [pres | intros ?; pres]
  | |- preserves _ (for_each _ _) => apply preserves_for_each; intros ? ?; pres
  | |- preserves _ (fold_m _ _ _) => apply preserves_fold_m; intros ? ? ?; pres
  | |- preserves _ (try_pass _ _) => apply preserves_try_pass; pres
  | |- preserves _ (match ?x with _ => _ end) => destruct x eqn:?; pres
  | |- _ => try solve [eauto with pres]
  end.

Lemma send_youtube_event_eq env ev st :
  send_youtube_event env ev st =
    let video := video_at (heap st) (ev_video ev) in
    match build_event env ev video with
    | Ok event => (Ok tt, set_sent (sent st ++ [sent_record ev video event]) st)
    | Raise e => (Raise e, st)
    end.
Proof.
  unfold send_youtube_event. rewrite !bind_unfold. unfold deref, lift. cbv zeta.
  by destruct (build_event _ _ _).
Qed.

Lemma query_video_eq l r st :
  query_video l r st =
    match query_video_on (video_at (heap st) l) r with
    | Ok (ok, video) => (Ok ok, set_heap (<[l := video]> (heap st)) st)
    | Raise e => (Raise e, st)
    end.
Proof.
  unfold query_video. rewrite !bind_unfold. unfold deref, lift.
  by destruct (query_video_on _ _) as [[ok video]|e].
Qed.

(** *** Invariants that every operation preserves

    An invariant that the primitive steps preserve is preserved by every
    operation of the plugin, whether the operation returns or raises. *)
Section invariant.
Context (I : State → Prop).
Context (I_alloc : ∀ v, preserves I (alloc v)).
Context (I_store : ∀ l v, preserves I (store l v)).
Context (I_append : ∀ c l, preserves I (channel_append c l)).
Context (I_remove : ∀ c l, preserves I (channel_remove c l)).
Context (I_add_job : ∀ id j, preserves I (add_job id j)).
Context (I_remove_job : ∀ id, preserves I (remove_job id)).
Context (I_send : ∀ env ev, preserves I (send_youtube_event env ev)).
Context (I_hub : ∀ c r, preserves I (_subscribe c r)).
Context (I_channels : ∀ f, preserves I (modify (λ st, set_channel_list (f (channel_list st)) st))).
Context (I_read : ∀ f, preserves I (modify (λ st, set_read_list (f (read_list st)) st))).

#[local] Hint Resolve I_alloc I_store I_append I_remove I_add_job I_remove_job
  I_send I_hub : pres.

Lemma inv_query_video l r : preserves I (query_video l r).
Proof. unfold query_video. pres. Qed.
#[local] Hint Resolve inv_query_video : pres.

Lemma inv_subscribe c : preserves I (subscribe c).
Proof. unfold subscribe. pres; try apply (I_channels (dict_set c [])). Qed.

Lemma inv_unsubscribe c pop : preserves I (unsubscribe c pop).
Proof. unfold unsubscribe. pres; try apply (I_channels (dict_pop c)). Qed.

Lemma inv_renewal : preserves I renewal.
Proof. unfold renewal. pres. Qed.

Lemma inv_get mode challenge c : preserves I (get mode challenge c).
Proof. unfold get. pres. Qed.

Lemma inv_post_dispatch env c old v : preserves I (post_dispatch env c old v).
Proof. unfold post_dispatch. pres; try apply (I_read (λ rl, rl ++ [_])). Qed.

Lemma inv_post env n reply : preserves I (post env n reply).
Proof. unfold post. pres. apply inv_post_dispatch. Qed.

Lemma inv_tick env obs : preserves I (tick env obs).
Proof. unfold tick, tick_scan, tick_video, seconds_between. pres. Qed.

Lemma inv_alloc_all vs : preserves I (alloc_all vs).
Proof. induction vs; simpl; pres. Qed.
#[local] Hint Resolve inv_alloc_all : pres.

Lemma inv_load_state saved api : preserves I (load_state saved api).
Proof. unfold load_state, load_saved. pres; try apply (I_read (λ _, _)). Qed.

Lemma inv_fire_job env id : preserves I (fire_job env id).
Proof.
  intros st H. unfold fire_job. destruct (dict_get id (jobs st)) as [j|] eqn:Hg; [|done].
  simpl. apply preserves_snd; [done|].
  pose proof (I_remove_job id st H) as Hr. unfold remove_job in Hr. by rewrite Hg in Hr.
Qed.

Lemma inv_dump_state : preserves I dump_state.
Proof. unfold dump_state. pres. Qed.

Lemma inv_step op st : I st → I (step op st).
Proof.
  intros H. destruct op; simpl; apply preserves_snd; try done.
  - apply inv_subscribe.
  - apply inv_unsubscribe.
  - apply inv_renewal.
  - apply inv_get.
  - apply inv_post.
  - apply inv_tick.
  - apply inv_fire_job.
  - apply inv_dump_state.
  - apply inv_load_state.
Qed.
End invariant.

Lemma run_invariant (I : State → Prop) :
  (∀ op st, I st → I (step op st)) → ∀ ops st, I st → I (run ops st).
Proof.
  intros Hstep ops. induction ops as [|op ops IH]; intros st H; [done|].
  simpl. by apply IH, Hstep.
Qed.

(** *** The job store never holds two jobs under one id *)

Lemma dict_keys_pop_elem {V} k k' (d : list (string * V)) :
  k' ∈ dict_keys (dict_pop k d) → k' ∈ dict_keys d.
Proof.
  unfold dict_keys. induction d as [|[k0 v0] d IH]; simpl; [done|].
  destruct (decide (k0 = k)).
  - intros H. right. by apply IH.
  - rewrite fmap_cons. intros [->|H]%elem_of_cons; [by left|]. right. by apply IH.
Qed.

Lemma NoDup_dict_pop {V} k (d : list (string * V)) :
  NoDup (dict_keys d) → NoDup (dict_keys (dict_pop k d)).
Proof.
  unfold dict_keys. induction d as [|[k0 v0] d IH]; simpl; [done|].
  rewrite NoDup_cons. intros [Hn Hd]. destruct (decide (k0 = k)); [by apply IH|].
  rewrite fmap_cons. apply NoDup_cons. split; [|by apply IH].
  intros H. apply Hn. by apply (dict_keys_pop_elem k).
Qed.

Lemma NoDup_dict_add {V} k v (d : list (string * V)) :
  dict_get k d = None → NoDup (dict_keys d) → NoDup (dict_keys (d ++ [(k, v)])).
Proof.
  intros Hg Hd. unfold dict_keys. rewrite fmap_app. apply NoDup_app. split_and!; [done| |].
  - intros k' Hk' Hin. apply list_elem_of_singleton in Hin. simpl in Hin. subst k'.
    by apply dict_get_None_keys in Hg.
  - apply NoDup_singleton.
Qed.

Lemma preserves_frame {A F} (field : State → F) (P : F → Prop) (m : M A) :
  (∀ st, field (m st).2 = field st) → preserves (λ st, P (field st)) m.
Proof.
  intros Hm st H. specialize (Hm st).
  destruct (m st) as [[a|e] st']; simpl in Hm; by rewrite Hm.
Qed.

Lemma jobs_unique_step op st : jobs_unique st → jobs_unique (step op st).
Proof.
  apply inv_step; clear; unfold jobs_unique.
  - intros v. by apply (preserves_frame jobs (λ js, NoDup (dict_keys js))).
  - intros l v. by apply (preserves_frame jobs (λ js, NoDup (dict_keys js))).
  - intros c l. apply (preserves_frame jobs (λ js, NoDup (dict_keys js))). intros st. unfold channel_append.
    by destruct (dict_get _ _).
  - intros c l. apply (preserves_frame jobs (λ js, NoDup (dict_keys js))). intros st. unfold channel_remove.
    destruct (dict_get _ _); [|done]. by destruct (remove_first _ _ _).
  - intros id j st H. unfold add_job. destruct (dict_get id (jobs st)) eqn:Hg; [done|].
    by apply NoDup_dict_add.
  - intros id st H. unfold remove_job. destruct (dict_get id (jobs st)); [|done].
    by apply NoDup_dict_pop.
  - intros env ev. apply (preserves_frame jobs (λ js, NoDup (dict_keys js))). intros st. rewrite send_youtube_event_eq.
    cbv zeta. by destruct (build_event _ _ _).
  - intros c r. by apply (preserves_frame jobs (λ js, NoDup (dict_keys js))).
  - intros f. by apply (preserves_frame jobs (λ js, NoDup (dict_keys js))).
  - intros f. by apply (preserves_frame jobs (λ js, NoDup (dict_keys js))).
Qed.

(** *** Events of broadcast type are sent with their scheduled start *)

Lemma build_event_carries env ev video event :
  build_event env ev video = Ok event → carries_schedule (sent_record ev video event).
Proof.
  unfold build_event, carries_schedule, sent_record, broadcast_event_names. simpl.
  destruct (ev_type ev) as [[]|] eqn:Ht.
  - (* VIDEO *)
    rewrite bool_decide_eq_true_2 by done.
    rewrite (bool_decide_eq_false_2 (Some VIDEO = Some BROADCAST)) by done. simpl.
    destruct (negb (video_disabled env)).
    + destruct (key_of _); [|done]. intros [= <-]. split; [done|].
      intros e [= <-]. simpl. rewrite !elem_of_cons, elem_of_nil. naive_solver.
    + intros [= <-]. split; done.
  - (* BROADCAST *)
    rewrite (bool_decide_eq_false_2 (Some BROADCAST = Some VIDEO)) by done.
    rewrite bool_decide_eq_true_2 by done. simpl.
    destruct (scheduled_start_time video) as [scheduled|]; [|done].
    intros H. split; [done|]. intros e He _.
    destruct (ev_event ev) eqn:Hev; simpl in H.
    + injection H as <-. done.
    + destruct (negb (reminder_disabled env)); simpl in H.
      * destruct (key_of _); [|done]. injection H as <-. injection He as <-. simpl. eauto.
      * injection H as <-. done.
    + destruct (negb (schedule_disabled env)); simpl in H.
      * destruct (key_of _); [|done]. injection H as <-. injection He as <-. simpl. eauto.
      * injection H as <-. done.
    + destruct (negb (live_disabled env)); simpl in H.
      * destruct (actual_start_time video); [|done].
        destruct (key_of _); [|done]. injection H as <-. injection He as <-. simpl. eauto.
      * injection H as <-. done.
  - rewrite !bool_decide_eq_false_2 by done. simpl. intros [= <-]. split; done.
Qed.

Lemma bus_scheduled_step op st : bus_scheduled st → bus_scheduled (step op st).
Proof.
  apply inv_step; clear; unfold bus_scheduled.
  - intros v. by apply (preserves_frame sent (Forall carries_schedule)).
  - intros l v. by apply (preserves_frame sent (Forall carries_schedule)).
  - intros c l. apply (preserves_frame sent (Forall carries_schedule)). intros st. unfold channel_append.
    by destruct (dict_get _ _).
  - intros c l. apply (preserves_frame sent (Forall carries_schedule)). intros st. unfold channel_remove.
    destruct (dict_get _ _); [|done]. by destruct (remove_first _ _ _).
  - intros id j. apply (preserves_frame sent (Forall carries_schedule)). intros st. unfold add_job.
    by destruct (dict_get _ _).
  - intros id. apply (preserves_frame sent (Forall carries_schedule)). intros st. unfold remove_job.
    by destruct (dict_get _ _).
  - intros env ev st H. rewrite send_youtube_event_eq. cbv zeta.
    destruct (build_event _ _ _) as [event|e] eqn:Hb; [|done]. simpl.
    apply Forall_app. split; [done|]. constructor; [|done]. by eapply build_event_carries.
  - intros c r. by apply (preserves_frame sent (Forall carries_schedule)).
  - intros f. by apply (preserves_frame sent (Forall carries_schedule)).
  - intros f. by apply (preserves_frame sent (Forall carries_schedule)).
Qed.

Lemma new_YoutubeEvent_eq t e c l st :
  new_YoutubeEvent t e c l st =
    if bool_decide (t = Some BROADCAST)
       && bool_decide (scheduled_start_time (video_at (heap st) l) = None)
    then (Raise (ValueError "Missing field(s): scheduled_start_time in video."), st)
    else (Ok {| ev_type := t; ev_event := e; ev_channel := c; ev_video := l |}, st).
Proof.
  unfold new_YoutubeEvent. rewrite bind_unfold. unfold deref. by destruct (_ && _).
Qed.

(** ** Snapshot and restore *)

(** [load_state] never creates a channel's entry: from a state that tracks
    nothing (a fresh process) it ends in a state that tracks nothing,
    whatever was saved. *)
Lemma load_state_tracks_nothing saved api st :
  channel_list st = [] → channel_list (load_state saved api st).2 = [].
Proof.
  apply (preserves_snd (λ st, channel_list st = [])).
  assert (∀ v, preserves (λ st, channel_list st = []) (alloc v)) as Ha.
  { intros v. by apply (preserves_frame channel_list (λ cl, cl = [])). }
  assert (∀ vs, preserves (λ st, channel_list st = []) (alloc_all vs)) as Hall.
  { induction vs; simpl; pres. }
  unfold load_state, load_saved. pres.
  - apply (preserves_frame channel_list (λ cl, cl = [])). intros st'. unfold add_job.
    by destruct (dict_get _ _).
  - intros st' Hcl. unfold channel_append. by rewrite Hcl.
  - by apply (preserves_frame channel_list (λ cl, cl = [])).
Qed.

(** C1 (the code does otherwise).  Restoring in a fresh process never ends
    with a tracked channel, whatever was saved.  In particular: a state with a
    published video and a pending broadcast is dumped without error, but
    restoring the dump in a fresh process raises [KeyError] at
    [channel_list[channel].append(video)]; afterwards no channel is tracked,
    the broadcast is not pending, the dedup set is empty (the assignment of
    [read_list] is never reached), and the broadcast's reminder job has
    already been armed. *)
Theorem restore_into_fresh_state_raises :
  (∀ saved api, channel_list (load_state saved api initial_state).2 = [])
  ∧ ∃ saved st',
      dump_state demo_published_and_pending = (Ok saved, demo_published_and_pending)
      ∧ dict_keys (channel_list demo_published_and_pending) = ["c1"]
      ∧ ids_of (heap demo_published_and_pending) (pending demo_published_and_pending "c1")
        = ["v1"]
      ∧ published demo_published_and_pending = ["p1"]
      ∧ load_state saved (λ _, broadcast_reply 1000 None) initial_state
        = (Raise KeyError, st')
      ∧ channel_list st' = []
      ∧ pending st' "c1" = []
      ∧ published st' = []
      ∧ dict_keys (jobs st') = ["reminder_c1_v1"].
Proof.
  split.
  - intros saved api. by apply load_state_tracks_nothing.
  - do 2 eexists. split_and!; by vm_compute.
Qed.

(** Where the channel's entry exists before the restore (as after
    [init_subscribe]), the same dump is restored: the broadcast is pending
    again under its channel, its reminder is armed and the dedup set is
    back. *)
Lemma restore_after_subscribe :
  ∃ saved st',
    dump_state demo_published_and_pending = (Ok saved, demo_published_and_pending)
    ∧ load_state saved (λ _, broadcast_reply 1000 None) demo_tracking = (Ok tt, st')
    ∧ ids_of (heap st') (pending st' "c1") = ["v1"]
    ∧ published st' = ["p1"]
    ∧ dict_keys (jobs st') = ["reminder_c1_v1"].
Proof. do 2 eexists. split_and!; by vm_compute. Qed.

(** A restored snapshot that the resolver does not refresh keeps the naive
    time of [fromtimestamp]; the next tick raises [TypeError] when it
    subtracts that time from its aware clock reading. *)
Lemma restored_naive_time_stops_tick :
  ∃ saved st',
    dump_state demo_published_and_pending = (Ok saved, demo_published_and_pending)
    ∧ load_state saved (λ _, RespEmpty) demo_tracking = (Ok tt, st')
    ∧ (scheduled_start_time ∘ video_at (heap st')) <$> pending st' "c1"
      = [Some {| ts := 1000; aware := false |}]
    ∧ (tick demo_env demo_obs_gone st').1 = Raise TypeError.
Proof. do 2 eexists. split_and!; by vm_compute. Qed.

(** ** The periodic tick *)

Lemma sent_fresh_since_frame obs st0 st st' :
  sent st' = sent st → sent_fresh_since obs st0 st → sent_fresh_since obs st0 st'.
Proof. intros Hs (new & H1 & H2). exists new. by rewrite Hs. Qed.

Lemma tick_video_fresh env obs st0 c rl l :
  preserves (sent_fresh_since obs st0) (tick_video env obs c rl l).
Proof.
  intros st H. unfold tick_video. rewrite bind_unfold. unfold deref at 1. cbn beta iota.
  destruct (scheduled_start_time (video_at (heap st) l)) as [scheduled|]; [|done].
  rewrite bind_unfold. unfold seconds_between at 1.
  destruct (bool_decide (aware _ = aware scheduled)); [|done]. cbn beta iota.
  unfold mret at 1, M_ret at 1, ret at 1. cbn beta iota.
  destruct (bool_decide (_ > -600)); [|done].
  rewrite bind_unfold, query_video_eq.
  destruct (query_video_on _ _) as [[ok v]|e]; [|done].
  set (st1 := set_heap _ st).
  assert (sent_fresh_since obs st0 st1) as H1 by (by apply (sent_fresh_since_frame obs st0 st)).
  rewrite bind_unfold. unfold deref at 1. cbn beta iota.
  destruct (actual_start_time (video_at (heap st1) l)) as [actual|] eqn:Ha; [|done].
  rewrite bind_unfold. unfold seconds_between at 1.
  destruct (bool_decide (aware _ = aware actual)); [|done].
  unfold mret at 1, M_ret at 1, ret at 1. cbn beta iota.
  destruct (bool_decide (_ < 10800)) eqn:Hfresh; [|by rewrite bind_unfold].
  apply bool_decide_eq_true in Hfresh. simpl in Hfresh.
  rewrite !bind_unfold, new_YoutubeEvent_eq.
  destruct (_ && _); [done|]. rewrite send_youtube_event_eq. cbv zeta.
  destruct (build_event _ _ _) as [event|e]; [|done]. simpl.
  destruct H as (new & Hnew & Hall). eexists. split.
  - rewrite Hnew, <- app_assoc. done.
  - apply Forall_app. split; [done|]. constructor; [|done].
    split_and!; [done..|]. exists l, actual. by split.
Qed.

Lemma channel_remove_fresh obs st0 c l :
  preserves (sent_fresh_since obs st0) (channel_remove c l).
Proof.
  intros st H. unfold channel_remove.
  destruct (dict_get _ _); [|done]. destruct (remove_first _ _ _); [|done].
  by apply (sent_fresh_since_frame obs st0 st).
Qed.

(** Whether [tick] returns or raises, all it has sent are [LIVE] events for
    videos that went live less than 10800 seconds before the clock reading. *)
Lemma tick_sends_fresh_live env obs st : sent_fresh_since obs st (tick env obs st).2.
Proof.
  apply preserves_snd.
  - pose proof (tick_video_fresh env obs st) as Hv.
    pose proof (channel_remove_fresh obs st) as Hr.
    unfold tick, tick_scan. pres.
  - exists []. by rewrite app_nil_r.
Qed.

(** C5 (the code does otherwise).  Two broadcasts are pending.  The first
    tick finds "v1" live and sends [LIVE], then the reply for "v2" has no
    "items" and [KeyError] leaves [tick] before the removals: "v1" is still
    pending.  The next tick sends [LIVE] for "v1" again. *)
Theorem live_sent_twice_after_aborted_tick :
  let first := tick demo_env demo_obs demo_two_pending in
  let second := tick demo_env demo_obs first.2 in
  first.1 = Raise KeyError
  ∧ pending first.2 "c1" = [0%nat; 1%nat]
  ∧ length (live_sent "c1" "v1" (sent first.2)) = 1%nat
  ∧ length (live_sent "c1" "v1" (sent second.2)) = 2%nat.
Proof. by vm_compute. Qed.

(** ** Reminder jobs *)

Lemma job_outlives_snapshot_run :
  let st := run [OpSubscribe "c1";
                 OpPost demo_env (demo_note "v1" "c1") (broadcast_reply 1000 None);
                 OpTick demo_env demo_obs_gone] initial_state in
  has_job st (job_id "c1" "v1") ∧ pending st "c1" = [].
Proof. split; [|by vm_compute]. vm_compute. by eexists. Qed.

(** The other direction fails by the scheduler's own working: a reminder
    that has fired is gone from the store while its video stays pending until
    a tick sees it live. *)
Lemma fired_reminder_leaves_snapshot :
  let st := run [OpSubscribe "c1";
                 OpPost demo_env (demo_note "v1" "c1") (broadcast_reply 1000 None);
                 OpFire demo_env (job_id "c1" "v1")] initial_state in
  ¬ has_job st (job_id "c1" "v1") ∧ pending_unresolved st "c1" "v1".
Proof.
  split.
  - vm_compute. by intros [j Hj].
  - exists 0%nat. vm_compute. split_and!; try done; [by left | by eexists].
Qed.


Lemma post_untracked_raises_witness :
  post demo_env (demo_note "v1" "c1") (broadcast_reply 1000 None) initial_state
  = (Raise KeyError, initial_state).
Proof.
  apply (post_untracked_raises demo_env (demo_note "v1" "c1") (demo_entry "v1" "c1") []);
    [reflexivity..|].
  unfold tracked. simpl. intros [videos Hv]. discriminate Hv.
Defined.

Lemma post_duplicate_suppressed_witness :
  post demo_env (demo_note "v1" "c1") (broadcast_reply 1000 None) demo_pending
  = (Ok empty_response, demo_pending).
Proof.
  eapply (post_duplicate_suppressed demo_env (demo_note "v1" "c1") (demo_entry "v1" "c1") []
            (broadcast_reply 1000 None) demo_pending [0%nat] 0%nat); reflexivity.
Defined.

(** *** Ingestion on the schedule path *)

Lemma video_at_alloc h v : video_at (h ++ [v]) (length h) = v.
Proof. unfold video_at. by rewrite lookup_app_r, Nat.sub_diag. Qed.

Lemma video_at_app h v l : (l < length h)%nat → video_at (h ++ [v]) l = video_at h l.
Proof. intros Hl. unfold video_at. by rewrite lookup_app_l. Qed.

Lemma dict_set_set {V} k (v v' : V) d : dict_set k v (dict_set k v' d) = dict_set k v d.
Proof.
  induction d as [|[k0 v0] d IH]; simpl.
  - by rewrite decide_True.
  - destruct (decide (k0 = k)); simpl.
    + by rewrite decide_True.
    + rewrite decide_False by done. by rewrite IH.
Qed.

Lemma remove_first_elem h o videos :
  o ∈ videos → is_Some (remove_first h (video_at h o) videos).
Proof.
  induction videos as [|l videos IH]; [by intros ?%elem_of_nil|].
  simpl. destruct (decide (video_at h l = video_at h o)); [by eexists|].
  intros [->|Ho]%elem_of_cons; [done|]. destruct (IH Ho) as [vs ->]. by eexists.
Qed.

Lemma find_video_elem h id videos o : find_video h id videos = Some o → o ∈ videos.
Proof.
  induction videos as [|l videos IH]; simpl; [done|].
  destruct (decide _); [intros [= ->]; by left|]. intros H. right. by apply IH.
Qed.

Lemma find_video_id h id videos o :
  find_video h id videos = Some o → video_id (video_at h o) = id.
Proof.
  induction videos as [|l videos IH]; simpl; [done|].
  destruct (decide _) as [->|]; [by intros [= ->]|]. apply IH.
Qed.

Lemma rearm_bind {B} id job (k : unit → M B) st :
  (get_job id ≫= λ j,
     (if j is Some _ then remove_job id else mret tt) ≫= λ _, add_job id job ≫= k) st
  = k tt (set_jobs (rearm id job (jobs st)) st).
Proof.
  rewrite bind_unfold. unfold get_job at 1. cbn beta iota. rewrite bind_unfold.
  unfold rearm.
  destruct (dict_get id (jobs st)) as [j|] eqn:Hg.
  - unfold remove_job at 1. rewrite Hg. rewrite bind_unfold. unfold add_job. simpl.
    rewrite dict_get_pop_eq. by destruct st.
  - mprim. rewrite bind_unfold. unfold add_job. rewrite Hg. by rewrite dict_pop_absent.
Qed.

Lemma post_dispatch_schedule env c old video scheduled st videos videos' :
  type video = Some BROADCAST → actual_start_time video = None →
  scheduled_start_time video = Some scheduled →
  dict_get c (channel_list st) = Some videos →
  match old with
  | Some o => remove_first (heap st) (video_at (heap st) o) videos = Some videos'
  | None => videos' = videos
  end →
  post_dispatch env c old video st =
    match send_youtube_event env
            {| ev_type := Some BROADCAST; ev_event := SCHEDULE; ev_channel := c;
               ev_video := length (heap st) |}
            (scheduled_state c videos' video scheduled st) with
    | (Ok _, st') => (Ok empty_response, st')
    | (Raise e, st') => (Raise e, st')
    end.
Proof.
  intros Ht Ha Hs Hg Hold. unfold post_dispatch. rewrite Ht, Ha, Hs.
  rewrite bool_decide_eq_false_2 by done. rewrite !bool_decide_eq_true_2 by done.
  cbn [andb]. rewrite bind_unfold.
  assert (∃ st1, (match old with Some o => channel_remove c o | None => mret tt end) st
                 = (Ok tt, st1)
                 ∧ heap st1 = heap st ∧ jobs st1 = jobs st
                 ∧ read_list st1 = read_list st ∧ hub st1 = hub st ∧ sent st1 = sent st
                 ∧ dict_set c (videos' ++ [length (heap st)]) (channel_list st1)
                   = dict_set c (videos' ++ [length (heap st)]) (channel_list st)
                 ∧ dict_get c (channel_list st1) = Some videos') as (st1 & -> & Hh & Hj & Hr & Hhub & Hsent & Hset & Hget).
  { destruct old as [o|].
    - unfold channel_remove. rewrite Hg, Hold. eexists. split; [done|]. simpl.
      split_and!; try done. + apply dict_set_set. + apply dict_get_set_eq.
    - subst videos'. exists st. by split_and!. }
  rewrite bind_unfold. unfold alloc at 1. cbn beta iota.
  rewrite bind_unfold. unfold channel_append at 1. simpl. rewrite Hget.
  rewrite bind_unfold, new_YoutubeEvent_eq. simpl. rewrite Hh, video_at_alloc, Hs. simpl.
  rewrite bind_unfold, new_YoutubeEvent_eq. simpl. rewrite video_at_alloc, Hs. simpl.
  rewrite rearm_bind. rewrite bind_unfold. simpl.
  unfold scheduled_state, reminder_job, set_jobs, set_channel_list, set_heap.
  cbn [heap channel_list read_list jobs hub sent]. by rewrite Hset, Hj, Hr, Hhub, Hsent.
Qed.

Lemma remove_first_sublist h x ls ls' :
  remove_first h x ls = Some ls' → ∀ l, l ∈ ls' → l ∈ ls.
Proof.
  revert ls'. induction ls as [|l0 ls IH]; intros ls'; simpl; [done|].
  destruct (decide (video_at h l0 = x)).
  - intros [= <-] l Hl. by right.
  - destruct (remove_first h x ls) as [ls0|]; [|done]. simpl.
    intros [= <-] l [->|Hl]%elem_of_cons; [by left|]. right. by apply (IH _ eq_refl).
Qed.

(** *** Reminder jobs, operation by operation *)

Lemma dict_get_pop_None {V} k k' (d : list (string * V)) :
  dict_get k d = None → dict_get k (dict_pop k' d) = None.
Proof.
  intros H. destruct (decide (k' = k)) as [->|Hne]; [apply dict_get_pop_eq|].
  by rewrite dict_get_pop_ne.
Qed.

Lemma cancel_jobs_None ids id js :
  dict_get id js = None → dict_get id (cancel_jobs ids js) = None.
Proof.
  revert js. unfold cancel_jobs. induction ids as [|i ids IH]; intros js H; simpl; [done|].
  by apply IH, dict_get_pop_None.
Qed.

Lemma cancel_jobs_elem ids id js : id ∈ ids → dict_get id (cancel_jobs ids js) = None.
Proof.
  revert js. induction ids as [|i ids IH]; intros js; [by intros ?%elem_of_nil|].
  intros [->|Hin]%elem_of_cons.
  - apply (cancel_jobs_None ids), dict_get_pop_eq.
  - by apply (IH (dict_pop i js)).
Qed.

Lemma job_count_pop id js : job_count id (dict_pop id js) = 0%nat.
Proof.
  unfold job_count, dict_keys. induction js as [|[k j] js IH]; simpl; [done|].
  destruct (decide (k = id)); [done|].
  rewrite fmap_cons. by rewrite filter_cons_False.
Qed.

Lemma job_count_rearm id job js : job_count id (rearm id job js) = 1%nat.
Proof.
  pose proof (job_count_pop id js) as H. unfold job_count, rearm, dict_keys in *.
  rewrite fmap_app, filter_app, length_app, H. simpl.
  by rewrite filter_cons_True.
Qed.

Lemma dict_get_rearm id job js : dict_get id (rearm id job js) = Some job.
Proof. unfold rearm. apply dict_get_app_None, dict_get_pop_eq. Qed.

Lemma tick_jobs env obs st : jobs (tick env obs st).2 = jobs st.
Proof.
  apply (preserves_snd (λ st', jobs st' = jobs st)); [|done].
  assert (∀ A (m : M A), (∀ st0, jobs (m st0).2 = jobs st0) →
                         preserves (λ st', jobs st' = jobs st) m) as Hframe.
  { intros A m Hm. by apply (preserves_frame jobs (λ js, js = jobs st)). }
  assert (∀ l v, preserves (λ st', jobs st' = jobs st) (store l v)) as Hstore.
  { intros. by apply Hframe. }
  assert (∀ env ev, preserves (λ st', jobs st' = jobs st) (send_youtube_event env ev)) as Hsend.
  { intros. apply Hframe. intros st0. rewrite send_youtube_event_eq. cbv zeta.
    by destruct (build_event _ _ _). }
  assert (∀ c l, preserves (λ st', jobs st' = jobs st) (channel_remove c l)) as Hrem.
  { intros. apply Hframe. intros st0. unfold channel_remove.
    destruct (dict_get _ _); [|done]. by destruct (remove_first _ _ _). }
  unfold tick, tick_scan, tick_video, seconds_between, query_video. pres.
Qed.

Lemma unsubscribe_cancels c pop st l :
  l ∈ pending st c →
  ¬ has_job (unsubscribe c pop st).2 (job_id c (video_id (video_at (heap st) l))).
Proof.
  unfold pending, has_job. destruct (dict_get c (channel_list st)) as [videos|] eqn:Hg;
    [|by intros ?%elem_of_nil].
  simpl. intros Hl. rewrite (unsubscribe_tracked _ _ _ _ Hg). simpl.
  rewrite cancel_jobs_elem; [by intros [? ?]|].
  unfold job_ids. apply list_elem_of_fmap. by exists l.
Qed.

Lemma post_schedule_path env n entry rest snippet scheduled st :
  deleted_entry n = false → entries n = entry :: rest →
  tracked st (yt_channelid entry) →
  (∀ old, find_video (heap st) (yt_videoid entry) (pending st (yt_channelid entry)) = Some old →
          ¬ (title (video_at (heap st) old) = entry_title entry
             ∧ scheduled_start_time (video_at (heap st) old) = Some (local_time scheduled))) →
  let reply := RespItem snippet (Some {| scheduledStartTime := Some scheduled;
                                         actualStartTime := None |}) in
  let video := apply_item (new_Video (yt_videoid entry) (entry_title entry) (entry_link entry))
                          snippet (Some {| scheduledStartTime := Some scheduled;
                                           actualStartTime := None |}) in
  ∃ videos' st1,
    st1 = scheduled_state (yt_channelid entry) videos' video (local_time scheduled) st
    ∧ (∀ l, l ∈ videos' → l ∈ pending st (yt_channelid entry))
    ∧ (post env n reply st).2 = (send_youtube_event env
            {| ev_type := Some BROADCAST; ev_event := SCHEDULE;
               ev_channel := yt_channelid entry; ev_video := length (heap st) |} st1).2.
Proof.
  intros Hd He [videos Hg] Hnd reply video.
  rewrite (post_tracked _ _ _ _ _ _ _ Hd He Hg). subst reply. cbn [query_video_on].
  fold video. cbv zeta. unfold pending in Hnd. rewrite Hg in Hnd. simpl in Hnd.
  assert (title video = entry_title entry) as Htitle by (subst video; by rewrite apply_item_title).
  assert (scheduled_start_time video = Some (local_time scheduled)) as Hsched
    by (subst video; by rewrite apply_item_scheduled).
  assert (actual_start_time video = None) as Hact
    by (subst video; by rewrite apply_item_actual).
  assert (type video = Some BROADCAST) as Htype by (subst video; by rewrite apply_item_type).
  destruct (find_video (heap st) (yt_videoid entry) videos) as [old|] eqn:Hfind.
  - rewrite Htitle, Hsched.
    assert (bool_decide (title (video_at (heap st) old) = entry_title entry)
            && bool_decide (scheduled_start_time (video_at (heap st) old)
                            = Some (local_time scheduled)) = false) as ->.
    { apply andb_false_iff. specialize (Hnd old eq_refl).
      destruct (decide (title (video_at (heap st) old) = entry_title entry)).
      - right. apply bool_decide_eq_false_2. naive_solver.
      - left. by apply bool_decide_eq_false_2. }
    destruct (remove_first_elem (heap st) old videos) as [videos' Hrem];
      [by eapply find_video_elem|].
    exists videos', (scheduled_state (yt_channelid entry) videos' video (local_time scheduled) st).
    split; [done|]. split.
    + intros l Hl. unfold pending. rewrite Hg. simpl. by eapply remove_first_sublist.
    + rewrite (post_dispatch_schedule env _ (Some old) _ _ _ videos videos' Htype Hact Hsched Hg Hrem).
      by destruct (send_youtube_event _ _ _) as [[[]|e] st'].
  - exists videos, (scheduled_state (yt_channelid entry) videos video (local_time scheduled) st).
    split; [done|]. split.
    + intros l Hl. unfold pending. by rewrite Hg.
    + rewrite (post_dispatch_schedule env _ None _ _ _ videos videos Htype Hact Hsched Hg eq_refl).
      by destruct (send_youtube_event _ _ _) as [[[]|e] st'].
Qed.


(** ** [PUBLISH] at most once *)

Section dict_forall.
Context {V : Type} (P : V → Prop).
Implicit Types (d : list (string * V)).

Lemma Forall_dict_set k v d :
  P v → Forall (λ kv, P kv.2) d → Forall (λ kv, P kv.2) (dict_set k v d).
Proof.
  intros Hv. induction 1 as [|[k' v'] d Hx Hd IH]; simpl.
  - by repeat constructor.
  - destruct (decide (k' = k)); constructor; done.
Qed.

Lemma Forall_dict_pop k d :
  Forall (λ kv, P kv.2) d → Forall (λ kv, P kv.2) (dict_pop k d).
Proof.
  induction 1 as [|[k' v'] d Hx Hd IH]; simpl; [done|].
  destruct (decide (k' = k)); [done|]. by constructor.
Qed.

Lemma Forall_dict_get k d v :
  Forall (λ kv, P kv.2) d → dict_get k d = Some v → P v.
Proof.
  induction 1 as [|[k' v'] d Hx Hd IH]; simpl; [done|].
  destruct (decide (k' = k)); [|done]. by intros [= <-].
Qed.
End dict_forall.

(** *** [PUBLISH] and the dedup set *)

Lemma find_video_None h id ls : find_video h id ls = None ↔ id ∉ ids_of h ls.
Proof.
  unfold ids_of. induction ls as [|l ls IH]; simpl.
  - split; [intros _; apply not_elem_of_nil | done].
  - rewrite not_elem_of_cons. destruct (decide _) as [->|Hne].
    + split; [done | by intros [? _]].
    + rewrite IH. naive_solver.
Qed.

Lemma ids_of_alloc h v ls :
  Forall (λ l, l < length h)%nat ls → ids_of (h ++ [v]) ls = ids_of h ls.
Proof.
  unfold ids_of. induction 1 as [|l ls Hl Hls IH]; [done|].
  rewrite !fmap_cons, IH. by rewrite video_at_app.
Qed.

Lemma video_at_insert_id h l v l' :
  video_id v = video_id (video_at h l) →
  video_id (video_at (<[l := v]> h) l') = video_id (video_at h l').
Proof.
  intros Hv. unfold video_at in *. destruct (decide (l = l')) as [->|Hne].
  - destruct (decide (l' < length h)%nat).
    + by rewrite list_lookup_insert_eq.
    + by rewrite list_insert_ge by lia.
  - by rewrite list_lookup_insert_ne.
Qed.

Lemma ids_of_insert h l v ls :
  video_id v = video_id (video_at h l) → ids_of (<[l := v]> h) ls = ids_of h ls.
Proof.
  intros Hv. unfold ids_of. apply list_fmap_ext. intros i l' _. by apply video_at_insert_id.
Qed.

Lemma query_video_on_id v r ok v' : query_video_on v r = Ok (ok, v') → video_id v' = video_id v.
Proof.
  destruct r; simpl; intros H; try discriminate; injection H as <- <-; try done.
  apply apply_item_id.
Qed.

Lemma publish_sent_snoc id ss s :
  publish_sent id (ss ++ [s]) =
    publish_sent id ss
    ++ (if decide (s_event s = PUBLISH ∧ video_id (s_video s) = id) then [s] else []).
Proof.
  unfold publish_sent. by rewrite filter_app.
Qed.

Lemma publish_sent_snoc_other id ss s :
  s_event s ≠ PUBLISH → publish_sent id (ss ++ [s]) = publish_sent id ss.
Proof.
  intros Hs. rewrite publish_sent_snoc. rewrite decide_False; [by rewrite app_nil_r|].
  by intros [? _].
Qed.

Lemma post_dispatch_video env c old video st :
  type video = Some VIDEO →
  post_dispatch env c old video st =
    match find_video (heap st) (video_id video) (read_list st) with
    | Some _ => (Ok empty_response, st)
    | None =>
        let l := length (heap st) in
        let st1 := set_heap (heap st ++ [video]) st in
        let ev := {| ev_type := Some VIDEO; ev_event := PUBLISH; ev_channel := c;
                     ev_video := l |} in
        match build_event env ev video with
        | Ok event =>
            (Ok empty_response,
             set_read_list (read_list st ++ [l])
               (set_sent (sent st ++ [sent_record ev video event]) st1))
        | Raise e => (Raise e, st1)
        end
    end.
Proof.
  intros Ht. unfold post_dispatch. rewrite Ht. rewrite bool_decide_eq_true_2 by done.
  rewrite bind_unfold. unfold get_state at 1. cbn beta iota.
  destruct (find_video _ _ _); [done|].
  rewrite bind_unfold. unfold alloc at 1. cbn beta iota.
  rewrite bind_unfold, new_YoutubeEvent_eq. simpl.
  rewrite bind_unfold, send_youtube_event_eq. cbn [heap set_heap ev_video].
  rewrite video_at_alloc. cbv zeta.
  destruct (build_event _ _ _); [|done]. by repeat mstep.
Qed.

Lemma publish_inv_frame st st' :
  (length (heap st) ≤ length (heap st'))%nat →
  ids_of (heap st') (read_list st) = ids_of (heap st) (read_list st) →
  read_list st' = read_list st → sent st' = sent st →
  Forall (λ ij, ev_event (job_event ij.2) = REMINDER) (jobs st') →
  publish_inv st → publish_inv st'.
Proof.
  intros Hlen Hids Hr Hs Hj (H1 & H2 & H3). split_and!; [|done|].
  - rewrite Hr. eapply Forall_impl; [exact H1|]. intros l. unfold valid_ref. lia.
  - unfold publish_ok, published in *. by rewrite Hs, Hr, Hids.
Qed.

Section publish_inv.
Lemma pi_alloc v : preserves publish_inv (alloc v).
Proof.
  intros st H. unfold alloc. simpl. eapply publish_inv_frame; [| | | | |exact H]; simpl;
    try done; try apply H.
  - rewrite length_app. lia.
  - apply ids_of_alloc, H.
Qed.

Lemma pi_query_video l r : preserves publish_inv (query_video l r).
Proof.
  intros st H. rewrite query_video_eq.
  destruct (query_video_on _ r) as [[ok v]|e] eqn:Hq; [|done].
  eapply publish_inv_frame; [| | | | |exact H]; simpl; try done; try apply H.
  - by rewrite length_insert.
  - apply ids_of_insert. by eapply query_video_on_id.
Qed.

Lemma pi_frame {A} (m : M A) :
  (∀ st, heap (m st).2 = heap st ∧ read_list (m st).2 = read_list st
         ∧ sent (m st).2 = sent st ∧ jobs (m st).2 = jobs st) →
  preserves publish_inv m.
Proof.
  intros Hm st H. destruct (Hm st) as (Hh & Hr & Hs & Hj).
  assert (publish_inv (m st).2) as H'.
  { eapply publish_inv_frame; [| | | | |exact H]; try done.
    - by rewrite Hh. - by rewrite Hh. - rewrite Hj. apply H. }
  by destruct (m st) as [[a|e] st'].
Qed.

Lemma pi_channel_append c l : preserves publish_inv (channel_append c l).
Proof. apply pi_frame. intros st. unfold channel_append. by destruct (dict_get _ _). Qed.

Lemma pi_channel_remove c l : preserves publish_inv (channel_remove c l).
Proof.
  apply pi_frame. intros st. unfold channel_remove.
  destruct (dict_get _ _); [|done]. by destruct (remove_first _ _ _).
Qed.

Lemma pi_hub c r : preserves publish_inv (_subscribe c r).
Proof. by apply pi_frame. Qed.

Lemma pi_channels f :
  preserves publish_inv (modify (λ st, set_channel_list (f (channel_list st)) st)).
Proof. by apply pi_frame. Qed.

Lemma pi_remove_job id : preserves publish_inv (remove_job id).
Proof.
  intros st H. unfold remove_job. destruct (dict_get id (jobs st)); [|done].
  eapply publish_inv_frame; [| | | | |exact H]; simpl; try done.
  apply (Forall_dict_pop (λ j, ev_event (job_event j) = REMINDER)), H.
Qed.

Lemma pi_add_job id j :
  ev_event (job_event j) = REMINDER → preserves publish_inv (add_job id j).
Proof.
  intros Hj st H. unfold add_job. destruct (dict_get id (jobs st)); [done|].
  eapply publish_inv_frame; [| | | | |exact H]; simpl; try done.
  apply Forall_app. split; [apply H|]. by constructor.
Qed.

Lemma pi_send env ev :
  ev_event ev ≠ PUBLISH → preserves publish_inv (send_youtube_event env ev).
Proof.
  intros Hev st (H1 & H2 & H3). rewrite send_youtube_event_eq. cbv zeta.
  destruct (build_event _ _ _) as [event|e]; [|done].
  split_and!; [done..|]. intros id. unfold published. simpl.
  rewrite publish_sent_snoc_other by done. apply H3.
Qed.
End publish_inv.

#[local] Hint Resolve pi_alloc pi_query_video pi_channel_append pi_channel_remove pi_hub
  pi_remove_job pi_add_job pi_send : pres.
#[local] Hint Extern 1 (ev_event _ = _) => reflexivity : pres.
#[local] Hint Extern 1 (ev_event _ ≠ _) => discriminate : pres.

Lemma published_snoc st v :
  Forall (valid_ref st) (read_list st) →
  ids_of (heap st ++ [v]) (read_list st ++ [length (heap st)])
  = published st ++ [video_id v].
Proof.
  intros Hv. unfold published, ids_of. rewrite fmap_app. simpl.
  rewrite video_at_alloc. f_equal. by apply ids_of_alloc.
Qed.

Lemma pi_post_dispatch env c old video : preserves publish_inv (post_dispatch env c old video).
Proof.
  destruct (decide (type video = Some VIDEO)) as [Ht|Ht].
  - intros st H. rewrite post_dispatch_video by done.
    destruct (find_video _ _ _) as [l|] eqn:Hfind; [done|]. cbv zeta.
    destruct (build_event _ _ _) as [event|e].
    + destruct H as (H1 & H2 & H3).
      apply find_video_None in Hfind. fold (published st) in Hfind.
      split_and!; simpl.
      * apply Forall_app. split.
        -- eapply Forall_impl; [exact H1|]. intros l. unfold valid_ref. simpl.
           rewrite length_app. lia.
        -- constructor; [|done]. unfold valid_ref. simpl. rewrite length_app. simpl. lia.
      * done.
      * intros id. unfold published. simpl.
        rewrite (published_snoc st) by done.
        rewrite publish_sent_snoc. simpl.
        destruct (H3 id) as [Hle Hin]. destruct (decide _) as [[_ Hid]|Hid].
        -- subst id. destruct (publish_sent (video_id video) (sent st)) eqn:Hp.
           ++ simpl. split; [lia|]. intros _. apply elem_of_app. right. by left.
           ++ exfalso. apply Hfind, Hin. done.
        -- rewrite app_nil_r. split; [done|]. intros Hne. apply elem_of_app. left. by apply Hin.
    + by apply (pi_alloc video st H).
  - unfold post_dispatch. rewrite bool_decide_eq_false_2 by done. pres.
Qed.

Lemma pi_post env n reply : preserves publish_inv (post env n reply).
Proof. unfold post. pres. apply pi_post_dispatch. Qed.

Lemma pi_tick env obs : preserves publish_inv (tick env obs).
Proof. unfold tick, tick_scan, tick_video, seconds_between. pres. Qed.

Lemma pi_subscribe c : preserves publish_inv (subscribe c).
Proof. unfold subscribe. pres. apply (pi_channels (dict_set c [])). Qed.

Lemma pi_unsubscribe c pop : preserves publish_inv (unsubscribe c pop).
Proof. unfold unsubscribe. pres. apply (pi_channels (dict_pop c)). Qed.

Lemma pi_renewal : preserves publish_inv renewal.
Proof. unfold renewal. pres. Qed.

Lemma pi_get mode challenge c : preserves publish_inv (get mode challenge c).
Proof. unfold get. pres. Qed.

Lemma pi_dump_state : preserves publish_inv dump_state.
Proof. unfold dump_state. pres. Qed.

Lemma pi_fire_job env id : preserves publish_inv (fire_job env id).
Proof.
  intros st H. unfold fire_job. destruct (dict_get id (jobs st)) as [j|] eqn:Hg; [|done].
  simpl. apply preserves_snd.
  - apply pi_send.
    destruct H as (_ & H2 & _).
    rewrite (Forall_dict_get (λ j, ev_event (job_event j) = REMINDER) _ _ _ H2 Hg). done.
  - pose proof (pi_remove_job id st H) as Hr. unfold remove_job in Hr. by rewrite Hg in Hr.
Qed.

Lemma publish_inv_step op st : is_load op = false → publish_inv st → publish_inv (step op st).
Proof.
  intros Hop H. destruct op; simpl; try done; apply preserves_snd; try done.
  - apply pi_subscribe.
  - apply pi_unsubscribe.
  - apply pi_renewal.
  - apply pi_get.
  - apply pi_post.
  - apply pi_tick.
  - apply pi_fire_job.
  - apply pi_dump_state.
Qed.

Lemma publish_inv_initial : publish_inv initial_state.
Proof.
  split_and!; try by constructor. intros id. split; [simpl; lia|]. done.
Qed.

Lemma publish_inv_run ops st :
  Forall (λ op, is_load op = false) ops → publish_inv st → publish_inv (run ops st).
Proof.
  intros Hops. revert st. induction Hops as [|op ops Hop Hops IH]; intros st H; [done|].
  simpl. by apply IH, publish_inv_step.
Qed.

(** ** Videos that are pending, armed or announced have a scheduled start *)

Lemma scheduled_ref_valid st l : scheduled_ref st l → valid_ref st l.
Proof.
  unfold scheduled_ref, valid_ref, video_at. intros [s Hs].
  destruct (heap st !! l) as [v|] eqn:Hl; [by eapply lookup_lt_Some|done].
Qed.

(** What an update of the store must respect. *)
Lemma scheduled_inv_mono ls st st' :
  (∀ l, scheduled_ref st l → scheduled_ref st' l) →
  channel_list st' = channel_list st → jobs st' = jobs st → sent st' = sent st →
  scheduled_inv ls st → scheduled_inv ls st'.
Proof.
  intros Hm Hc Hj Hs (H1 & H2 & H3 & H4). split_and!.
  - unfold pending_scheduled. rewrite Hc. eapply Forall_impl; [exact H1|].
    intros [c vs] Hv. simpl in *. eapply Forall_impl; [exact Hv|]. exact Hm.
  - unfold jobs_scheduled. rewrite Hj. eapply Forall_impl; [exact H2|].
    intros [id j]. apply Hm.
  - unfold sent_scheduled. by rewrite Hs.
  - eapply Forall_impl; [exact H4|]. exact Hm.
Qed.

Lemma sci_frame {A} ls (m : M A) :
  (∀ st, heap (m st).2 = heap st ∧ channel_list (m st).2 = channel_list st
         ∧ jobs (m st).2 = jobs st ∧ sent (m st).2 = sent st) →
  preserves (scheduled_inv ls) m.
Proof.
  intros Hm st H. destruct (Hm st) as (Hh & Hc & Hj & Hs).
  assert (scheduled_inv ls (m st).2) as H'.
  { apply (scheduled_inv_mono ls st); [|done..].
    intros l. unfold scheduled_ref. by rewrite Hh. }
  by destruct (m st) as [[a|e] st'].
Qed.

Lemma scheduled_ref_alloc st v l :
  scheduled_ref st l → scheduled_ref (set_heap (heap st ++ [v]) st) l.
Proof.
  intros H. unfold scheduled_ref in *. simpl.
  rewrite video_at_app; [done|]. by apply scheduled_ref_valid.
Qed.

Lemma sci_alloc ls v : preserves (scheduled_inv ls) (alloc v).
Proof.
  intros st H. unfold alloc. simpl.
  apply (scheduled_inv_mono ls st); [|done..]. intros l. apply scheduled_ref_alloc.
Qed.

(** Allocating a video with a scheduled start adds its reference to the
    known ones. *)
Lemma sci_alloc_bind {B} ls v (k : loc → M B) :
  is_Some (scheduled_start_time v) →
  (∀ l, hoare (scheduled_inv (l :: ls)) (k l)
              (λ _, scheduled_inv ls) (scheduled_inv ls)) →
  preserves (scheduled_inv ls) (alloc v ≫= k).
Proof.
  intros Hv Hk st H. rewrite bind_unfold. unfold alloc at 1. cbn beta iota.
  apply Hk. destruct (sci_alloc ls v st H) as (H1 & H2 & H3 & H4). split_and!; [done..|].
  constructor; [|done]. unfold scheduled_ref. simpl. by rewrite video_at_alloc.
Qed.

Lemma sci_weaken {A} l ls (m : M A) :
  preserves (scheduled_inv (l :: ls)) m →
  hoare (scheduled_inv (l :: ls)) m (λ _, scheduled_inv ls) (scheduled_inv ls).
Proof.
  intros Hm. eapply hoare_conseq; [exact Hm|done|..].
  - intros _ st (H1 & H2 & H3 & H4). split_and!; [done..|]. by apply Forall_cons in H4 as [_ ?].
  - intros st (H1 & H2 & H3 & H4). split_and!; [done..|]. by apply Forall_cons in H4 as [_ ?].
Qed.

Lemma query_video_on_scheduled v r ok v' :
  query_video_on v r = Ok (ok, v') →
  is_Some (scheduled_start_time v) → is_Some (scheduled_start_time v').
Proof.
  destruct r; simpl; intros H; try discriminate; injection H as <- <-; try done.
  rewrite apply_item_scheduled. by destruct (streaming ≫= scheduledStartTime).
Qed.

Lemma sci_query_video ls l r : preserves (scheduled_inv ls) (query_video l r).
Proof.
  intros st H. rewrite query_video_eq.
  destruct (query_video_on _ r) as [[ok v]|e] eqn:Hq; [|done].
  apply (scheduled_inv_mono ls st); [|done..].
  intros l' Hl'. unfold scheduled_ref in *. simpl. unfold video_at at 1.
  destruct (decide (l = l')) as [->|Hne].
  - rewrite list_lookup_insert_eq by (by apply scheduled_ref_valid). simpl.
    by eapply query_video_on_scheduled.
  - by rewrite list_lookup_insert_ne.
Qed.

Lemma sci_channel_append ls c l : l ∈ ls → preserves (scheduled_inv ls) (channel_append c l).
Proof.
  intros Hl st (H1 & H2 & H3 & H4). unfold channel_append.
  destruct (dict_get c (channel_list st)) as [videos|] eqn:Hg; [|done].
  split_and!; [|done..]. unfold pending_scheduled. simpl.
  apply (Forall_dict_set (Forall (scheduled_ref st))); [|done].
  apply Forall_app. split.
  - by apply (Forall_dict_get (Forall (scheduled_ref st)) _ _ _ H1 Hg).
  - constructor; [|done]. rewrite Forall_forall in H4. by apply H4.
Qed.

Lemma sci_channel_remove ls c l : preserves (scheduled_inv ls) (channel_remove c l).
Proof.
  intros st (H1 & H2 & H3 & H4). unfold channel_remove.
  destruct (dict_get c (channel_list st)) as [videos|] eqn:Hg; [|done].
  destruct (remove_first _ _ videos) as [videos'|] eqn:Hr; [|done].
  split_and!; [|done..]. unfold pending_scheduled. simpl.
  apply (Forall_dict_set (Forall (scheduled_ref st))); [|done].
  pose proof (Forall_dict_get (Forall (scheduled_ref st)) _ _ _ H1 Hg) as Hv.
  rewrite Forall_forall in *. intros l' Hl'. apply Hv. by eapply remove_first_sublist.
Qed.

Lemma sci_add_job ls id j :
  ev_video (job_event j) ∈ ls → preserves (scheduled_inv ls) (add_job id j).
Proof.
  intros Hj st (H1 & H2 & H3 & H4). unfold add_job.
  destruct (dict_get id (jobs st)); [done|].
  split_and!; [done| |done..]. unfold jobs_scheduled. simpl.
  apply Forall_app. split; [done|]. constructor; [|done]. simpl.
  rewrite Forall_forall in H4. by apply H4.
Qed.

Lemma sci_remove_job ls id : preserves (scheduled_inv ls) (remove_job id).
Proof.
  intros st (H1 & H2 & H3 & H4). unfold remove_job.
  destruct (dict_get id (jobs st)); [|done].
  split_and!; [done| |done..]. unfold jobs_scheduled. simpl.
  by apply (Forall_dict_pop (λ j, scheduled_ref st (ev_video (job_event j)))).
Qed.

Lemma build_event_broadcast env ev video event :
  build_event env ev video = Ok event → ev_type ev = Some BROADCAST →
  is_Some (scheduled_start_time video).
Proof.
  intros Hb Ht. by destruct (build_event_carries _ _ _ _ Hb) as [H _]; apply H.
Qed.

(** A send keeps the invariant when the event is a [PUBLISH], or of broadcast
    type, or for a video with a scheduled start. *)
Lemma send_scheduled ls env ev st :
  ev_event ev = PUBLISH ∨ ev_type ev = Some BROADCAST ∨ scheduled_ref st (ev_video ev) →
  scheduled_inv ls st → scheduled_inv ls (send_youtube_event env ev st).2.
Proof.
  intros Hev (H1 & H2 & H3 & H4). rewrite send_youtube_event_eq. cbv zeta.
  destruct (build_event _ _ _) as [event|e] eqn:Hb; [|done]. simpl.
  split_and!; [done..| |done]. unfold sent_scheduled. simpl.
  apply Forall_app. split; [done|]. constructor; [|done]. simpl. intros Hne.
  destruct Hev as [Hp|[Ht|Hr]]; [done| |done]. by eapply build_event_broadcast.
Qed.

Lemma sci_send ls env ev :
  ev_event ev = PUBLISH ∨ ev_type ev = Some BROADCAST ∨ ev_video ev ∈ ls →
  preserves (scheduled_inv ls) (send_youtube_event env ev).
Proof.
  intros Hev st H.
  assert (scheduled_inv ls (send_youtube_event env ev st).2) as H'.
  { apply send_scheduled; [|done]. destruct Hev as [?|[?|Hl]]; [by left|by right; left|].
    right. right. destruct H as (_ & _ & _ & H4). rewrite Forall_forall in H4. by apply H4. }
  by destruct (send_youtube_event env ev st) as [[[]|e] st'].
Qed.

Lemma sci_hub ls c r : preserves (scheduled_inv ls) (_subscribe c r).
Proof. by apply sci_frame. Qed.

Lemma sci_read_append ls l :
  preserves (scheduled_inv ls) (modify (λ st, set_read_list (read_list st ++ [l]) st)).
Proof. by apply sci_frame. Qed.

Lemma sci_read_set ls rl : preserves (scheduled_inv ls) (modify (set_read_list rl)).
Proof. by apply sci_frame. Qed.

Lemma sci_register ls c :
  preserves (scheduled_inv ls)
            (modify (λ st, set_channel_list (dict_set c [] (channel_list st)) st)).
Proof.
  intros st (H1 & H2 & H3 & H4). split_and!; [|done..]. unfold pending_scheduled. simpl.
  by apply (Forall_dict_set (Forall (scheduled_ref st))).
Qed.

Lemma sci_pop ls c :
  preserves (scheduled_inv ls)
            (modify (λ st, set_channel_list (dict_pop c (channel_list st)) st)).
Proof.
  intros st (H1 & H2 & H3 & H4). split_and!; [|done..]. unfold pending_scheduled. simpl.
  by apply (Forall_dict_pop (Forall (scheduled_ref st))).
Qed.

#[local] Hint Resolve sci_alloc sci_query_video sci_channel_append sci_channel_remove
  sci_add_job sci_remove_job sci_send sci_hub sci_read_append sci_read_set sci_register
  sci_pop : pres.
#[local] Hint Extern 1 (_ ∈ _ :: _) => apply list_elem_of_here : pres.
#[local] Hint Extern 1 (_ ∨ _) =>
  first [ left; reflexivity
        | right; left; reflexivity
        | right; right; apply list_elem_of_here ] : pres.

Lemma sci_alloc_all ls vs : preserves (scheduled_inv ls) (alloc_all vs).
Proof. induction vs; simpl; pres. Qed.
#[local] Hint Resolve sci_alloc_all : pres.

Lemma sci_subscribe c : preserves (scheduled_inv []) (subscribe c).
Proof. unfold subscribe. pres. Qed.

Lemma sci_unsubscribe c pop : preserves (scheduled_inv []) (unsubscribe c pop).
Proof. unfold unsubscribe. pres. Qed.

Lemma sci_renewal : preserves (scheduled_inv []) renewal.
Proof. unfold renewal. pres. Qed.

Lemma sci_get mode challenge c : preserves (scheduled_inv []) (get mode challenge c).
Proof. unfold get. pres. Qed.

Lemma sci_dump_state : preserves (scheduled_inv []) dump_state.
Proof. unfold dump_state. pres. Qed.

Lemma sci_tick env obs : preserves (scheduled_inv []) (tick env obs).
Proof. unfold tick, tick_scan, tick_video, seconds_between. pres. Qed.

Lemma sci_fire_job env id : preserves (scheduled_inv []) (fire_job env id).
Proof.
  intros st H. unfold fire_job. destruct (dict_get id (jobs st)) as [j|] eqn:Hg; [|done].
  simpl. apply send_scheduled.
  - right. right. destruct H as (_ & H2 & _). simpl.
    apply (Forall_dict_get (λ j, scheduled_ref st (ev_video (job_event j))) _ _ _ H2 Hg).
  - pose proof (sci_remove_job [] id st H) as Hr. unfold remove_job in Hr. by rewrite Hg in Hr.
Qed.

Lemma sci_post_dispatch env c old video :
  preserves (scheduled_inv []) (post_dispatch env c old video).
Proof.
  unfold post_dispatch.
  destruct (bool_decide (type video = Some VIDEO)); [pres|].
  destruct (_ && _); [|pres].
  destruct (scheduled_start_time video) as [scheduled|] eqn:Hs; [|pres].
  apply preserves_bind; [pres|]. intros _.
  apply sci_alloc_bind; [by rewrite Hs|]. intros l. apply sci_weaken. pres.
Qed.

Lemma sci_post env n reply : preserves (scheduled_inv []) (post env n reply).
Proof. unfold post. pres. apply sci_post_dispatch. Qed.

Lemma sci_load_saved api channel saved :
  preserves (scheduled_inv []) (load_saved api channel saved).
Proof.
  unfold load_saved. apply preserves_bind; [pres|]. intros video.
  apply preserves_bind; [pres|]. intros [ok video'].
  destruct (bool_decide _); [|pres].
  destruct (scheduled_start_time video') as [scheduled|] eqn:Hs.
  - apply sci_alloc_bind; [by rewrite Hs|]. intros l. apply sci_weaken. pres.
  - (* without a scheduled start the loop body raises before the job is armed *)
    apply preserves_bind; [pres|]. intros l. apply preserves_new_YoutubeEvent_bind.
    intros st H. rewrite bind_unfold. by unfold attr, raise.
Qed.

Lemma sci_load_state saved api : preserves (scheduled_inv []) (load_state saved api).
Proof. unfold load_state. pres. apply sci_load_saved. Qed.

Lemma scheduled_inv_step op st : scheduled_inv [] st → scheduled_inv [] (step op st).
Proof.
  intros H. destruct op; simpl; apply preserves_snd; try done.
  - apply sci_subscribe.
  - apply sci_unsubscribe.
  - apply sci_renewal.
  - apply sci_get.
  - apply sci_post.
  - apply sci_tick.
  - apply sci_fire_job.
  - apply sci_dump_state.
  - apply sci_load_state.
Qed.

Lemma reachable_scheduled_inv st : reachable st → scheduled_inv [] st.
Proof.
  intros [ops <-]. apply run_invariant; [apply scheduled_inv_step|].
  by split_and!; constructor.
Qed.

(** Every state the operations can produce has [pending_scheduled]. *)
Lemma reachable_pending_scheduled st : reachable st → pending_scheduled st.
Proof. intros H. by destruct (reachable_scheduled_inv st H) as (? & _). Qed.

(** C10. Constructing an event of broadcast type for a video without a
    scheduled start raises [ValueError] (and succeeds with one).  In every
    state the operations can produce: each completed send of a [SCHEDULE],
    [REMINDER] or [LIVE] event was for a video with a scheduled start, as was
    each completed send of an event of broadcast type; and each [Event] handed
    to the bus under a schedule, reminder or live name comes from an event of
    broadcast type and carries the scheduled start of its video. *)
Theorem broadcast_events_carry_schedule :
  (∀ e c l st,
     new_YoutubeEvent (Some BROADCAST) e c l st =
       match scheduled_start_time (video_at (heap st) l) with
       | None => (Raise (ValueError "Missing field(s): scheduled_start_time in video."), st)
       | Some _ =>
           (Ok {| ev_type := Some BROADCAST; ev_event := e; ev_channel := c; ev_video := l |}, st)
       end)
  ∧ (∀ ops s,
       s ∈ sent (run ops initial_state) →
       (s_event s ≠ PUBLISH → is_Some (scheduled_start_time (s_video s)))
       ∧ carries_schedule s).
Proof.
  split.
  - intros e c l st. rewrite new_YoutubeEvent_eq. rewrite bool_decide_eq_true_2 by done.
    by destruct (scheduled_start_time _).
  - intros ops s Hs. split.
    + assert (reachable (run ops initial_state)) as Hr by (by exists ops).
      destruct (reachable_scheduled_inv _ Hr) as (_ & _ & H & _).
      unfold sent_scheduled in H. rewrite Forall_forall in H. by apply H.
    + assert (bus_scheduled (run ops initial_state)) as H.
      { apply run_invariant; [apply bus_scheduled_step | by constructor]. }
      unfold bus_scheduled in H. rewrite Forall_forall in H. by apply H.
Qed.

(** [post] for a notification that resolves to a plain video, on a tracked
    channel whose pending snapshots all have a scheduled start. *)
Lemma post_plain env n entry rest snippet st :
  deleted_entry n = false → entries n = entry :: rest →
  tracked st (yt_channelid entry) → pending_scheduled st →
  post env n (RespItem snippet None) st =
    post_dispatch env (yt_channelid entry)
      (find_video (heap st) (yt_videoid entry) (pending st (yt_channelid entry)))
      (apply_item (new_Video (yt_videoid entry) (entry_title entry) (entry_link entry))
                  snippet None)
      st.
Proof.
  intros Hd He [videos Hg] Hps.
  assert (pending st (yt_channelid entry) = videos) as -> by (unfold pending; by rewrite Hg).
  rewrite (post_tracked _ _ _ _ _ _ _ Hd He Hg). cbn [query_video_on]. cbv zeta.
  cbn [video_id new_Video].
  destruct (find_video (heap st) (yt_videoid entry) videos) as [old|] eqn:Hfind; [|done].
  assert (is_Some (scheduled_start_time (video_at (heap st) old))) as [s Hs].
  { pose proof (Forall_dict_get _ _ _ _ Hps Hg) as Hv. simpl in Hv.
    rewrite Forall_forall in Hv. apply Hv. by eapply find_video_elem. }
  rewrite Hs, apply_item_scheduled. cbn [mbind option_bind new_Video scheduled_start_time].
  rewrite (bool_decide_eq_false_2 (Some s = None)) by done. by rewrite andb_false_r.
Qed.


(** ** The theorems at concrete inputs *)



(** A notification for a broadcast without any start time, on the tracked
    channel "c1". *)
Lemma post_malformed_broadcast_witness :
  post demo_env (demo_note "v1" "c1")
       (RespItem None (Some {| scheduledStartTime := None; actualStartTime := None |}))
       demo_tracking
  = (Ok empty_response, demo_tracking).
Proof.
  destruct (post_malformed_broadcast demo_env (demo_note "v1" "c1") None demo_tracking)
    as [_ H].
  apply (H (demo_entry "v1" "c1") []); [reflexivity..|]. vm_compute. by eexists.
Defined.

(** * Further properties of the plugin *)

(** ** Dumped videos: [Video.dump] and [Video.load] *)

Lemma type_of_name_name t : type_of_name (type_name t) = Ok t.
Proof. by destruct t. Qed.

Lemma fromtimestamp_if_ts o :
  (∀ t, o = Some t → ts t ≠ 0) → ts <$> fromtimestamp_if (ts <$> o) = ts <$> o.
Proof.
  destruct o as [t|]; [|done]. intros H. simpl.
  rewrite decide_False; [done|]. by apply H.
Qed.

(** X1. A video that was dumped is loaded again with the same id, title,
    link, type, description and thumbnail.  Its two times come back as naive
    datetimes of the same instant, except that an instant with timestamp zero
    comes back as no time at all.  So the loaded video equals the dumped one
    exactly when the times of the dumped one were naive and not at timestamp
    zero, and a video without a time at timestamp zero is dumped to the same
    record again after the load. *)
Theorem dump_load_round_trip v d :
  dump v = Ok d →
  ∃ v', load d = Ok v'
    ∧ video_id v' = video_id v ∧ title v' = title v ∧ link v' = link v
    ∧ type v' = type v ∧ description v' = description v ∧ thumbnail v' = thumbnail v
    ∧ (∀ t, scheduled_start_time v' = Some t ∨ actual_start_time v' = Some t → aware t = false)
    ∧ (∀ t, scheduled_start_time v = Some t →
            scheduled_start_time v'
            = if decide (ts t = 0) then None else Some {| ts := ts t; aware := false |})
    ∧ (∀ t, actual_start_time v = Some t →
            actual_start_time v'
            = if decide (ts t = 0) then None else Some {| ts := ts t; aware := false |})
    ∧ (scheduled_start_time v = None → scheduled_start_time v' = None)
    ∧ (actual_start_time v = None → actual_start_time v' = None)
    ∧ (v' = v ↔ ∀ t, scheduled_start_time v = Some t ∨ actual_start_time v = Some t →
                     aware t = false ∧ ts t ≠ 0)
    ∧ ((∀ t, scheduled_start_time v = Some t ∨ actual_start_time v = Some t → ts t ≠ 0) →
       dump v' = Ok d).
Proof.
  unfold dump. destruct v as [id ti li ty de th sc ac]. simpl.
  destruct ty as [ty|]; [|done]. intros [= <-].
  unfold load. simpl. rewrite type_of_name_name. eexists. split; [done|]. simpl.
  split_and!; try done.
  - intros t [H|H].
    + destruct sc as [s|]; [|done]. simpl in H. destruct (decide (ts s = 0)); [done|].
      by injection H as <-.
    + destruct ac as [a|]; [|done]. simpl in H. destruct (decide (ts a = 0)); [done|].
      by injection H as <-.
  - by intros t ->.
  - by intros t ->.
  - by intros ->.
  - by intros ->.
  - split.
    + intros [= Hs Ha] t [-> | ->]; simpl in *.
      * destruct (decide (ts t = 0)); [done|]. injection Hs as <-. done.
      * destruct (decide (ts t = 0)); [done|]. injection Ha as <-. done.
    + intros H. f_equal.
      * destruct sc as [[s aw]|]; [|done]. simpl.
        destruct (H _ (or_introl eq_refl)) as [Haw Hts]. simpl in *. subst aw.
        by rewrite decide_False.
      * destruct ac as [[a aw]|]; [|done]. simpl.
        destruct (H _ (or_intror eq_refl)) as [Haw Hts]. simpl in *. subst aw.
        by rewrite decide_False.
  - intros H. f_equal. f_equal.
    + apply fromtimestamp_if_ts. intros s ->. apply H. by left.
    + apply fromtimestamp_if_ts. intros a ->. apply H. by right.
Qed.


Lemma dump_load_round_trip_witness :
  ∃ v', load {| st_video_id := "v1"; st_title := "stream"; st_link := "https://youtu.be/v1";
                st_type := "BROADCAST"; st_description := "";
                st_thumbnail := Some ""; st_scheduled_start_time := Some 1000;
                st_actual_start_time := None |} = Ok v'
        ∧ scheduled_start_time v' = Some {| ts := 1000; aware := false |}.
Proof.
  destruct (dump_load_round_trip
              {| video_id := "v1"; title := "stream"; link := "https://youtu.be/v1";
                 type := Some BROADCAST; description := ""; thumbnail := Some "";
                 scheduled_start_time := Some (local_time 1000); actual_start_time := None |}
              _ eq_refl) as (v' & Hl & _ & _ & _ & _ & _ & _ & _ & Hs & _).
  exists v'. split; [exact Hl|]. exact (Hs _ eq_refl).
Defined.

(** ** The resolver: [query_video] *)

Lemma insert_video_at_other (h : list Video) l l' v :
  l' ≠ l → video_at (<[l := v]> h) l' = video_at h l'.
Proof. intros Hne. unfold video_at. by rewrite list_lookup_insert_ne. Qed.

Lemma insert_video_at_same (h : list Video) l : <[l := video_at h l]> h = h.
Proof.
  unfold video_at. destruct (h !! l) as [v|] eqn:Hl; simpl.
  - by apply list_insert_id.
  - apply list_insert_ge. by apply lookup_ge_None.
Qed.

Lemma video_at_insert (h : list Video) l v :
  (l < length h)%nat → video_at (<[l := v]> h) l = v.
Proof. intros Hl. unfold video_at. by rewrite list_lookup_insert_eq. Qed.

Lemma video_at_insert_invalid (h : list Video) l v :
  ¬ (l < length h)%nat → <[l := v]> h = h.
Proof. intros Hl. apply list_insert_ge. lia. Qed.

(** What [query_video] leaves alone. *)
Lemma query_video_frame l r st :
  let st' := (query_video l r st).2 in
  channel_list st' = channel_list st ∧ read_list st' = read_list st
  ∧ jobs st' = jobs st ∧ hub st' = hub st ∧ sent st' = sent st
  ∧ length (heap st') = length (heap st)
  ∧ (∀ l', l' ≠ l → video_at (heap st') l' = video_at (heap st) l')
  ∧ video_id (video_at (heap st') l) = video_id (video_at (heap st) l)
  ∧ title (video_at (heap st') l) = title (video_at (heap st) l)
  ∧ link (video_at (heap st') l) = link (video_at (heap st) l).
Proof.
  cbv zeta. rewrite query_video_eq.
  destruct (query_video_on _ r) as [[ok v]|e] eqn:Hq; [|done].
  cbn [snd heap set_heap channel_list read_list jobs hub sent].
  split_and!; try done.
  - by rewrite length_insert.
  - intros l' Hne. by apply insert_video_at_other.
  - destruct (decide (l < length (heap st))%nat) as [Hl|Hl].
    + rewrite video_at_insert by done. by eapply query_video_on_id.
    + by rewrite video_at_insert_invalid.
  - destruct (decide (l < length (heap st))%nat) as [Hl|Hl].
    + rewrite video_at_insert by done.
      destruct r; simpl in Hq; try discriminate; injection Hq as <- <-; try done.
      apply apply_item_title.
    + by rewrite video_at_insert_invalid.
  - destruct (decide (l < length (heap st))%nat) as [Hl|Hl].
    + rewrite video_at_insert by done.
      destruct r; simpl in Hq; try discriminate; injection Hq as <- <-; try done.
      by destruct snippet, streaming.
    + by rewrite video_at_insert_invalid.
Qed.

(** X3. [query_video] changes nothing but the video object it is given: the
    lists, the jobs and every other object stay as they are.  Of that object
    it never changes the id, the title or the link, and it never clears a
    scheduled or an actual start.  It returns [True] exactly when the reply
    has an item (and then the object has a type: [BROADCAST] with live
    streaming details, [VIDEO] without), [False] without any change for an
    empty body or an empty item list, and raises [KeyError] without any
    change for a body without "items". *)
Theorem query_video_touches_one_video l r st :
  let res := query_video l r st in
  let old := video_at (heap st) l in
  let new := video_at (heap res.2) l in
  (channel_list res.2 = channel_list st ∧ read_list res.2 = read_list st
   ∧ jobs res.2 = jobs st ∧ hub res.2 = hub st ∧ sent res.2 = sent st
   ∧ length (heap res.2) = length (heap st)
   ∧ ∀ l', l' ≠ l → video_at (heap res.2) l' = video_at (heap st) l')
  ∧ (video_id new = video_id old ∧ title new = title old ∧ link new = link old
     ∧ (is_Some (scheduled_start_time old) → is_Some (scheduled_start_time new))
     ∧ (is_Some (actual_start_time old) → is_Some (actual_start_time new)))
  ∧ (res.1 = Ok true ↔ ∃ snippet streaming, r = RespItem snippet streaming)
  ∧ (∀ snippet streaming, r = RespItem snippet streaming → valid_ref st l →
       type new = Some (if streaming is Some _ then BROADCAST else VIDEO))
  ∧ (res.1 = Ok false ↔ r = RespEmpty ∨ r = RespNoItems)
  ∧ (res.1 = Raise KeyError ↔ r = RespNoItemsKey)
  ∧ (res.1 ≠ Ok true → res.2 = st).
Proof.
  cbv zeta. rewrite query_video_eq.
  destruct r as [| | |snippet streaming]; cbn [query_video_on fst snd].
  - (* empty body *)
    rewrite insert_video_at_same. assert (set_heap (heap st) st = st) as -> by (by destruct st).
    split_and!; try done; try (split; [done|]); try naive_solver.
  - split_and!; try done; try (split; [done|]); try naive_solver.
  - rewrite insert_video_at_same. assert (set_heap (heap st) st = st) as -> by (by destruct st).
    split_and!; try done; try (split; [done|]); try naive_solver.
  - cbn [heap set_heap channel_list read_list jobs hub sent].
    destruct (decide (l < length (heap st))%nat) as [Hl|Hl].
    + rewrite video_at_insert by done.
      rewrite apply_item_id, apply_item_title, apply_item_scheduled, apply_item_actual.
      split_and!; try done.
      * by rewrite length_insert.
      * intros l' Hne. by apply insert_video_at_other.
      * by destruct snippet, streaming.
      * by destruct (streaming ≫= scheduledStartTime).
      * by destruct (streaming ≫= actualStartTime).
      * split; [by eexists _, _|done].
      * intros sn sd [= <- <-] _. apply apply_item_type.
      * split; [done|by intros [?|?]].
    + rewrite video_at_insert_invalid by done.
      split_and!; try done.
      * split; [by eexists _, _|done].
      * split; [done|by intros [?|?]].
Qed.

(** ** The registry lookup: [get_vtuber] *)

(** X4. [get_vtuber] returns the first vtuber of the registry whose "youtube"
    field is the channel, and [None] exactly when no vtuber has that
    channel. *)
Theorem get_vtuber_first_match vs channel_id :
  match get_vtuber vs channel_id with
  | Some key => ∃ before after, vs = before ++ (key, channel_id) :: after
                                ∧ channel_id ∉ before.*2
  | None => channel_id ∉ vs.*2
  end.
Proof.
  induction vs as [|[key yt] vs IH]; simpl.
  - apply not_elem_of_nil.
  - destruct (decide (yt = channel_id)) as [->|Hne].
    + exists [], vs. split; [done|]. apply not_elem_of_nil.
    + destruct (get_vtuber vs channel_id) as [key'|].
      * destruct IH as (before & after & -> & Hb).
        exists ((key, yt) :: before), after. split; [done|].
        rewrite fmap_cons. apply not_elem_of_cons. split; [by intros ->|done].
      * rewrite not_elem_of_cons. split; [by intros ->|done].
Qed.

(** ** Sending to the bus: [send_youtube_event] *)

Lemma build_event_raises env ev video e :
  build_event env ev video = Raise e → e = AttributeError.
Proof.
  unfold build_event, key_of. intros H.
  repeat case_match; simplify_eq; done.
Qed.

Lemma build_event_some env ev video e :
  build_event env ev video = Ok (Some e) →
  get_vtuber (vtubers env) (ev_channel ev) = Some (e_key e)
  ∧ e_title e = title video ∧ e_description e = description video
  ∧ e_link e = link video ∧ e_images e = [thumbnail video]
  ∧ ((ev_type ev = Some VIDEO ∧ video_disabled env = false ∧ e_name e = "youtube_video"
      ∧ e_scheduled_start_time e = None ∧ e_actual_start_time e = None)
     ∨ (ev_type ev = Some BROADCAST ∧ is_Some (scheduled_start_time video)
        ∧ e_scheduled_start_time e = scheduled_start_time video
        ∧ ((ev_event ev = LIVE ∧ live_disabled env = false
            ∧ e_name e = "youtube_broadcast_live" ∧ is_Some (actual_start_time video)
            ∧ e_actual_start_time e = actual_start_time video)
           ∨ (ev_event ev = REMINDER ∧ reminder_disabled env = false
              ∧ e_name e = "youtube_broadcast_reminder" ∧ e_actual_start_time e = None)
           ∨ (ev_event ev = SCHEDULE ∧ schedule_disabled env = false
              ∧ e_name e = "youtube_broadcast_schedule" ∧ e_actual_start_time e = None)))).
Proof.
  unfold build_event, key_of, bus_event. intros H.
  repeat case_match; simplify_eq; simpl;
    repeat match goal with
           | H : _ && _ = true |- _ => apply andb_true_iff in H as [? ?]
           | H : bool_decide _ = true |- _ => apply bool_decide_eq_true in H
           | H : negb _ = true |- _ => apply negb_true_iff in H
           end;
    split_and!; try done; naive_solver.
Qed.

(** X5. [send_youtube_event] changes nothing but what has been sent.  It
    either completes, with at most one [Event] handed to the bus, or raises
    [AttributeError] and leaves the state as it was.  An [Event] it hands over
    has the key of the first vtuber registered for the channel and the title,
    description, link and thumbnail of the video; its name is
    [youtube_video] for an event of type [VIDEO], and for one of type
    [BROADCAST] the live, reminder or schedule name of the event's kind, with
    the scheduled start of the video (and, for live, its actual start); the
    option of that category is not set.  Without a vtuber for the channel
    no [Event] is handed over. *)
Theorem send_youtube_event_outcome env ev st :
  let video := video_at (heap st) (ev_video ev) in
  match send_youtube_event env ev st with
  | (Raise e, st') => e = AttributeError ∧ st' = st
  | (Ok _, st') =>
      heap st' = heap st ∧ channel_list st' = channel_list st
      ∧ read_list st' = read_list st ∧ jobs st' = jobs st ∧ hub st' = hub st
      ∧ ∃ event, sent st' = sent st ++ [sent_record ev video event]
          ∧ (get_vtuber (vtubers env) (ev_channel ev) = None → event = None)
          ∧ ∀ e, event = Some e →
              get_vtuber (vtubers env) (ev_channel ev) = Some (e_key e)
              ∧ e_title e = title video ∧ e_description e = description video
              ∧ e_link e = link video ∧ e_images e = [thumbnail video]
              ∧ ((ev_type ev = Some VIDEO ∧ video_disabled env = false
                  ∧ e_name e = "youtube_video"
                  ∧ e_scheduled_start_time e = None ∧ e_actual_start_time e = None)
                 ∨ (ev_type ev = Some BROADCAST ∧ is_Some (scheduled_start_time video)
                    ∧ e_scheduled_start_time e = scheduled_start_time video
                    ∧ ((ev_event ev = LIVE ∧ live_disabled env = false
                        ∧ e_name e = "youtube_broadcast_live"
                        ∧ is_Some (actual_start_time video)
                        ∧ e_actual_start_time e = actual_start_time video)
                       ∨ (ev_event ev = REMINDER ∧ reminder_disabled env = false
                          ∧ e_name e = "youtube_broadcast_reminder"
                          ∧ e_actual_start_time e = None)
                       ∨ (ev_event ev = SCHEDULE ∧ schedule_disabled env = false
                          ∧ e_name e = "youtube_broadcast_schedule"
                          ∧ e_actual_start_time e = None))))
  end.
Proof.
  cbv zeta. rewrite send_youtube_event_eq. cbv zeta.
  destruct (build_event env ev _) as [event|e] eqn:Hb.
  - split_and!; try done. exists event. split_and!; [done| |].
    + intros Hv. destruct event as [e|]; [|done].
      apply build_event_some in Hb as [Hk _]. by rewrite Hv in Hk.
    + intros e ->. by apply build_event_some.
  - split; [|done]. by eapply build_event_raises.
Qed.

(** ** Subscriptions *)

(** X6. [renewal] sends one subscribe request to the hub for every tracked
    channel, in the order of [channel_list], always returns, and changes
    nothing else. *)
Theorem renewal_resubscribes_all st :
  renewal st
  = (Ok tt,
     set_hub (hub st ++ ((λ channel_id, (HubSubscribe, channel_id))
                           <$> dict_keys (channel_list st))) st).
Proof.
  unfold renewal. mstep. generalize (dict_keys (channel_list st)). intros channel_ids.
  revert st. induction channel_ids as [|c cs IH]; intros st.
  - simpl. rewrite app_nil_r. by destruct st.
  - rewrite for_each_cons. unfold _subscribe at 1, modify. rewrite IH. simpl.
    by rewrite <- app_assoc.
Qed.

Lemma tracked_after_subscribe c st : tracked (subscribe c st).2 c.
Proof.
  unfold tracked. destruct (dict_get c (channel_list st)) as [videos|] eqn:Hg.
  - unfold subscribe. mstep. rewrite Hg. simpl. rewrite Hg. by eexists.
  - rewrite (subscribe_untracked _ _ Hg). unfold _subscribe, modify. simpl.
    rewrite dict_get_set_eq. by eexists.
Qed.

Lemma untracked_after_unsubscribe c st : ¬ tracked (unsubscribe c true st).2 c.
Proof.
  unfold tracked. destruct (dict_get c (channel_list st)) as [videos|] eqn:Hg.
  - rewrite (unsubscribe_tracked _ _ _ _ Hg). simpl. rewrite dict_get_pop_eq. by intros [? ?].
  - unfold unsubscribe. mstep. rewrite Hg. simpl. rewrite Hg. by intros [? ?].
Qed.

(** X7. After [subscribe] (whether it returned or raised the conflict error)
    the channel is tracked, so the hub's handshake for the subscription is
    answered with the challenge and one for an unsubscription with 404.
    After [unsubscribe] with [pop] it is the other way round.  [unsubscribe]
    without [pop] keeps the channel tracked, so the hub's handshake for that
    unsubscription is answered with 404. *)
Theorem handshake_after_subscription c challenge st :
  let s1 := (subscribe c st).2 in
  let s2 := (unsubscribe c true st).2 in
  let s3 := (unsubscribe c false st).2 in
  get "subscribe" challenge (Some c) s1 = (Ok (accepted challenge), s1)
  ∧ get "unsubscribe" challenge (Some c) s1 = (Ok not_found, s1)
  ∧ get "unsubscribe" challenge (Some c) s2 = (Ok (accepted challenge), s2)
  ∧ get "subscribe" challenge (Some c) s2 = (Ok not_found, s2)
  ∧ (tracked s3 c ↔ tracked st c)
  ∧ (tracked st c → get "unsubscribe" challenge (Some c) s3 = (Ok not_found, s3)).
Proof.
  cbv zeta.
  pose proof (tracked_after_subscribe c st) as H1.
  pose proof (untracked_after_unsubscribe c st) as H2.
  assert (tracked (unsubscribe c false st).2 c ↔ tracked st c) as H3.
  { unfold tracked. destruct (dict_get c (channel_list st)) as [videos|] eqn:Hg.
    - rewrite (unsubscribe_tracked _ _ _ _ Hg). simpl. by rewrite Hg.
    - unfold unsubscribe. mstep. rewrite Hg. simpl. by rewrite Hg. }
  rewrite !get_spec. unfold handshake_ok.
  split_and!; try done.
  - rewrite bool_decide_eq_true_2; [done|]. by left.
  - rewrite bool_decide_eq_false_2; [done|]. intros [[? _]|[_ ?]]; done.
  - rewrite bool_decide_eq_true_2; [done|]. by right.
  - rewrite bool_decide_eq_false_2; [done|]. intros [[_ ?]|[? _]]; done.
  - intros Ht. rewrite bool_decide_eq_false_2; [done|]. intros [[? _]|[_ Hn]]; [done|].
    by apply Hn, H3.
Qed.

Lemma dict_pop_set_absent {V} k (v : V) d :
  dict_get k d = None → dict_pop k (dict_set k v d) = d.
Proof.
  induction d as [|[k' v'] d IH]; simpl.
  - by rewrite decide_True.
  - destruct (decide (k' = k)); [done|]. intros H. simpl.
    rewrite decide_False by done. by rewrite IH.
Qed.

(** X8. Subscribing to a channel that is not tracked and then unsubscribing
    from it brings the state back to what it was, the two requests to the hub
    apart: [channel_list] (with its order), the videos, the dedup list, the
    jobs and the sent events are the same. *)
Theorem subscribe_then_unsubscribe c st :
  ¬ tracked st c →
  ∃ st1, subscribe c st = (Ok tt, st1)
         ∧ unsubscribe c true st1
           = (Ok tt, set_hub (hub st ++ [(HubSubscribe, c); (HubUnsubscribe, c)]) st).
Proof.
  intros Hn. apply eq_None_not_Some in Hn.
  rewrite (subscribe_untracked _ _ Hn). unfold _subscribe at 1, modify.
  eexists. split; [done|].
  rewrite (unsubscribe_tracked _ _ _ []); [|simpl; apply dict_get_set_eq].
  simpl. rewrite dict_pop_set_absent by done. rewrite <- app_assoc. simpl.
  unfold set_hub, set_channel_list, set_jobs. simpl. by destruct st.
Qed.

Lemma subscribe_then_unsubscribe_witness :
  ∃ st1, subscribe "c1" initial_state = (Ok tt, st1)
         ∧ unsubscribe "c1" true st1
           = (Ok tt, set_hub (hub initial_state ++ [(HubSubscribe, "c1"); (HubUnsubscribe, "c1")])
                             initial_state).
Proof.
  apply (subscribe_then_unsubscribe "c1" initial_state).
  unfold tracked. simpl. intros [videos Hv]. discriminate Hv.
Defined.

(** ** The callbacks of the registry *)

Lemma unsubscribe_untracked c pop st :
  dict_get c (channel_list st) = None → unsubscribe c pop st = (Raise NotFound, st).
Proof. intros Hg. unfold unsubscribe. mstep. by rewrite Hg. Qed.

Lemma subscribe_tracked c st videos :
  dict_get c (channel_list st) = Some videos → subscribe c st = (Raise Conflict, st).
Proof. intros Hg. unfold subscribe. mstep. by rewrite Hg. Qed.

(** X9. [on_update] for a changed "youtube" field unsubscribes from the old
    channel and then subscribes to the new one.  When the old channel is not
    tracked it raises the not-found error and the new channel is not
    subscribed.  Otherwise the old channel's reminder jobs are cancelled and
    its pending list is dropped, whatever happens next: when the new channel
    is already tracked the conflict error is raised after the old channel is
    gone; when it is not (or is the old channel itself) the call returns and
    the new channel is tracked with an empty pending list.  Other channels,
    the videos, the dedup list and the sent events are not touched. *)
Theorem on_update_moves_subscription old_id new_id st :
  let res := on_update None None (Some (old_id, new_id)) st in
  let cancelled := cancel_jobs (job_ids (heap st) old_id (pending st old_id)) (jobs st) in
  (¬ tracked st old_id → res = (Raise NotFound, st))
  ∧ (tracked st old_id →
       jobs res.2 = cancelled
       ∧ heap res.2 = heap st ∧ read_list res.2 = read_list st ∧ sent res.2 = sent st
       ∧ (∀ c, c ≠ old_id → c ≠ new_id →
               dict_get c (channel_list res.2) = dict_get c (channel_list st))
       ∧ (new_id ≠ old_id → ¬ tracked res.2 old_id)
       ∧ (new_id ≠ old_id → tracked st new_id →
            res.1 = Raise Conflict
            ∧ pending res.2 new_id = pending st new_id
            ∧ hub res.2 = hub st ++ [(HubUnsubscribe, old_id)])
       ∧ (new_id = old_id ∨ ¬ tracked st new_id →
            res.1 = Ok tt
            ∧ dict_get new_id (channel_list res.2) = Some []
            ∧ hub res.2 = hub st ++ [(HubUnsubscribe, old_id); (HubSubscribe, new_id)])).
Proof.
  cbv zeta. unfold on_update, tracked, pending. rewrite bind_unfold.
  destruct (dict_get old_id (channel_list st)) as [videos|] eqn:Hold.
  - split; [intros Hn; destruct Hn; by eexists|]. intros _.
    rewrite (unsubscribe_tracked _ _ _ _ Hold). cbn beta iota.
    set (st1 := set_hub _ _).
    assert (dict_get new_id (channel_list st1)
            = if decide (new_id = old_id) then None else dict_get new_id (channel_list st))
      as Hnew.
    { subst st1. simpl. destruct (decide (new_id = old_id)) as [->|Hne].
      - apply dict_get_pop_eq.
      - by apply dict_get_pop_ne. }
    destruct (decide (new_id = old_id)) as [->|Hne].
    + rewrite (subscribe_untracked _ _ Hnew). unfold _subscribe, modify. subst st1. simpl.
      split_and!; [done..| | | |].
      * intros c Hc _. rewrite dict_get_set_ne by done. by apply dict_get_pop_ne.
      * done.
      * done.
      * intros _. split_and!; [done|apply dict_get_set_eq|by rewrite <- app_assoc].
    + destruct (dict_get new_id (channel_list st)) as [videos'|] eqn:Hn.
      * rewrite (subscribe_tracked _ _ _ Hnew). subst st1. simpl.
        split_and!; [done..| | | |].
        -- intros c Hc _. by apply dict_get_pop_ne.
        -- intros _. rewrite dict_get_pop_eq. by intros [? ?].
        -- intros _ _. split_and!; [done| |done].
           rewrite dict_get_pop_ne by done. by rewrite Hn.
        -- intros [?|Hnt]; [done|]. destruct Hnt. by eexists.
      * rewrite (subscribe_untracked _ _ Hnew). unfold _subscribe, modify. subst st1. simpl.
        split_and!; [done..| | | |].
        -- intros c Hc Hc'. rewrite dict_get_set_ne by done. by apply dict_get_pop_ne.
        -- intros _. rewrite dict_get_set_ne by done. rewrite dict_get_pop_eq. by intros [? ?].
        -- by intros _ [? ?].
        -- intros _. split_and!; [done|apply dict_get_set_eq|by rewrite <- app_assoc].
  - rewrite (unsubscribe_untracked _ _ _ Hold). cbn beta iota.
    split; [done|]. by intros [? ?].
Qed.

(** X10. [on_delete] does nothing for a vtuber without a "youtube" field or
    with an empty one.  For a tracked channel it unsubscribes: the channel is
    no longer tracked, no job is left under the key of any video that was
    pending in it, and the other channels keep their pending lists.  For a
    channel that is not tracked it raises the not-found error. *)
Theorem on_delete_unsubscribes c st :
  on_delete None st = (Ok tt, st)
  ∧ on_delete (Some "") st = (Ok tt, st)
  ∧ (c ≠ "" → ¬ tracked st c → on_delete (Some c) st = (Raise NotFound, st))
  ∧ (c ≠ "" → tracked st c →
       ∃ st', on_delete (Some c) st = (Ok tt, st')
              ∧ ¬ tracked st' c
              ∧ (∀ l, l ∈ pending st c →
                      ¬ has_job st' (job_id c (video_id (video_at (heap st) l))))
              ∧ (∀ c', c' ≠ c → dict_get c' (channel_list st') = dict_get c' (channel_list st))
              ∧ heap st' = heap st ∧ read_list st' = read_list st ∧ sent st' = sent st
              ∧ hub st' = hub st ++ [(HubUnsubscribe, c)]).
Proof.
  split_and!; try done.
  - intros Hc Hn. unfold on_delete. rewrite decide_False by done.
    apply unsubscribe_untracked. by apply eq_None_not_Some.
  - intros Hc [videos Hg]. unfold on_delete. rewrite decide_False by done.
    pose proof (unsubscribe_cancels c true st) as Hcancel.
    rewrite (unsubscribe_tracked _ _ _ _ Hg) in *. eexists. split; [done|]. simpl in *.
    split_and!; try done.
    + unfold tracked. simpl. rewrite dict_get_pop_eq. by intros [? ?].
    + intros c' Hc'. by apply dict_get_pop_ne.
Qed.

(** ** Subscribing at start *)

Lemma subscribe_step c st :
  let res := subscribe c st in
  (∀ c', tracked res.2 c' ↔ tracked st c' ∨ c' = c)
  ∧ (∀ c', pending res.2 c' = pending st c')
  ∧ heap res.2 = heap st ∧ read_list res.2 = read_list st
  ∧ jobs res.2 = jobs st ∧ sent res.2 = sent st
  ∧ (res.1 = Ok tt ↔ ¬ tracked st c)
  ∧ (res.1 = Ok tt ∨ res.1 = Raise Conflict).
Proof.
  cbv zeta. unfold tracked, pending.
  destruct (dict_get c (channel_list st)) as [videos|] eqn:Hg.
  - rewrite (subscribe_tracked _ _ _ Hg). simpl. split_and!; try done.
    + intros c'. split; [by left|]. intros [? | ->]; [done|]. rewrite Hg. by eexists.
    + split; [done|]. intros Hn. destruct Hn. by eexists.
    + by right.
  - rewrite (subscribe_untracked _ _ Hg). unfold _subscribe, modify. simpl.
    split_and!; try done.
    + intros c'. destruct (decide (c = c')) as [<-|Hne].
      * rewrite dict_get_set_eq. split; [by right|by eexists].
      * rewrite dict_get_set_ne by done. split; [by left|]. by intros [?|?].
    + intros c'. destruct (decide (c = c')) as [<-|Hne].
      * by rewrite dict_get_set_eq, Hg.
      * by rewrite dict_get_set_ne.
    + by left.
Qed.

(** X11. [init_subscribe] registers every channel of the registry: afterwards
    a channel is tracked exactly when it was tracked before or is the channel
    of a registered vtuber, no pending list has changed (the new channels
    have empty ones), and the videos, the dedup list, the jobs and the sent
    events are as before.  It returns normally exactly when the registry's
    channels are pairwise different and none of them was tracked before;
    otherwise it raises the conflict error, with every channel registered
    all the same. *)
Theorem init_subscribe_registers_all env st :
  let res := init_subscribe env st in
  let channel_ids := (vtubers env).*2 in
  (∀ c, tracked res.2 c ↔ tracked st c ∨ c ∈ channel_ids)
  ∧ (∀ c, pending res.2 c = pending st c)
  ∧ heap res.2 = heap st ∧ read_list res.2 = read_list st
  ∧ jobs res.2 = jobs st ∧ sent res.2 = sent st
  ∧ (res.1 = Ok tt ↔ NoDup channel_ids ∧ ∀ c, c ∈ channel_ids → ¬ tracked st c)
  ∧ (res.1 = Ok tt ∨ res.1 = Raise Conflict).
Proof.
  cbv zeta. unfold init_subscribe. cbv zeta.
  generalize ((vtubers env).*2). intros channel_ids.
  revert st. induction channel_ids as [|c cs IH]; intros st.
  - simpl. split_and!; try done.
    + intros c. split; [by left|]. intros [?|?%elem_of_nil]; done.
    + split; [|done]. intros _. split; [constructor|]. by intros c ?%elem_of_nil.
    + by left.
  - rewrite fmap_cons. cbn [gather].
    destruct (subscribe_step c st) as (Ht & Hp & Hh & Hr & Hj & Hs & Hok & Hres).
    destruct (IH (subscribe c st).2) as (Ht' & Hp' & Hh' & Hr' & Hj' & Hs' & Hok' & Hres').
    assert (∀ c', tracked (gather (subscribe <$> cs) (subscribe c st).2).2 c'
                  ↔ tracked st c' ∨ c' ∈ c :: cs) as Htr.
    { intros c'. rewrite Ht', Ht, elem_of_cons. tauto. }
    assert (∀ c', pending (gather (subscribe <$> cs) (subscribe c st).2).2 c' = pending st c')
      as Hpe.
    { intros c'. by rewrite Hp', Hp. }
    destruct (subscribe c st) as [[[]|e] st1] eqn:Hsub; simpl in *.
    + destruct (gather (subscribe <$> cs) st1) as [r st2]; simpl in *.
      split_and!; [done|done|congruence..| |done].
      rewrite Hok', NoDup_cons. split.
      * intros [Hnd Hall]. split_and!.
        -- intros Hin. apply (Hall c Hin). apply Ht. by right.
        -- done.
        -- intros c' [-> | Hin]%elem_of_cons; [by apply Hok|].
           intros Htc. apply (Hall c' Hin). apply Ht. by left.
      * intros [[Hnin Hnd] Hall]. split; [done|]. intros c' Hin Htc.
        apply Ht in Htc as [Htc | ->]; [|done]. apply (Hall c'); [by right|done].
    + destruct (gather (subscribe <$> cs) st1) as [r st2]; simpl in *.
      split_and!; [done|done|congruence..| |].
      * split; [done|]. intros [_ Hall]. exfalso.
        assert (¬ tracked st c) as Hn by (apply Hall; by left).
        apply Hok in Hn. done.
      * destruct Hres as [?|?]; [done|]. by right.
Qed.

(** ** Webhook ingestion: what is ignored and what fails *)

(** X12. [post] returns its empty response without any change for a body
    with the deletion marker, whatever else is in it.  Without the marker, a
    feed without entries raises [IndexError], and only the first entry of a
    feed is looked at.  On a tracked channel, a reply of the API with an
    empty body or an empty item list makes [post] return its empty response
    without any change, and a reply without "items" makes it raise
    [KeyError] without any change. *)
Theorem post_ignores_or_fails env n reply st :
  (deleted_entry n = true → post env n reply st = (Ok empty_response, st))
  ∧ (deleted_entry n = false → entries n = [] → post env n reply st = (Raise IndexError, st))
  ∧ (∀ entry rest,
       deleted_entry n = false → entries n = entry :: rest →
       post env n reply st = post env {| deleted_entry := false; entries := [entry] |} reply st
       ∧ (tracked st (yt_channelid entry) →
            (reply = RespEmpty ∨ reply = RespNoItems →
             post env n reply st = (Ok empty_response, st))
            ∧ (reply = RespNoItemsKey → post env n reply st = (Raise KeyError, st)))).
Proof.
  split_and!.
  - apply post_deleted.
  - apply post_no_entries.
  - intros entry rest Hd He. split.
    + unfold post. by rewrite Hd, He.
    + intros [videos Hg]. rewrite (post_tracked _ _ _ _ _ _ _ Hd He Hg).
      split; [intros [-> | ->]|intros ->]; done.
Qed.

(** X13. A notification for a broadcast that has already started (the API
    reports an actual start) is ignored on a tracked channel: [post] returns
    its empty response and the state is as before.  Nothing is sent, the
    video does not become pending, no job is armed, and a pending snapshot
    of the video and its job stay as they are. *)
Theorem post_started_broadcast_ignored env n entry rest snippet scheduled actual st :
  deleted_entry n = false → entries n = entry :: rest →
  tracked st (yt_channelid entry) →
  post env n (RespItem snippet (Some {| scheduledStartTime := scheduled;
                                        actualStartTime := Some actual |})) st
  = (Ok empty_response, st).
Proof.
  intros Hd He [videos Hg]. rewrite (post_tracked _ _ _ _ _ _ _ Hd He Hg).
  cbn [query_video_on]. cbv zeta.
  destruct (match find_video _ _ _ with Some _ => _ | None => _ end); [done|].
  unfold post_dispatch. rewrite apply_item_type, apply_item_actual. simpl. by mprim.
Qed.

Lemma post_started_broadcast_ignored_witness :
  post demo_env (demo_note "v1" "c1") (broadcast_reply 1000 (Some 990)) demo_pending
  = (Ok empty_response, demo_pending).
Proof.
  apply (post_started_broadcast_ignored demo_env (demo_note "v1" "c1") (demo_entry "v1" "c1") []);
    [reflexivity..|].
  unfold tracked. vm_compute. by eexists.
Defined.

Lemma build_event_schedule env c l video s :
  scheduled_start_time video = Some s →
  build_event env {| ev_type := Some BROADCAST; ev_event := SCHEDULE; ev_channel := c;
                     ev_video := l |} video
  = if schedule_disabled env then Ok None
    else match get_vtuber (vtubers env) c with
         | Some key =>
             Ok (Some (bus_event "youtube_broadcast_schedule" key video (Some s) None))
         | None => Raise AttributeError
         end.
Proof.
  intros Hs. unfold build_event, key_of. simpl. rewrite Hs.
  destruct (schedule_disabled env); simpl; [done|].
  by destruct (get_vtuber _ _).
Qed.

Lemma find_video_app h id ls1 ls2 :
  find_video h id (ls1 ++ ls2)
  = match find_video h id ls1 with
    | Some l => Some l
    | None => find_video h id ls2
    end.
Proof.
  induction ls1 as [|l ls1 IH]; simpl; [done|]. by destruct (decide _).
Qed.



(** ** The periodic tick: what it leaves alone *)

Lemma dict_keys_set_present {V} k (v v' : V) d :
  dict_get k d = Some v → dict_keys (dict_set k v' d) = dict_keys d.
Proof.
  unfold dict_keys. induction d as [|[k0 v0] d IH]; simpl; [done|].
  destruct (decide (k0 = k)) as [->|Hne]; [done|]. intros H.
  rewrite !fmap_cons. by rewrite IH.
Qed.

(** [videos.remove(x)] takes out the first element equal to [x] and nothing
    else. *)
Lemma remove_first_split h x ls ls' :
  remove_first h x ls = Some ls' →
  ∃ before l after,
    ls = before ++ l :: after ∧ ls' = before ++ after
    ∧ video_at h l = x ∧ Forall (λ l', video_at h l' ≠ x) before.
Proof.
  revert ls'. induction ls as [|l0 ls IH]; intros ls'; simpl; [done|].
  destruct (decide (video_at h l0 = x)) as [Heq|Hne].
  - intros [= <-]. by exists [], l0, ls.
  - destruct (remove_first h x ls) as [ls0|]; [|done]. simpl. intros [= <-].
    destruct (IH _ eq_refl) as (before & l & after & -> & -> & Hx & Hb).
    exists (l0 :: before), l, after. split_and!; try done. by constructor.
Qed.

Lemma remove_first_is_sublist h x ls ls' : remove_first h x ls = Some ls' → sublist ls' ls.
Proof.
  intros (before & l & after & -> & -> & _)%remove_first_split.
  apply sublist_app; [done|]. by apply sublist_cons.
Qed.

(** X15. Whether [tick] returns or raises, it tracks the same channels in the
    same order afterwards, and the pending list of each is what is left of
    the old one after removals: nothing is added or reordered.  The dedup
    list, the jobs and the requests to the hub are untouched; no object is
    created, and no object changes its id, title or link; and all that has
    been sent are [LIVE] events for videos that went live less than 10800
    seconds before the clock reading. *)
Theorem tick_only_removes env obs st :
  let st' := (tick env obs st).2 in
  dict_keys (channel_list st') = dict_keys (channel_list st)
  ∧ (∀ c, sublist (pending st' c) (pending st c))
  ∧ read_list st' = read_list st ∧ jobs st' = jobs st ∧ hub st' = hub st
  ∧ length (heap st') = length (heap st)
  ∧ (∀ l, video_id (video_at (heap st') l) = video_id (video_at (heap st) l)
          ∧ title (video_at (heap st') l) = title (video_at (heap st) l)
          ∧ link (video_at (heap st') l) = link (video_at (heap st) l))
  ∧ sent_fresh_since obs st st'.
Proof.
  cbv zeta.
  set (I := λ s : State,
         dict_keys (channel_list s) = dict_keys (channel_list st)
         ∧ (∀ c, sublist (pending s c) (pending st c))
         ∧ read_list s = read_list st ∧ hub s = hub st
         ∧ length (heap s) = length (heap st)
         ∧ (∀ l, video_id (video_at (heap s) l) = video_id (video_at (heap st) l)
                 ∧ title (video_at (heap s) l) = title (video_at (heap st) l)
                 ∧ link (video_at (heap s) l) = link (video_at (heap st) l))).
  assert (I (tick env obs st).2) as (H1 & H2 & H3 & H4 & H5 & H6).
  { apply preserves_snd; [|by subst I].
    assert (∀ l r, preserves I (query_video l r)) as Hq.
    { intros l r s (K1 & K2 & K3 & K4 & K5 & K6).
      destruct (query_video_frame l r s)
        as (Q1 & Q2 & Q3 & Q4 & Q5 & Q6 & Q7 & Q8 & Q9 & Q10).
      assert (I (query_video l r s).2) as HI.
      { subst I. cbv beta. unfold pending. rewrite Q1, Q2, Q4, Q6.
        split_and!; try done. intros l'. destruct (decide (l' = l)) as [->|Hne].
        - rewrite Q8, Q9, Q10. apply K6.
        - rewrite (Q7 l' Hne). apply K6. }
      by destruct (query_video l r s) as [[ok|e] s']. }
    assert (∀ env ev, preserves I (send_youtube_event env ev)) as Hs.
    { intros env' ev s HI. rewrite send_youtube_event_eq. cbv zeta.
      by destruct (build_event _ _ _). }
    assert (∀ c l, preserves I (channel_remove c l)) as Hr.
    { intros c l s (K1 & K2 & K3 & K4 & K5 & K6). unfold channel_remove.
      destruct (dict_get c (channel_list s)) as [videos|] eqn:Hg; [|done].
      destruct (remove_first _ _ videos) as [videos'|] eqn:Hrem; [|done].
      subst I. cbv beta. simpl. split_and!; try done.
      - by rewrite (dict_keys_set_present _ _ _ _ Hg).
      - intros c'. unfold pending. simpl. destruct (decide (c = c')) as [<-|Hne].
        + rewrite dict_get_set_eq. simpl. etrans; [by eapply remove_first_is_sublist|].
          specialize (K2 c). unfold pending in K2. by rewrite Hg in K2.
        + rewrite dict_get_set_ne by done. apply K2. }
    unfold tick, tick_scan, tick_video, seconds_between. pres. }
  split_and!; try done.
  - apply tick_jobs.
  - apply tick_sends_fresh_live.
Qed.

Lemma tick_video_not_due env obs c rl l s st :
  scheduled_start_time (video_at (heap st) l) = Some s → aware s = true →
  now (obs l) - ts s ≤ -600 →
  tick_video env obs c rl l st = (Ok rl, st).
Proof.
  intros Hs Ha Hd. unfold tick_video. rewrite bind_unfold. unfold deref at 1. cbn beta iota.
  rewrite Hs. rewrite bind_unfold. unfold seconds_between. simpl. rewrite Ha.
  rewrite bool_decide_eq_true_2 by done. unfold mret at 1, M_ret at 1, ret at 1. cbn beta iota.
  rewrite bool_decide_eq_false_2 by lia. done.
Qed.



(** ** The keys of the reminder jobs *)

Lemma append_length s t : String.length (s +:+ t) = (String.length s + String.length t)%nat.
Proof. induction s as [|a s IH]; simpl; [done|]. by rewrite IH. Qed.

Lemma append_inj_l s t1 t2 : s +:+ t1 = s +:+ t2 → t1 = t2.
Proof. induction s as [|a s IH]; simpl; [done|]. intros [= H]. by apply IH. Qed.

Lemma append_inj_length s1 s2 t1 t2 :
  String.length s1 = String.length s2 → s1 +:+ t1 = s2 +:+ t2 → s1 = s2 ∧ t1 = t2.
Proof.
  revert s2. induction s1 as [|a s1 IH]; intros [|b s2]; simpl; try done.
  intros [= Hl] [= -> H]. destruct (IH _ Hl H) as [-> ->]. done.
Qed.

(** X17. The key of a reminder job names its channel and video without
    ambiguity as long as video ids have one length (as YouTube's have): two
    keys for video ids of equal length are equal only for the same channel
    and the same video. *)
Theorem job_id_injective c1 v1 c2 v2 :
  String.length v1 = String.length v2 →
  job_id c1 v1 = job_id c2 v2 →
  c1 = c2 ∧ v1 = v2.
Proof.
  intros Hlen Heq. unfold job_id in Heq.
  apply append_inj_l in Heq.
  assert (String.length c1 = String.length c2) as Hc.
  { apply (f_equal String.length) in Heq. rewrite !append_length in Heq. simpl in Heq. lia. }
  destruct (append_inj_length _ _ _ _ Hc Heq) as [-> Hv]. split; [done|].
  by apply (append_inj_l "_").
Qed.

(** For ids of different lengths two different videos can share a key: the
    "_" between channel and video can also be part of either. *)
Lemma job_id_collision : job_id "a_b" "c" = job_id "a" "b_c".
Proof. reflexivity. Qed.

Lemma job_id_injective_witness : "c1" = "c1" ∧ "v1" = "v1".
Proof. apply (job_id_injective "c1" "v1" "c1" "v1"); reflexivity. Defined.

(** ** Snapshots of the state: [dump_state] *)

Lemma typed_ref_valid st l : typed_ref st l → valid_ref st l.
Proof.
  unfold typed_ref, valid_ref, video_at. intros [t Ht].
  destruct (heap st !! l) as [v|] eqn:Hl; [by eapply lookup_lt_Some|done].
Qed.

Lemma typed_inv_mono ls st st' :
  (∀ l, typed_ref st l → typed_ref st' l) →
  channel_list st' = channel_list st → read_list st' = read_list st →
  typed_inv ls st → typed_inv ls st'.
Proof.
  intros Hm Hc Hr (H1 & H2 & H3). split_and!.
  - rewrite Hc. eapply Forall_impl; [exact H1|].
    intros [c vs] Hv. simpl in *. eapply Forall_impl; [exact Hv|]. exact Hm.
  - rewrite Hr. eapply Forall_impl; [exact H2|]. exact Hm.
  - eapply Forall_impl; [exact H3|]. exact Hm.
Qed.

Lemma ti_frame {A} ls (m : M A) :
  (∀ st, heap (m st).2 = heap st ∧ channel_list (m st).2 = channel_list st
         ∧ read_list (m st).2 = read_list st) →
  preserves (typed_inv ls) m.
Proof.
  intros Hm st H. destruct (Hm st) as (Hh & Hc & Hr).
  assert (typed_inv ls (m st).2) as H'.
  { apply (typed_inv_mono ls st); [|done..]. intros l. unfold typed_ref. by rewrite Hh. }
  by destruct (m st) as [[a|e] st'].
Qed.

Lemma ti_alloc ls v : preserves (typed_inv ls) (alloc v).
Proof.
  intros st H. unfold alloc. simpl. apply (typed_inv_mono ls st); [|done..].
  intros l Hl. unfold typed_ref in *. simpl.
  rewrite video_at_app; [done|]. by apply typed_ref_valid.
Qed.

(** Allocating a video with a type adds its reference to the known ones. *)
Lemma ti_alloc_bind {B} ls v (k : loc → M B) :
  is_Some (type v) →
  (∀ l, hoare (typed_inv (l :: ls)) (k l) (λ _, typed_inv ls) (typed_inv ls)) →
  preserves (typed_inv ls) (alloc v ≫= k).
Proof.
  intros Hv Hk st H. rewrite bind_unfold. unfold alloc at 1. cbn beta iota.
  apply Hk. destruct (ti_alloc ls v st H) as (H1 & H2 & H3). split_and!; [done..|].
  constructor; [|done]. unfold typed_ref. simpl. by rewrite video_at_alloc.
Qed.

Lemma ti_weaken {A} l ls (m : M A) :
  preserves (typed_inv (l :: ls)) m →
  hoare (typed_inv (l :: ls)) m (λ _, typed_inv ls) (typed_inv ls).
Proof.
  intros Hm. eapply hoare_conseq; [exact Hm|done|..].
  - intros _ st (H1 & H2 & H3). split_and!; [done..|]. by apply Forall_cons in H3 as [_ ?].
  - intros st (H1 & H2 & H3). split_and!; [done..|]. by apply Forall_cons in H3 as [_ ?].
Qed.

Lemma query_video_on_typed v r ok v' :
  query_video_on v r = Ok (ok, v') → is_Some (type v) → is_Some (type v').
Proof.
  destruct r; simpl; intros H; try discriminate; injection H as <- <-; try done.
  intros _. by rewrite apply_item_type.
Qed.

Lemma ti_query_video ls l r : preserves (typed_inv ls) (query_video l r).
Proof.
  intros st H. rewrite query_video_eq.
  destruct (query_video_on _ r) as [[ok v]|e] eqn:Hq; [|done].
  apply (typed_inv_mono ls st); [|done..].
  intros l' Hl'. unfold typed_ref in *. simpl.
  destruct (decide (l' = l)) as [->|Hne].
  - rewrite video_at_insert by (by apply typed_ref_valid).
    by eapply query_video_on_typed.
  - by rewrite insert_video_at_other.
Qed.

Lemma ti_channel_append ls c l : l ∈ ls → preserves (typed_inv ls) (channel_append c l).
Proof.
  intros Hl st (H1 & H2 & H3). unfold channel_append.
  destruct (dict_get c (channel_list st)) as [videos|] eqn:Hg; [|done].
  split_and!; [|done..]. simpl.
  apply (Forall_dict_set (Forall (typed_ref st))); [|done].
  apply Forall_app. split.
  - by apply (Forall_dict_get (Forall (typed_ref st)) _ _ _ H1 Hg).
  - constructor; [|done]. rewrite Forall_forall in H3. by apply H3.
Qed.

Lemma ti_channel_remove ls c l : preserves (typed_inv ls) (channel_remove c l).
Proof.
  intros st (H1 & H2 & H3). unfold channel_remove.
  destruct (dict_get c (channel_list st)) as [videos|] eqn:Hg; [|done].
  destruct (remove_first _ _ videos) as [videos'|] eqn:Hr; [|done].
  split_and!; [|done..]. simpl.
  apply (Forall_dict_set (Forall (typed_ref st))); [|done].
  pose proof (Forall_dict_get (Forall (typed_ref st)) _ _ _ H1 Hg) as Hv.
  rewrite Forall_forall in *. intros l' Hl'. apply Hv. by eapply remove_first_sublist.
Qed.

Lemma ti_add_job ls id j : preserves (typed_inv ls) (add_job id j).
Proof. apply ti_frame. intros st. unfold add_job. by destruct (dict_get _ _). Qed.

Lemma ti_remove_job ls id : preserves (typed_inv ls) (remove_job id).
Proof. apply ti_frame. intros st. unfold remove_job. by destruct (dict_get _ _). Qed.

Lemma ti_send ls env ev : preserves (typed_inv ls) (send_youtube_event env ev).
Proof.
  apply ti_frame. intros st. rewrite send_youtube_event_eq. cbv zeta.
  by destruct (build_event _ _ _).
Qed.

Lemma ti_hub ls c r : preserves (typed_inv ls) (_subscribe c r).
Proof. by apply ti_frame. Qed.

Lemma ti_read_append ls l :
  l ∈ ls → preserves (typed_inv ls) (modify (λ st, set_read_list (read_list st ++ [l]) st)).
Proof.
  intros Hl st (H1 & H2 & H3). split_and!; [done| |done]. simpl.
  apply Forall_app. split; [done|]. constructor; [|done].
  rewrite Forall_forall in H3. by apply H3.
Qed.

Lemma ti_register ls c :
  preserves (typed_inv ls) (modify (λ st, set_channel_list (dict_set c [] (channel_list st)) st)).
Proof.
  intros st (H1 & H2 & H3). split_and!; [|done..]. simpl.
  by apply (Forall_dict_set (Forall (typed_ref st))).
Qed.

Lemma ti_pop ls c :
  preserves (typed_inv ls) (modify (λ st, set_channel_list (dict_pop c (channel_list st)) st)).
Proof.
  intros st (H1 & H2 & H3). split_and!; [|done..]. simpl.
  by apply (Forall_dict_pop (Forall (typed_ref st))).
Qed.

#[local] Hint Resolve ti_alloc ti_query_video ti_channel_append ti_channel_remove ti_add_job
  ti_remove_job ti_send ti_hub ti_read_append ti_register ti_pop : pres.

Lemma ti_post_dispatch env c old video :
  preserves (typed_inv []) (post_dispatch env c old video).
Proof.
  unfold post_dispatch.
  destruct (bool_decide (type video = Some VIDEO)) eqn:Hv.
  - apply bool_decide_eq_true in Hv. apply preserves_bind; [pres|]. intros st0.
    destruct (find_video _ _ _); [pres|].
    apply ti_alloc_bind; [by rewrite Hv|]. intros l. apply ti_weaken. pres.
  - destruct (_ && _) eqn:Hcond; [|pres].
    apply andb_true_iff in Hcond as [Hb _]. apply bool_decide_eq_true in Hb.
    destruct (scheduled_start_time video) as [scheduled|]; [|pres].
    apply preserves_bind; [pres|]. intros _.
    apply ti_alloc_bind; [by rewrite Hb|]. intros l. apply ti_weaken. pres.
Qed.

Lemma ti_post env n reply : preserves (typed_inv []) (post env n reply).
Proof. unfold post. pres. apply ti_post_dispatch. Qed.

Lemma ti_tick env obs : preserves (typed_inv []) (tick env obs).
Proof. unfold tick, tick_scan, tick_video, seconds_between. pres. Qed.

Lemma ti_subscribe c : preserves (typed_inv []) (subscribe c).
Proof. unfold subscribe. pres. Qed.

Lemma ti_unsubscribe c pop : preserves (typed_inv []) (unsubscribe c pop).
Proof. unfold unsubscribe. pres. Qed.

Lemma ti_renewal : preserves (typed_inv []) renewal.
Proof. unfold renewal. pres. Qed.

Lemma ti_get mode challenge c : preserves (typed_inv []) (get mode challenge c).
Proof. unfold get. pres. Qed.

Lemma ti_dump_state : preserves (typed_inv []) dump_state.
Proof. unfold dump_state. pres. Qed.

Lemma ti_fire_job env id : preserves (typed_inv []) (fire_job env id).
Proof.
  intros st H. unfold fire_job. destruct (dict_get id (jobs st)) as [j|] eqn:Hg; [|done].
  simpl. apply preserves_snd; [apply ti_send|].
  pose proof (ti_remove_job [] id st H) as Hr. unfold remove_job in Hr. by rewrite Hg in Hr.
Qed.

Lemma load_typed d v : load d = Ok v → is_Some (type v).
Proof.
  unfold load. destruct (type_of_name _) as [t|]; [|done]. intros [= <-]. by eexists.
Qed.

Lemma ti_load_saved api channel saved :
  preserves (typed_inv []) (load_saved api channel saved).
Proof.
  unfold load_saved. intros st H. rewrite bind_unfold. unfold lift at 1.
  destruct (load saved) as [video|e] eqn:Hl; [|done].
  apply load_typed in Hl. cbn beta iota. rewrite bind_unfold. unfold lift at 1.
  destruct (query_video_on video _) as [[ok video']|e] eqn:Hq; [|done].
  pose proof (query_video_on_typed _ _ _ _ Hq Hl) as Ht. cbn beta iota.
  revert st H. change (preserves (typed_inv [])
    (if bool_decide (actual_start_time video' = None)
     then l ← alloc video';
          event_reminder ← new_YoutubeEvent (type video') REMINDER channel l;
          scheduled ← attr (scheduled_start_time video');
          add_job (job_id channel (video_id video'))
                  {| job_event := event_reminder; job_run_at := scheduled |};;
          channel_append channel l
     else mret tt)).
  destruct (bool_decide _); [|pres].
  apply ti_alloc_bind; [done|]. intros l. apply ti_weaken. pres.
Qed.

Lemma map_res_Forall {A B} (f : A → Res B) (P : B → Prop) xs ys :
  (∀ x y, f x = Ok y → P y) → map_res f xs = Ok ys → Forall P ys.
Proof.
  intros Hf. revert ys. induction xs as [|x xs IH]; intros ys; simpl.
  - by intros [= <-].
  - destruct (f x) as [y|e] eqn:Hx; [|done].
    destruct (map_res f xs) as [ys'|e]; [|done]. intros [= <-].
    constructor; [by eapply Hf|by apply IH].
Qed.

(** The references [alloc_all] returns are those of the videos it stored. *)
Lemma alloc_all_eq vs st :
  alloc_all vs st
  = (Ok (seq (length (heap st)) (length vs)), set_heap (heap st ++ vs) st).
Proof.
  revert st. induction vs as [|v vs IH]; intros st.
  - simpl. rewrite app_nil_r. by destruct st.
  - cbn [alloc_all]. rewrite bind_unfold. unfold alloc at 1. cbn beta iota.
    rewrite bind_unfold, IH. simpl. rewrite length_app. simpl.
    rewrite <- app_assoc. simpl. by rewrite Nat.add_1_r.
Qed.

Lemma video_at_seq h vs i v :
  vs !! i = Some v → video_at (h ++ vs) (length h + i) = v.
Proof.
  intros Hi. unfold video_at. rewrite lookup_app_r by lia.
  replace (length h + i - length h)%nat with i by lia. by rewrite Hi.
Qed.

Lemma video_at_allocated h vs :
  video_at (h ++ vs) <$> seq (length h) (length vs) = vs.
Proof.
  apply list_eq. intros i. rewrite list_lookup_fmap.
  destruct (vs !! i) as [v|] eqn:Hi.
  - rewrite lookup_seq_lt by (by eapply lookup_lt_Some). simpl.
    by rewrite (video_at_seq _ _ _ v).
  - rewrite lookup_seq_ge; [done|]. by apply lookup_ge_None.
Qed.

Lemma ti_load_state saved api : preserves (typed_inv []) (load_state saved api).
Proof.
  unfold load_state. apply preserves_bind.
  { pres. apply ti_load_saved. }
  intros _ st H. rewrite bind_unfold. unfold lift at 1.
  destruct (map_res load _) as [videos|e] eqn:Hm; [|done]. cbn beta iota.
  rewrite bind_unfold, alloc_all_eq. unfold modify.
  assert (Forall (λ v, is_Some (type v)) videos) as Hty.
  { eapply map_res_Forall; [|exact Hm]. intros d v. apply load_typed. }
  destruct H as (H1 & H2 & H3). split_and!; simpl; [| |done].
  - eapply Forall_impl; [exact H1|]. intros [c vs] Hv. simpl in *.
    eapply Forall_impl; [exact Hv|]. intros l Hl. unfold typed_ref in *. simpl.
    unfold video_at. rewrite lookup_app_l; [done|]. by apply typed_ref_valid.
  - apply Forall_forall. intros l Hl. unfold typed_ref. simpl.
    apply list_elem_of_lookup in Hl as [i Hi].
    apply lookup_seq in Hi as [-> Hi].
    destruct (lookup_lt_is_Some_2 videos i Hi) as [v Hv].
    rewrite (video_at_seq _ _ _ v Hv).
    rewrite Forall_forall in Hty. apply Hty. by eapply list_elem_of_lookup_2.
Qed.

Lemma typed_inv_step op st : typed_inv [] st → typed_inv [] (step op st).
Proof.
  intros H. destruct op; simpl; apply preserves_snd; try done.
  - apply ti_subscribe.
  - apply ti_unsubscribe.
  - apply ti_renewal.
  - apply ti_get.
  - apply ti_post.
  - apply ti_tick.
  - apply ti_fire_job.
  - apply ti_dump_state.
  - apply ti_load_state.
Qed.

Lemma reachable_typed_inv st : reachable st → typed_inv [] st.
Proof.
  intros [ops <-]. apply run_invariant; [apply typed_inv_step|].
  by split_and!; constructor.
Qed.

Lemma map_res_Forall2 {A B} (f : A → Res B) xs :
  Forall (λ x, ∃ y, f x = Ok y) xs →
  ∃ ys, map_res f xs = Ok ys ∧ Forall2 (λ x y, f x = Ok y) xs ys.
Proof.
  induction 1 as [|x xs [y Hy] Hxs (ys & Hys & H2)]; simpl.
  - by exists [].
  - rewrite Hy, Hys. exists (y :: ys). split; [done|]. by constructor.
Qed.

Lemma dump_typed v : is_Some (type v) → ∃ d, dump v = Ok d ∧ st_video_id d = video_id v.
Proof. intros [t Ht]. unfold dump. rewrite Ht. by eexists. Qed.

Lemma map_res_inv {A B} (f : A → Res B) xs ys :
  map_res f xs = Ok ys → Forall2 (λ x y, f x = Ok y) xs ys.
Proof.
  revert ys. induction xs as [|x xs IH]; intros ys; simpl.
  - intros [= <-]. constructor.
  - destruct (f x) as [y|e] eqn:Hx; [|done].
    destruct (map_res f xs) as [ys'|e]; [|done]. intros [= <-].
    constructor; [done|by apply IH].
Qed.

Lemma dump_id v d : dump v = Ok d → st_video_id d = video_id v.
Proof. unfold dump. destruct (type v); [|done]. by intros [= <-]. Qed.

Lemma dumped_ids h ls ds :
  Forall2 (λ l d, dump (video_at h l) = Ok d) ls ds → st_video_id <$> ds = ids_of h ls.
Proof.
  unfold ids_of. induction 1 as [|l d ls ds Hd _ IH]; [done|].
  rewrite !fmap_cons, IH. by rewrite (dump_id _ _ Hd).
Qed.

(** X18. In every state the operations can produce, [dump_state] succeeds
    and leaves the state as it was: every pending video and every video of
    the dedup list has a type, which is what [Video.dump] needs.  The record
    it writes lists the tracked channels in their order, each with the dumps
    of its pending videos, and the dumps of the videos of the dedup list (so
    the ids of the second record are the dedup set). *)
Theorem dump_state_succeeds st :
  reachable st →
  ∃ channel_state read_state,
    dump_state st
    = (Ok {| youtube_live_state := Some channel_state;
             youtube_video_state := Some read_state |}, st)
    ∧ Forall2 (λ cv cd, cd.1 = cv.1
                        ∧ Forall2 (λ l d, dump (video_at (heap st) l) = Ok d) cv.2 cd.2)
              (channel_list st) channel_state
    ∧ Forall2 (λ l d, dump (video_at (heap st) l) = Ok d) (read_list st) read_state
    ∧ st_video_id <$> read_state = published st.
Proof.
  intros (H1 & H2 & _)%reachable_typed_inv.
  assert (∀ ls, Forall (typed_ref st) ls →
                ∃ ds, map_res (λ l, dump (video_at (heap st) l)) ls = Ok ds) as Hdump.
  { intros ls Hls.
    destruct (map_res_Forall2 (λ l, dump (video_at (heap st) l)) ls) as (ds & Hds & _);
      [|by exists ds].
    eapply Forall_impl; [exact Hls|]. intros l Hl.
    destruct (dump_typed _ Hl) as (d & Hd & _). by exists d. }
  destruct (map_res_Forall2
              (λ '(channel, videos),
                 match map_res (λ l, dump (video_at (heap st) l)) videos with
                 | Raise e => Raise e
                 | Ok ds => Ok (channel, ds)
                 end) (channel_list st)) as (cs & Hcs & Hcs2).
  { eapply Forall_impl; [exact H1|]. intros [c videos] Hv. simpl in Hv.
    destruct (Hdump _ Hv) as [ds Hds]. exists (c, ds). by rewrite Hds. }
  destruct (Hdump _ H2) as [rs Hrs].
  exists cs, rs. unfold dump_state. rewrite bind_unfold. unfold get_state at 1. cbn beta iota.
  rewrite bind_unfold. unfold lift at 1. rewrite Hcs. cbn beta iota.
  rewrite bind_unfold. unfold lift at 1. rewrite Hrs. cbn beta iota.
  split; [done|]. apply map_res_inv in Hrs. split_and!; [|done|by apply dumped_ids].
  eapply Forall2_impl; [exact Hcs2|]. intros [c videos] [c' ds]. simpl.
  destruct (map_res _ videos) as [ds'|e] eqn:Hds; [|done]. intros [= <- <-].
  split; [done|]. by apply map_res_inv.
Qed.

Lemma dump_state_succeeds_witness :
  ∃ channel_state read_state,
    dump_state demo_published_and_pending
    = (Ok {| youtube_live_state := Some channel_state;
             youtube_video_state := Some read_state |}, demo_published_and_pending)
    ∧ Forall2 (λ cv cd, cd.1 = cv.1
                        ∧ Forall2 (λ l d, dump (video_at (heap demo_published_and_pending) l)
                                          = Ok d) cv.2 cd.2)
              (channel_list demo_published_and_pending) channel_state
    ∧ Forall2 (λ l d, dump (video_at (heap demo_published_and_pending) l) = Ok d)
              (read_list demo_published_and_pending) read_state
    ∧ st_video_id <$> read_state = published demo_published_and_pending.
Proof. apply dump_state_succeeds. eexists. reflexivity. Defined.

(** ** Restoring the state: [load_state] *)

(** X19. Whether [load_state] returns or raises, it only adds: the tracked
    channels and their order are as before, every pending list has its old
    content as a prefix, and so have the job store and the store of video
    objects; the requests to the hub and the sent events are untouched.  The
    dedup list is replaced only when [load_state] returns; when it raises,
    the dedup list is the old one. *)
Theorem load_state_only_adds saved api st :
  let res := load_state saved api st in
  dict_keys (channel_list res.2) = dict_keys (channel_list st)
  ∧ (∀ c, pending st c `prefix_of` pending res.2 c)
  ∧ jobs st `prefix_of` jobs res.2
  ∧ heap st `prefix_of` heap res.2
  ∧ hub res.2 = hub st ∧ sent res.2 = sent st
  ∧ (res.1 ≠ Ok tt → read_list res.2 = read_list st).
Proof.
  cbv zeta.
  set (I := λ s : State,
         dict_keys (channel_list s) = dict_keys (channel_list st)
         ∧ (∀ c, pending st c `prefix_of` pending s c)
         ∧ jobs st `prefix_of` jobs s ∧ heap st `prefix_of` heap s
         ∧ hub s = hub st ∧ sent s = sent st ∧ read_list s = read_list st).
  assert (I st) as HI by (by subst I).
  assert (∀ v, preserves I (alloc v)) as Halloc.
  { intros v s (K1 & K2 & K3 & K4 & K5 & K6 & K7). subst I. cbv beta. simpl.
    split_and!; try done. etrans; [exact K4|]. by apply prefix_app_r. }
  assert (∀ id j, preserves I (add_job id j)) as Hadd.
  { intros id j s (K1 & K2 & K3 & K4 & K5 & K6 & K7). unfold add_job.
    destruct (dict_get id (jobs s)); [done|]. subst I. cbv beta. simpl.
    split_and!; try done. etrans; [exact K3|]. by apply prefix_app_r. }
  assert (∀ c l, preserves I (channel_append c l)) as Happ.
  { intros c l s (K1 & K2 & K3 & K4 & K5 & K6 & K7). unfold channel_append.
    destruct (dict_get c (channel_list s)) as [videos|] eqn:Hg; [|done].
    subst I. cbv beta. simpl. split_and!; try done.
    - by rewrite (dict_keys_set_present _ _ _ _ Hg).
    - intros c'. unfold pending. simpl. destruct (decide (c = c')) as [<-|Hne].
      + rewrite dict_get_set_eq. simpl. specialize (K2 c). unfold pending in K2.
        rewrite Hg in K2. etrans; [exact K2|]. by apply prefix_app_r.
      + rewrite dict_get_set_ne by done. apply K2. }
  assert (preserves I
            (for_each (fun '(channel, videos) => for_each (load_saved api channel) videos)
                      (default [] (youtube_live_state saved)))) as Hloop.
  { unfold load_saved. pres. }
  destruct (load_state saved api st) as [r s'] eqn:Hload. cbn [fst snd].
  unfold load_state in Hload. rewrite bind_unfold in Hload. specialize (Hloop st HI).
  destruct (for_each _ _ st) as [[[]|e] s1];
    destruct Hloop as (K1 & K2 & K3 & K4 & K5 & K6 & K7).
  - rewrite bind_unfold in Hload. unfold lift at 1 in Hload.
    destruct (map_res load _) as [videos|e].
    + cbn beta iota in Hload. rewrite bind_unfold, alloc_all_eq in Hload.
      unfold modify in Hload. injection Hload as <- <-. simpl.
      split_and!; [done|exact K2|done| |done..].
      etrans; [exact K4|]. by apply prefix_app_r.
    + by injection Hload as <- <-.
  - by injection Hload as <- <-.
Qed.

Lemma load_state_dedup saved api st st' :
  load_state saved api st = (Ok tt, st') →
  published st' = st_video_id <$> default [] (youtube_video_state saved).
Proof.
  unfold load_state. rewrite bind_unfold.
  destruct (for_each _ _ st) as [[[]|e] s1]; [|done].
  rewrite bind_unfold. unfold lift at 1.
  destruct (map_res load _) as [videos|e] eqn:Hm; [|done]. cbn beta iota.
  rewrite bind_unfold, alloc_all_eq. unfold modify. intros [= <-].
  unfold published, ids_of. simpl.
  rewrite (list_fmap_compose (video_at (heap s1 ++ videos)) video_id).
  rewrite video_at_allocated.
  apply map_res_inv in Hm. clear -Hm.
  induction Hm as [|d v ds vs Hd _ IH]; [done|]. rewrite !fmap_cons, IH. f_equal.
  unfold load in Hd. destruct (type_of_name _); [|done]. by injection Hd as <-.
Qed.

(** X20. When a dump of one state is restored and [load_state] returns, the
    dedup set of published videos is that of the dumped state: the ids are
    the same, in the same order, whatever the dedup list held before. *)
Theorem dump_load_restores_dedup st0 saved api st st' :
  (dump_state st0).1 = Ok saved →
  load_state saved api st = (Ok tt, st') →
  published st' = published st0.
Proof.
  intros Hdump Hload. rewrite (load_state_dedup _ _ _ _ Hload).
  unfold dump_state in Hdump. rewrite bind_unfold in Hdump. unfold get_state at 1 in Hdump.
  cbn beta iota in Hdump. rewrite bind_unfold in Hdump. unfold lift at 1 in Hdump.
  destruct (map_res _ (channel_list st0)) as [cs|e]; [|done]. cbn beta iota in Hdump.
  rewrite bind_unfold in Hdump. unfold lift at 1 in Hdump.
  destruct (map_res _ (read_list st0)) as [rs|e] eqn:Hrs; [|done].
  simpl in Hdump. injection Hdump as <-. simpl.
  apply dumped_ids. by apply map_res_inv.
Qed.

Lemma dump_load_restores_dedup_witness :
  ∃ saved st',
    (dump_state demo_published).1 = Ok saved
    ∧ load_state saved (λ _, RespEmpty) initial_state = (Ok tt, st')
    ∧ published st' = published demo_published.
Proof.
  do 2 eexists. split; [vm_compute; reflexivity|]. split; [vm_compute; reflexivity|].
  eapply (dump_load_restores_dedup demo_published _ (λ _, RespEmpty) initial_state);
    vm_compute; reflexivity.
Defined.

(** ** Pending snapshots are distinct *)

Lemma elem_of_pending_pairs channels c l :
  (c, l) ∈ pending_pairs channels ↔ ∃ videos, (c, videos) ∈ channels ∧ l ∈ videos.
Proof.
  induction channels as [|[c' videos'] channels IH]; simpl.
  - split; [by intros ?%elem_of_nil|]. by intros (? & ?%elem_of_nil & _).
  - rewrite elem_of_app, IH, list_elem_of_fmap. split.
    + intros [(l' & [= -> ->] & Hl)|(videos & Hin & Hl)].
      * exists videos'. split; [by left|done].
      * exists videos. split; [by right|done].
    + intros (videos & [[= -> ->]|Hin]%elem_of_cons & Hl).
      * left. by exists l.
      * right. by exists videos.
Qed.

Lemma dict_get_elem {V} k (v : V) d : dict_get k d = Some v → (k, v) ∈ d.
Proof.
  induction d as [|[k' v'] d IH]; simpl; [done|].
  destruct (decide (k' = k)) as [->|Hne].
  - intros [= ->]. by left.
  - intros H. right. by apply IH.
Qed.

Lemma dict_get_NoDup {V} k (v : V) d :
  NoDup (dict_keys d) → (k, v) ∈ d → dict_get k d = Some v.
Proof.
  unfold dict_keys. induction d as [|[k' v'] d IH]; simpl; [by intros _ ?%elem_of_nil|].
  rewrite NoDup_cons. intros [Hn Hd] [[= -> ->]|Hin]%elem_of_cons.
  - by rewrite decide_True.
  - rewrite decide_False; [by apply IH|]. intros ->. apply Hn.
    apply list_elem_of_fmap. by exists (k, v).
Qed.

Lemma pending_pairs_elem st c l :
  NoDup (dict_keys (channel_list st)) →
  (c, l) ∈ pending_pairs (channel_list st) ↔ l ∈ pending st c.
Proof.
  intros Hnd. rewrite elem_of_pending_pairs. unfold pending. split.
  - intros (videos & Hin & Hl). by rewrite (dict_get_NoDup _ _ _ Hnd Hin).
  - destruct (dict_get c (channel_list st)) as [videos|] eqn:Hg; [|by intros ?%elem_of_nil].
    simpl. intros Hl. exists videos. split; [by apply dict_get_elem|done].
Qed.

Lemma pending_pairs_channel channels c videos :
  dict_get c channels = Some videos →
  sublist ((λ l, (c, l)) <$> videos) (pending_pairs channels).
Proof.
  induction channels as [|[c' videos'] channels IH]; simpl; [done|].
  destruct (decide (c' = c)) as [->|Hne].
  - intros [= ->]. by apply sublist_inserts_r.
  - intros H. apply sublist_inserts_l. by apply IH.
Qed.

Lemma pending_pairs_set_sublist channels c videos videos' :
  dict_get c channels = Some videos → sublist videos' videos →
  sublist (pending_pairs (dict_set c videos' channels)) (pending_pairs channels).
Proof.
  intros Hg Hs. induction channels as [|[c' vs] channels IH]; simpl in *; [done|].
  destruct (decide (c' = c)) as [->|Hne].
  - injection Hg as ->. simpl. apply sublist_app; [|done]. by apply fmap_sublist.
  - simpl. apply sublist_app; [done|]. by apply IH.
Qed.

Lemma pending_pairs_register channels c :
  sublist (pending_pairs (dict_set c [] channels)) (pending_pairs channels).
Proof.
  induction channels as [|[c' vs] channels IH]; simpl; [done|].
  destruct (decide (c' = c)) as [->|Hne]; simpl.
  - by apply sublist_inserts_l.
  - by apply sublist_app.
Qed.

Lemma pending_pairs_pop channels c :
  sublist (pending_pairs (dict_pop c channels)) (pending_pairs channels).
Proof.
  induction channels as [|[c' vs] channels IH]; simpl; [done|].
  destruct (decide (c' = c)) as [->|Hne]; simpl.
  - by apply sublist_inserts_l.
  - by apply sublist_app.
Qed.

Lemma pending_pairs_set_app channels c videos l :
  dict_get c channels = Some videos →
  pending_pairs (dict_set c (videos ++ [l]) channels) ≡ₚ pending_pairs channels ++ [(c, l)].
Proof.
  induction channels as [|[c' vs] channels IH]; simpl; [done|].
  destruct (decide (c' = c)) as [->|Hne].
  - intros [= ->]. simpl. rewrite fmap_app. simpl.
    rewrite <- !app_assoc. apply Permutation_app_head. apply Permutation_app_comm.
  - intros H. simpl. rewrite (IH H). by rewrite app_assoc.
Qed.

Lemma dict_keys_set_absent {V} k (v : V) d :
  dict_get k d = None → dict_keys (dict_set k v d) = dict_keys d ++ [k].
Proof.
  unfold dict_keys. induction d as [|[k0 v0] d IH]; simpl; [done|].
  destruct (decide (k0 = k)); [done|]. intros H. rewrite !fmap_cons. by rewrite IH.
Qed.

Lemma NoDup_dict_set {V} k (v : V) d :
  NoDup (dict_keys d) → NoDup (dict_keys (dict_set k v d)).
Proof.
  intros Hd. destruct (dict_get k d) as [v'|] eqn:Hg.
  - by rewrite (dict_keys_set_present _ _ _ _ Hg).
  - rewrite (dict_keys_set_absent _ _ _ Hg). apply NoDup_app. split_and!; [done| |].
    + intros k' Hk' ->%list_elem_of_singleton. by apply dict_get_None_keys in Hg.
    + apply NoDup_singleton.
Qed.

(** The state changes that keep [pending_wf]: the store keeps the ids of
    its objects and does not shrink, and pending videos are only taken
    away. *)
Lemma pending_wf_shrink st st' :
  (length (heap st) ≤ length (heap st'))%nat →
  (∀ l, valid_ref st l → video_id (video_at (heap st') l) = video_id (video_at (heap st) l)) →
  NoDup (dict_keys (channel_list st')) →
  sublist (pending_pairs (channel_list st')) (pending_pairs (channel_list st)) →
  pending_wf st → pending_wf st'.
Proof.
  intros Hlen Hids Hkeys Hsub (W1 & W2 & W3 & W4).
  assert (Forall (valid_ref st) (pending_pairs (channel_list st')).*2) as Hv.
  { apply Forall_forall. intros l Hl. rewrite Forall_forall in W2. apply W2.
    eapply elem_of_sublist; [exact Hl|]. by apply fmap_sublist. }
  split_and!.
  - done.
  - eapply Forall_impl; [exact Hv|]. intros l. unfold valid_ref. lia.
  - eapply sublist_NoDup; [exact W3|]. by apply fmap_sublist.
  - assert (pair_ids (heap st') (pending_pairs (channel_list st'))
            = pair_ids (heap st) (pending_pairs (channel_list st'))) as ->.
    { unfold pair_ids. apply Forall_fmap_ext_1.
      rewrite Forall_fmap in Hv. eapply Forall_impl; [exact Hv|].
      intros [c l] Hl. simpl in *. by rewrite Hids. }
    eapply sublist_NoDup; [exact W4|]. unfold pair_ids. by apply fmap_sublist.
Qed.

(** In a well-formed state the pending videos of a channel have distinct
    ids. *)
Lemma pending_wf_ids st c videos :
  pending_wf st → dict_get c (channel_list st) = Some videos →
  NoDup (ids_of (heap st) videos).
Proof.
  intros (W1 & W2 & W3 & W4) Hg.
  pose proof (pending_pairs_channel _ _ _ Hg) as Hsub.
  apply (fmap_sublist (λ cl : string * loc, (cl.1, video_id (video_at (heap st) cl.2))))
    in Hsub.
  pose proof (sublist_NoDup _ _ W4 Hsub) as Hnd.
  rewrite <- list_fmap_compose in Hnd.
  apply (NoDup_fmap_1 (λ id, (c, id))).
  unfold ids_of. by rewrite <- list_fmap_compose.
Qed.

Lemma pending_wf_valid st c videos :
  pending_wf st → dict_get c (channel_list st) = Some videos → Forall (valid_ref st) videos.
Proof.
  intros (W1 & W2 & W3 & W4) Hg. apply Forall_forall. intros l Hl.
  rewrite Forall_forall in W2. apply W2. apply list_elem_of_fmap. exists (c, l).
  split; [done|]. apply elem_of_pending_pairs. exists videos.
  split; [by apply dict_get_elem|done].
Qed.

(** What [post] can do to the state: nothing; or store one video object (the
    published video); or store the new snapshot of a broadcast, put it at
    the end of its channel's pending list, from which the prior snapshot of
    the video is gone, and arm its reminder. *)
Lemma post_cases env n reply st :
  let st' := (post env n reply st).2 in
  st' = st
  ∨ (∃ video, heap st' = heap st ++ [video] ∧ channel_list st' = channel_list st
              ∧ jobs st' = jobs st ∧ hub st' = hub st
              ∧ read_list st `prefix_of` read_list st' ∧ sent st `prefix_of` sent st')
  ∨ (∃ c videos videos' video scheduled,
       dict_get c (channel_list st) = Some videos
       ∧ ((find_video (heap st) (video_id video) videos = None ∧ videos' = videos)
          ∨ ∃ old, find_video (heap st) (video_id video) videos = Some old
                   ∧ remove_first (heap st) (video_at (heap st) old) videos = Some videos')
       ∧ heap st' = heap st ++ [video]
       ∧ channel_list st' = dict_set c (videos' ++ [length (heap st)]) (channel_list st)
       ∧ jobs st' = rearm (job_id c (video_id video))
                          (reminder_job c (length (heap st)) scheduled) (jobs st)
       ∧ read_list st' = read_list st ∧ hub st' = hub st ∧ sent st `prefix_of` sent st'
       ∧ ∃ entry rest, entries n = entry :: rest ∧ c = yt_channelid entry
                       ∧ video_id video = yt_videoid entry).
Proof.
  cbv zeta.
  destruct (deleted_entry n) eqn:Hd; [left; by rewrite post_deleted|].
  destruct (entries n) as [|entry rest] eqn:He; [left; by rewrite post_no_entries|].
  destruct (dict_get (yt_channelid entry) (channel_list st)) as [videos|] eqn:Hg;
    [|left; by rewrite (post_untracked _ _ _ _ _ _ Hd He Hg)].
  rewrite (post_tracked _ _ _ _ _ _ _ Hd He Hg).
  destruct (query_video_on _ reply) as [[[] video]|e] eqn:Hq; [|by left..].
  pose proof (query_video_on_id _ _ _ _ Hq) as Hid. simpl in Hid.
  cbv zeta. destruct (match find_video _ _ _ with Some _ => _ | None => _ end); [by left|].
  destruct (decide (type video = Some VIDEO)) as [Hv|Hv].
  - rewrite (post_dispatch_video _ _ _ _ _ Hv).
    destruct (find_video _ _ (read_list st)); [by left|]. cbv zeta.
    right. left. exists video.
    destruct (build_event _ _ _); simpl; split_and!; try done; by apply prefix_app_r.
  - destruct (decide (type video = Some BROADCAST ∧ actual_start_time video = None))
      as [[Hb Ha]|Hn].
    + destruct (scheduled_start_time video) as [scheduled|] eqn:Hs.
      * assert (∃ videos',
                  match find_video (heap st) (yt_videoid entry) videos with
                  | Some o => remove_first (heap st) (video_at (heap st) o) videos = Some videos'
                  | None => videos' = videos
                  end) as [videos' Hold].
        { destruct (find_video _ _ videos) as [o|] eqn:Hf; [|by eexists].
          apply remove_first_elem. by eapply find_video_elem. }
        rewrite (post_dispatch_schedule env _ _ video scheduled st videos videos'
                   Hb Ha Hs Hg Hold).
        rewrite send_youtube_event_eq. cbv zeta.
        right. right. exists (yt_channelid entry), videos, videos', video, scheduled.
        rewrite Hid. split; [done|]. split.
        { destruct (find_video _ _ videos) as [o|]; [right; by exists o|by left]. }
        destruct (build_event _ _ _); cbn [fst snd]; unfold scheduled_state; simpl;
          rewrite ?Hid; split_and!; try done; try (by apply prefix_app_r);
          by exists entry, rest.
      * left. unfold post_dispatch. rewrite bool_decide_eq_false_2 by done.
        rewrite !bool_decide_eq_true_2 by done. by rewrite Hs.
    + left. unfold post_dispatch. rewrite bool_decide_eq_false_2 by done.
      assert (bool_decide (type video = Some BROADCAST)
              && bool_decide (actual_start_time video = None) = false) as ->; [|done].
      apply andb_false_iff.
      destruct (decide (type video = Some BROADCAST)) as [Hb|Hb].
      * right. apply bool_decide_eq_false_2. naive_solver.
      * left. by apply bool_decide_eq_false_2.
Qed.

Lemma NoDup_fmap_elem {A B} (f : A → B) (xs : list A) x y :
  NoDup (f <$> xs) → x ∈ xs → y ∈ xs → f x = f y → x = y.
Proof.
  induction xs as [|a xs IH]; [by intros _ ?%elem_of_nil|].
  rewrite fmap_cons, NoDup_cons.
  intros [Hn Hd] [-> | Hx]%elem_of_cons [-> | Hy]%elem_of_cons Hf; try done.
  - destruct Hn. rewrite Hf. apply list_elem_of_fmap. by exists y.
  - destruct Hn. rewrite <- Hf. apply list_elem_of_fmap. by exists x.
  - by apply IH.
Qed.

Lemma pending_wf_frame st st' :
  heap st' = heap st → channel_list st' = channel_list st → pending_wf st → pending_wf st'.
Proof.
  intros Hh Hc H. unfold pending_wf, valid_ref in *. by rewrite Hh, Hc.
Qed.

Lemma pw_frame {A} (m : M A) :
  (∀ st, heap (m st).2 = heap st ∧ channel_list (m st).2 = channel_list st) →
  preserves pending_wf m.
Proof.
  intros Hm st H. destruct (Hm st) as (Hh & Hc).
  pose proof (pending_wf_frame st _ Hh Hc H) as H'.
  by destruct (m st) as [[a|e] st'].
Qed.

Lemma pw_query_video l r : preserves pending_wf (query_video l r).
Proof.
  intros st H.
  destruct (query_video_frame l r st) as (Q1 & Q2 & Q3 & Q4 & Q5 & Q6 & Q7 & Q8 & Q9 & Q10).
  assert (pending_wf (query_video l r st).2) as H'.
  { apply (pending_wf_shrink st); [lia| |rewrite Q1; apply H|by rewrite Q1|done].
    intros l' _. destruct (decide (l' = l)) as [->|Hne]; [done|]. by rewrite Q7. }
  by destruct (query_video l r st) as [[ok|e] st'].
Qed.

Lemma pw_send env ev : preserves pending_wf (send_youtube_event env ev).
Proof.
  apply pw_frame. intros st. rewrite send_youtube_event_eq. cbv zeta.
  by destruct (build_event _ _ _).
Qed.

Lemma pw_channel_remove c l : preserves pending_wf (channel_remove c l).
Proof.
  intros st H. unfold channel_remove.
  destruct (dict_get c (channel_list st)) as [videos|] eqn:Hg; [|done].
  destruct (remove_first _ _ videos) as [videos'|] eqn:Hr; [|done].
  apply (pending_wf_shrink st); simpl; [done|done| | |done].
  - apply NoDup_dict_set, H.
  - apply (pending_pairs_set_sublist _ _ videos); [done|]. by eapply remove_first_is_sublist.
Qed.

Lemma pw_remove_job id : preserves pending_wf (remove_job id).
Proof. apply pw_frame. intros st. unfold remove_job. by destruct (dict_get _ _). Qed.

Lemma pw_hub c r : preserves pending_wf (_subscribe c r).
Proof. by apply pw_frame. Qed.

Lemma pw_register c :
  preserves pending_wf (modify (λ st, set_channel_list (dict_set c [] (channel_list st)) st)).
Proof.
  intros st H. apply (pending_wf_shrink st); simpl; [done|done| | |done].
  - apply NoDup_dict_set, H.
  - apply pending_pairs_register.
Qed.

Lemma pw_pop c :
  preserves pending_wf (modify (λ st, set_channel_list (dict_pop c (channel_list st)) st)).
Proof.
  intros st H. apply (pending_wf_shrink st); simpl; [done|done| | |done].
  - apply NoDup_dict_pop, H.
  - apply pending_pairs_pop.
Qed.

#[local] Hint Resolve pw_query_video pw_send pw_channel_remove pw_remove_job pw_hub
  pw_register pw_pop : pres.

Lemma pw_tick env obs : preserves pending_wf (tick env obs).
Proof. unfold tick, tick_scan, tick_video, seconds_between. pres. Qed.

Lemma pw_subscribe c : preserves pending_wf (subscribe c).
Proof. unfold subscribe. pres. Qed.

Lemma pw_unsubscribe c pop : preserves pending_wf (unsubscribe c pop).
Proof. unfold unsubscribe. pres. Qed.

Lemma pw_renewal : preserves pending_wf renewal.
Proof. unfold renewal. pres. Qed.

Lemma pw_get mode challenge c : preserves pending_wf (get mode challenge c).
Proof. unfold get. pres. Qed.

Lemma pw_dump_state : preserves pending_wf dump_state.
Proof. unfold dump_state. pres. Qed.

Lemma pw_fire_job env id : preserves pending_wf (fire_job env id).
Proof.
  intros st H. unfold fire_job. destruct (dict_get id (jobs st)) as [j|] eqn:Hg; [|done].
  simpl. apply preserves_snd; [apply pw_send|]. by apply (pending_wf_frame st).
Qed.

Lemma remove_first_ids h x videos videos' :
  remove_first h x videos = Some videos' → NoDup (ids_of h videos) →
  video_id x ∉ ids_of h videos'.
Proof.
  intros (before & l & after & -> & -> & Hx & _)%remove_first_split.
  unfold ids_of. rewrite !fmap_app, fmap_cons. rewrite Hx.
  intros Hnd Hin. apply NoDup_app in Hnd as (_ & Hcross & Hnd).
  apply NoDup_cons in Hnd as [Hn _].
  apply elem_of_app in Hin as [Hin|Hin]; [|done].
  apply (Hcross _ Hin). by left.
Qed.

Lemma pw_post env n reply st : pending_wf st → pending_wf (post env n reply st).2.
Proof.
  intros H. pose proof (post_cases env n reply st) as Hcases. cbv zeta in Hcases.
  set (st' := (post env n reply st).2) in *. clearbody st'.
  destruct Hcases
    as [->|[(video & Hh & Hc & _)|(c & videos & videos' & video & scheduled
                                     & Hg & Hold & Hh & Hc & _)]]; [done| |].
  - apply (pending_wf_shrink st); [rewrite Hh, length_app; lia| |by rewrite Hc; apply H
                                   |by rewrite Hc|done].
    intros l Hl. rewrite Hh. by rewrite video_at_app.
  - pose proof (pending_wf_ids _ _ _ H Hg) as Hids.
    assert (sublist videos' videos ∧ video_id video ∉ ids_of (heap st) videos')
      as [Hsub Hfresh].
    { destruct Hold as [[Hf ->]|(old & Hf & Hr)].
      - split; [done|]. by apply find_video_None.
      - split; [by eapply remove_first_is_sublist|].
        rewrite <- (find_video_id _ _ _ _ Hf). by eapply remove_first_ids. }
    (* the state with the prior snapshot taken out *)
    set (st1 := set_channel_list (dict_set c videos' (channel_list st)) st).
    assert (pending_wf st1) as (W1 & W2 & W3 & W4).
    { apply (pending_wf_shrink st); simpl; [done|done| | |done].
      - apply NoDup_dict_set, H.
      - by apply (pending_pairs_set_sublist _ _ videos). }
    assert (dict_get c (channel_list st1) = Some videos') as Hg1
      by (simpl; apply dict_get_set_eq).
    pose proof (pending_pairs_set_app _ _ _ (length (heap st)) Hg1) as Hperm.
    simpl in Hperm. rewrite dict_set_set in Hperm. rewrite <- Hc in Hperm.
    simpl in W1, W2, W3, W4.
    assert (∀ l, valid_ref st l → video_at (heap st') l = video_at (heap st) l) as Hsame.
    { intros l Hl. rewrite Hh. by apply video_at_app. }
    split_and!.
    + rewrite Hc. apply NoDup_dict_set, H.
    + rewrite Hperm, fmap_app, Forall_app. split.
      * eapply Forall_impl; [exact W2|]. intros l. unfold valid_ref.
        rewrite Hh, length_app. simpl. lia.
      * constructor; [|done]. unfold valid_ref. rewrite Hh, length_app. simpl. lia.
    + rewrite Hperm, fmap_app. apply NoDup_app. split_and!; [done| |apply NoDup_singleton].
      intros l Hl ->%list_elem_of_singleton. rewrite Forall_forall in W2.
      specialize (W2 _ Hl). unfold valid_ref in W2. simpl in W2. lia.
    + unfold pair_ids. rewrite Hperm, fmap_app. apply NoDup_app. split_and!.
      * assert ((λ cl : string * loc, (cl.1, video_id (video_at (heap st') cl.2)))
                  <$> pending_pairs (dict_set c videos' (channel_list st))
                = pair_ids (heap st) (pending_pairs (dict_set c videos' (channel_list st))))
          as ->; [|done].
        unfold pair_ids. apply Forall_fmap_ext_1. rewrite Forall_fmap in W2.
        eapply Forall_impl; [exact W2|]. intros [c' l] Hl. simpl in *. by rewrite Hsame.
      * intros [c' id] Hin Hnew. simpl in Hnew. apply list_elem_of_singleton in Hnew.
        injection Hnew as -> ->.
        apply list_elem_of_fmap in Hin as ([c' l] & [= -> Hid] & Hin). simpl in *.
        assert (l ∈ videos') as Hl.
        { apply elem_of_pending_pairs in Hin as (vs & Hvs & Hl).
          apply (dict_get_NoDup _ _ _ W1) in Hvs. rewrite dict_get_set_eq in Hvs.
          by injection Hvs as <-. }
        apply Hfresh. unfold ids_of. apply list_elem_of_fmap. exists l. split; [|done].
        rewrite Hh, video_at_alloc in Hid. rewrite Hid.
        rewrite video_at_app; [done|]. rewrite Forall_forall in W2. apply (W2 l).
        apply list_elem_of_fmap. by exists (c', l).
      * apply NoDup_singleton.
Qed.

Lemma pending_wf_step op st : is_load op = false → pending_wf st → pending_wf (step op st).
Proof.
  intros Hop H. destruct op; simpl; try done.
  - apply preserves_snd; [apply pw_subscribe|done].
  - apply preserves_snd; [apply pw_unsubscribe|done].
  - apply preserves_snd; [apply pw_renewal|done].
  - apply preserves_snd; [apply pw_get|done].
  - by apply pw_post.
  - apply preserves_snd; [apply pw_tick|done].
  - apply preserves_snd; [apply pw_fire_job|done].
  - apply preserves_snd; [apply pw_dump_state|done].
Qed.

Lemma pending_wf_run ops st :
  Forall (λ op, is_load op = false) ops → pending_wf st → pending_wf (run ops st).
Proof.
  intros Hops. revert st. induction Hops as [|op ops Hop Hops IH]; intros st H; [done|].
  simpl. by apply IH, pending_wf_step.
Qed.

Lemma pending_wf_initial : pending_wf initial_state.
Proof. split_and!; constructor. Qed.



(** ** A tick that returns removes what it found started *)

Lemma fold_m_app {A B} (body : B → A → M B) xs ys acc st :
  fold_m body (xs ++ ys) acc st
  = match fold_m body xs acc st with
    | (Ok acc', st') => fold_m body ys acc' st'
    | (Raise e, st') => (Raise e, st')
    end.
Proof.
  revert acc st. induction xs as [|x xs IH]; intros acc st; [done|].
  cbn [app fold_m]. rewrite !bind_unfold.
  destruct (body acc x st) as [[acc'|e] st']; [|done]. apply IH.
Qed.

(** The scan of [tick] visits the pending videos one after the other. *)
Lemma tick_scan_pairs env obs channels rl st :
  fold_m (fun remove_list '(channel_id, videos) =>
            fold_m (tick_video env obs channel_id) videos remove_list)
         channels rl st
  = fold_m (λ remove_list cl, tick_video env obs cl.1 remove_list cl.2)
           (pending_pairs channels) rl st.
Proof.
  revert rl st. induction channels as [|[c videos] channels IH]; intros rl st; [done|].
  cbn [fold_m pending_pairs]. rewrite bind_unfold, fold_m_app.
  assert (∀ rl st, fold_m (tick_video env obs c) videos rl st
                   = fold_m (λ remove_list cl, tick_video env obs cl.1 remove_list cl.2)
                            ((λ l, (c, l)) <$> videos) rl st) as ->.
  { clear. induction videos as [|l videos IH]; intros rl st; [done|].
    cbn [fold_m fmap list_fmap]. rewrite !bind_unfold. cbn [fst snd].
    destruct (tick_video env obs c rl l st) as [[rl'|e] st']; [|done]. apply IH. }
  destruct (fold_m _ (_ <$> videos) rl st) as [[rl'|e] st']; [|done]. apply IH.
Qed.

Lemma query_video_on_false v r v' : query_video_on v r = Ok (false, v') → v' = v.
Proof. destruct r; simpl; intros H; try discriminate; by injection H as <-. Qed.

(** One step of the scan, for a video that has not started before. *)
Lemma tick_video_step env obs c rl l s rl' s' :
  tick_video env obs c rl l s = (Ok rl', s') →
  valid_ref s l → actual_start_time (video_at (heap s) l) = None →
  channel_list s' = channel_list s
  ∧ length (heap s') = length (heap s)
  ∧ (∀ l', l' ≠ l → video_at (heap s') l' = video_at (heap s) l')
  ∧ video_id (video_at (heap s') l) = video_id (video_at (heap s) l)
  ∧ (rl' = rl ∨ rl' = rl ++ [(c, l)])
  ∧ (actual_start_time (video_at (heap s') l) ≠ None → rl' = rl ++ [(c, l)])
  ∧ (sent s' = sent s
     ∨ ∃ x, sent s' = sent s ++ [x] ∧ s_event x = LIVE ∧ s_channel x = c
            ∧ video_id (s_video x) = video_id (video_at (heap s) l)
            ∧ rl' = rl ++ [(c, l)]).
Proof.
  intros H Hvalid Hact. unfold tick_video in H. rewrite bind_unfold in H.
  unfold deref at 1 in H. cbn beta iota in H.
  destruct (scheduled_start_time (video_at (heap s) l)) as [scheduled|] eqn:Hs.
  2:{ injection H as <- <-. split_and!; try done; [by right|by left]. }
  rewrite bind_unfold in H. unfold seconds_between at 1 in H.
  destruct (bool_decide (aware _ = aware scheduled)); [|done].
  unfold mret at 1, M_ret at 1, ret at 1 in H. cbn beta iota in H.
  destruct (bool_decide (_ > -600)).
  2:{ injection H as <- <-. split_and!; try done; [by left|by left]. }
  rewrite bind_unfold, query_video_eq in H.
  destruct (query_video_on _ _) as [[ok v]|e] eqn:Hq; [|done].
  pose proof (query_video_on_id _ _ _ _ Hq) as Hid.
  set (s1 := set_heap (<[l:=v]> (heap s)) s) in *.
  assert (video_at (heap s1) l = v) as Hv by (by apply video_at_insert).
  assert (∀ l', l' ≠ l → video_at (heap s1) l' = video_at (heap s) l') as Hother
    by (intros l' Hne; by apply insert_video_at_other).
  assert (length (heap s1) = length (heap s)) as Hlen by (simpl; by rewrite length_insert).
  rewrite bind_unfold in H. unfold deref at 1 in H. cbn beta iota zeta in H.
  rewrite Hv in H.
  destruct ok.
  - (* the API has the video *)
    cbn [negb] in H.
    destruct (actual_start_time v) as [actual|] eqn:Ha.
    + rewrite bind_unfold in H. unfold seconds_between at 1 in H.
      destruct (bool_decide (aware _ = aware actual)); [|done].
      unfold mret at 1, M_ret at 1, ret at 1 in H. cbn beta iota in H.
      destruct (bool_decide (_ < 10800)).
      * rewrite !bind_unfold, new_YoutubeEvent_eq in H.
        destruct (_ && _); [done|]. rewrite send_youtube_event_eq in H. cbv zeta in H.
        cbn [ev_video] in H. rewrite Hv in H.
        destruct (build_event _ _ _) as [event|e]; [|done].
        injection H as <- <-. cbn [heap channel_list sent set_sent]. rewrite Hv.
        split_and!; try done; [by right|].
        right. eexists. split; [done|]. by split_and!.
      * rewrite bind_unfold in H. injection H as <- <-. rewrite Hv.
        split_and!; try done; [by right|by left].
    + injection H as <- <-. rewrite Hv.
      split_and!; try done; [by left|by left].
  - (* the API has nothing for the video *)
    cbn [negb] in H. apply query_video_on_false in Hq. subst v. rewrite Hact in H.
    injection H as <- <-. rewrite Hv.
    split_and!; try done; [by right|by left].
Qed.

Lemma live_sent_snoc c v ss x :
  live_sent c v (ss ++ [x])
  = live_sent c v ss
    ++ (if decide (s_event x = LIVE ∧ s_channel x = c ∧ video_id (s_video x) = v)
        then [x] else []).
Proof. unfold live_sent. by rewrite filter_app. Qed.

Lemma scan_steps env obs st todo visited rl s rl' s' :
  NoDup (visited ++ todo).*2 →
  NoDup (pair_ids (heap st) (visited ++ todo)) →
  Forall (λ cl, valid_ref st cl.2 ∧ actual_start_time (video_at (heap st) cl.2) = None) todo →
  scan_inv st visited rl s →
  fold_m (λ remove_list cl, tick_video env obs cl.1 remove_list cl.2) todo rl s = (Ok rl', s') →
  scan_inv st (visited ++ todo) rl' s'.
Proof.
  revert visited rl s. induction todo as [|[c l] todo IH]; intros visited rl s Hnd Hids Htodo Hinv H.
  - simpl in H. injection H as <- <-. by rewrite app_nil_r.
  - cbn [fold_m] in H. rewrite bind_unfold in H. cbn [fst snd] in H.
    destruct (tick_video env obs c rl l s) as [[rl1|e] s1] eqn:Hstep; [|done].
    apply Forall_cons in Htodo as [[Hvalid Hact] Htodo]. simpl in Hvalid, Hact.
    destruct Hinv as (I1 & I2 & I3 & I4 & I5 & I6 & new & I7 & I8).
    assert (l ∉ visited.*2) as Hfresh.
    { rewrite fmap_app in Hnd. apply NoDup_app in Hnd as (_ & Hcross & _).
      intros Hin. apply (Hcross _ Hin). rewrite fmap_cons. by left. }
    assert ((c, l) ∉ visited) as Hfresh'.
    { intros Hin. apply Hfresh. apply list_elem_of_fmap. by exists (c, l). }
    destruct (tick_video_step _ _ _ _ _ _ _ _ Hstep)
      as (T1 & T2 & T3 & T4 & T5 & T6 & T7).
    { unfold valid_ref in *. by rewrite I2. }
    { by rewrite (I3 l Hfresh). }
    replace (visited ++ (c, l) :: todo) with ((visited ++ [(c, l)]) ++ todo) in *
      by (by rewrite <- app_assoc).
    apply (IH (visited ++ [(c, l)]) rl1 s1); [done|done|done| |done].
    assert (sublist rl1 (visited ++ [(c, l)])) as Hsub.
    { destruct T5 as [-> | ->]; [by apply sublist_inserts_r|by apply sublist_app]. }
    split_and!.
    + by rewrite T1.
    + by rewrite T2.
    + intros l'. rewrite fmap_app, not_elem_of_app. simpl.
      rewrite list_elem_of_singleton. intros [Hv Hne]. rewrite T3 by done. by apply I3.
    + intros l'. destruct (decide (l' = l)) as [->|Hne].
      * by rewrite T4.
      * by rewrite T3.
    + done.
    + intros [c' l'] [Hin|Hin]%elem_of_app Ha; simpl in *.
      * assert (l' ≠ l) as Hne.
        { intros ->. apply Hfresh. apply list_elem_of_fmap. by exists (c', l). }
        rewrite T3 in Ha by done. specialize (I6 _ Hin Ha).
        destruct T5 as [-> | ->]; [done|]. apply elem_of_app. by left.
      * apply list_elem_of_singleton in Hin. injection Hin as -> ->.
        rewrite (T6 Ha). apply elem_of_app. right. by left.
    + destruct T7 as [Hs|(x & Hs & Hx1 & Hx2 & Hx3 & ->)].
      * exists new. split; [by rewrite Hs|]. intros c' v. destruct (I8 c' v) as [J1 J2].
        split; [done|]. intros Hne. destruct (J2 Hne) as (l0 & Hl0 & Hv). exists l0.
        split; [|done]. destruct T5 as [-> | ->]; [done|]. apply elem_of_app. by left.
      * exists (new ++ [x]). split; [by rewrite Hs, I7, app_assoc|].
        intros c' v. rewrite live_sent_snoc. destruct (I8 c' v) as [J1 J2].
        destruct (decide _) as [(_ & Hc & Hv)|Hno].
        -- rewrite Hx2 in Hc. subst c' v. rewrite I4 in Hx3.
           assert (live_sent c (video_id (s_video x)) new = []) as Hnone.
           { destruct (live_sent c (video_id (s_video x)) new) as [|y ys] eqn:Hl; [done|].
             destruct J2 as (l0 & Hl0 & Hv0); [done|]. exfalso.
             assert ((c, l0) ∈ visited) as Hin0 by (by eapply elem_of_sublist).
             assert ((c, l0) = (c, l)) as [= ->]; [|done].
             apply (NoDup_fmap_elem _ _ _ _ Hids).
             - rewrite <- app_assoc. apply elem_of_app. by left.
             - rewrite <- app_assoc. apply elem_of_app. right. by left.
             - simpl. by rewrite Hv0, Hx3. }
           rewrite Hnone. simpl. split; [lia|]. intros _. exists l.
           split; [apply elem_of_app; right; by left|done].
        -- rewrite app_nil_r. split; [done|]. intros Hne.
           destruct (J2 Hne) as (l0 & Hl0 & Hv0). exists l0. split; [|done].
           apply elem_of_app. by left.
Qed.

Lemma channel_remove_step c l s s' :
  pending_wf s → channel_remove c l s = (Ok tt, s') →
  heap s' = heap s ∧ sent s' = sent s
  ∧ sublist (pending_pairs (channel_list s')) (pending_pairs (channel_list s))
  ∧ ((c, l) ∉ pending_pairs (channel_list s'))
  ∧ pending_wf s'.
Proof.
  intros Hwf H. pose proof (pw_channel_remove c l s Hwf) as Hwf'. rewrite H in Hwf'.
  unfold channel_remove in H.
  destruct (dict_get c (channel_list s)) as [videos|] eqn:Hg; [|done].
  destruct (remove_first _ _ videos) as [videos'|] eqn:Hr; [|done].
  injection H as <-. simpl. split_and!; [done|done| | |done].
  - apply (pending_pairs_set_sublist _ _ videos); [done|]. by eapply remove_first_is_sublist.
  - intros Hin. apply elem_of_pending_pairs in Hin as (vs & Hvs & Hl).
    destruct Hwf' as (W1 & _). simpl in W1.
    apply (dict_get_NoDup _ _ _ W1) in Hvs. rewrite dict_get_set_eq in Hvs.
    injection Hvs as <-.
    pose proof (pending_wf_ids _ _ _ Hwf Hg) as Hids.
    apply remove_first_split in Hr as (before & l0 & after & -> & -> & Hx & _).
    assert (l = l0) as ->.
    { apply (NoDup_fmap_elem (λ l, video_id (video_at (heap s) l)) (before ++ l0 :: after)).
      - done.
      - apply elem_of_app in Hl as [?|?]; apply elem_of_app; [by left|right; by right].
      - apply elem_of_app. right. by left.
      - by rewrite Hx. }
    apply NoDup_fmap_1 in Hids. apply NoDup_app in Hids as (_ & Hcross & Hnd).
    apply NoDup_cons in Hnd as [Hn _].
    apply elem_of_app in Hl as [Hl|Hl]; [|done]. apply (Hcross _ Hl). by left.
Qed.

Lemma removal_loop rl s s' :
  pending_wf s →
  for_each (fun '(channel_id, video) => channel_remove channel_id video) rl s = (Ok tt, s') →
  heap s' = heap s ∧ sent s' = sent s
  ∧ sublist (pending_pairs (channel_list s')) (pending_pairs (channel_list s))
  ∧ (∀ cl, cl ∈ rl → cl ∉ pending_pairs (channel_list s'))
  ∧ pending_wf s'.
Proof.
  revert s. induction rl as [|[c l] rl IH]; intros s Hwf H.
  - simpl in H. injection H as <-. split_and!; try done. by intros cl ?%elem_of_nil.
  - rewrite for_each_cons in H.
    destruct (channel_remove c l s) as [[[]|e] s1] eqn:Hstep; [|done].
    destruct (channel_remove_step _ _ _ _ Hwf Hstep) as (R1 & R2 & R3 & R4 & R5).
    destruct (IH _ R5 H) as (L1 & L2 & L3 & L4 & L5).
    split_and!; [congruence|congruence|by etrans| |done].
    intros cl [-> | Hin]%elem_of_cons; [|by apply L4].
    intros Hin. apply R4. by eapply elem_of_sublist.
Qed.

(** X22. A tick that returns, started in a well-formed state in which no
    pending video has an actual start, ends in such a state again: every
    video that the tick found started has been removed from its pending
    list.  In this tick at most one [LIVE] event is sent for a channel and a
    video id, and only for a video that was pending at the start and is no
    longer pending at the end. *)
Theorem tick_removes_started env obs st st' :
  pending_wf st → pending_unstarted st →
  tick env obs st = (Ok tt, st') →
  pending_unstarted st' ∧ pending_wf st'
  ∧ (∀ c v, (length (live_sent c v (sent st')) ≤ length (live_sent c v (sent st)) + 1)%nat)
  ∧ (∀ c v, length (live_sent c v (sent st')) ≠ length (live_sent c v (sent st)) →
            v ∈ ids_of (heap st) (pending st c) ∧ v ∉ ids_of (heap st') (pending st' c)).
Proof.
  intros Hwf Hun H. unfold tick in H. rewrite bind_unfold in H.
  unfold get_state at 1 in H. cbn beta iota in H. rewrite bind_unfold in H.
  unfold tick_scan in H. rewrite tick_scan_pairs in H.
  destruct (fold_m _ (pending_pairs (channel_list st)) [] st) as [[rl|e] s1] eqn:Hscan; [|done].
  pose proof Hwf as (W1 & W2 & W3 & W4).
  assert (scan_inv st (pending_pairs (channel_list st)) rl s1)
    as (I1 & I2 & I3 & I4 & I5 & I6 & new & I7 & I8).
  { apply (scan_steps env obs st (pending_pairs (channel_list st)) [] [] st); try done.
    - unfold pending_unstarted in Hun. rewrite Forall_fmap in W2.
      rewrite Forall_forall in *. intros cl Hcl. split; [by apply (W2 cl)|by apply Hun].
    - split_and!; try done. exists []. split; [by rewrite app_nil_r|].
      intros c v. split; [simpl; lia|done]. }
  assert (pending_wf s1) as Hwf1.
  { apply (pending_wf_shrink st); [lia|by intros l _|by rewrite I1|by rewrite I1|done]. }
  destruct (removal_loop _ _ _ Hwf1 H) as (L1 & L2 & L3 & L4 & L5).
  rewrite I1 in L3.
  assert (∀ c l, (c, l) ∈ pending_pairs (channel_list st') →
                 (c, l) ∈ pending_pairs (channel_list st) ∧ (c, l) ∉ rl) as Hleft.
  { intros c l Hin. split; [by eapply elem_of_sublist|]. intros Hrl. by apply (L4 _ Hrl). }
  split_and!.
  - apply Forall_forall. intros [c l] Hin. simpl. rewrite L1.
    destruct (Hleft _ _ Hin) as [Hin0 Hnot].
    destruct (actual_start_time (video_at (heap s1) l)) as [a|] eqn:Ha; [|done].
    destruct Hnot. apply (I6 (c, l) Hin0). simpl. by rewrite Ha.
  - done.
  - intros c v. rewrite L2, I7. unfold live_sent. rewrite filter_app, length_app.
    destruct (I8 c v) as [J1 _]. unfold live_sent in J1. lia.
  - intros c v Hne. rewrite L2, I7 in Hne. unfold live_sent in Hne.
    rewrite filter_app, length_app in Hne.
    destruct (I8 c v) as [_ J2].
    destruct J2 as (l & Hl & Hv).
    { intros Hnil. unfold live_sent in Hnil. rewrite Hnil in Hne. simpl in Hne. lia. }
    assert ((c, l) ∈ pending_pairs (channel_list st)) as Hin by (by eapply elem_of_sublist).
    split.
    + unfold ids_of. apply list_elem_of_fmap. exists l. split; [done|].
      by apply (pending_pairs_elem st c l W1).
    + unfold ids_of. intros (l2 & Hv2 & Hl2)%list_elem_of_fmap.
      destruct L5 as (V1 & _).
      apply (pending_pairs_elem st' c l2 V1) in Hl2.
      destruct (Hleft _ _ Hl2) as [Hin2 Hnot].
      assert ((c, l2) = (c, l)) as [= ->]; [|done].
      apply (NoDup_fmap_elem _ _ _ _ W4 Hin2 Hin). simpl.
      by rewrite Hv, Hv2, L1, I4.
Qed.

Lemma tick_removes_started_witness :
  pending_unstarted (tick demo_env demo_obs_live demo_two_pending).2.
Proof.
  refine (proj1 (tick_removes_started demo_env demo_obs_live demo_two_pending _ _ _ _)).
  - apply (pending_wf_run
             [OpSubscribe "c1";
              OpPost demo_env (demo_note "v1" "c1") (broadcast_reply 1000 None);
              OpPost demo_env (demo_note "v2" "c1") (broadcast_reply 1000 None)]);
      [repeat constructor|apply pending_wf_initial].
  - unfold pending_unstarted. vm_compute. repeat constructor.
  - by vm_compute.
Defined.

(** ** What [unsubscribe] leaves alone *)

Lemma cancel_jobs_other ids id js :
  id ∉ ids → dict_get id (cancel_jobs ids js) = dict_get id js.
Proof.
  revert js. unfold cancel_jobs. induction ids as [|i ids IH]; intros js Hn; simpl; [done|].
  apply not_elem_of_cons in Hn as [Hne Hn]. rewrite IH by done. by apply dict_get_pop_ne.
Qed.

Lemma dict_pop_sublist {V} k (d : list (string * V)) : sublist (dict_pop k d) d.
Proof.
  induction d as [|[k' v'] d IH]; simpl; [done|].
  destruct (decide (k' = k)); [by apply sublist_cons|by apply sublist_skip].
Qed.

Lemma cancel_jobs_sublist ids js : sublist (cancel_jobs ids js) js.
Proof.
  revert js. unfold cancel_jobs. induction ids as [|i ids IH]; intros js; simpl; [done|].
  etrans; [apply IH|]. apply dict_pop_sublist.
Qed.

(** X23. Whether [unsubscribe] returns or raises, it touches no video, no
    entry of the dedup list, no sent event and no other channel's pending
    list; without [pop] it leaves [channel_list] as it is.  Of the jobs it
    takes away exactly those under the keys of the channel's pending videos:
    every other job stays, and the jobs that stay keep their order. *)
Theorem unsubscribe_leaves_others c pop st :
  let st' := (unsubscribe c pop st).2 in
  heap st' = heap st ∧ read_list st' = read_list st ∧ sent st' = sent st
  ∧ (∀ c', c' ≠ c → dict_get c' (channel_list st') = dict_get c' (channel_list st))
  ∧ (pop = false → channel_list st' = channel_list st)
  ∧ (∀ id, dict_get id (jobs st')
           = if decide (id ∈ job_ids (heap st) c (pending st c)) then None
             else dict_get id (jobs st))
  ∧ sublist (jobs st') (jobs st).
Proof.
  cbv zeta. unfold pending.
  destruct (dict_get c (channel_list st)) as [videos|] eqn:Hg.
  - rewrite (unsubscribe_tracked _ _ _ _ Hg). simpl. split_and!; try done.
    + intros c' Hne. destruct pop; [by apply dict_get_pop_ne|done].
    + by intros ->.
    + intros id. destruct (decide _) as [Hin|Hn].
      * by apply cancel_jobs_elem.
      * by apply cancel_jobs_other.
    + apply cancel_jobs_sublist.
  - rewrite (unsubscribe_untracked _ _ _ Hg). simpl. by split_and!.
Qed.

(** ** The keys of the jobs in the store *)

Lemma job_keyed_mono st st' :
  (length (heap st) ≤ length (heap st'))%nat →
  (∀ l, valid_ref st l → video_id (video_at (heap st') l) = video_id (video_at (heap st) l)) →
  sublist (jobs st') (jobs st) →
  job_keyed st → job_keyed st'.
Proof.
  intros Hlen Hids Hsub H. unfold job_keyed in *. apply Forall_forall.
  intros [id j] Hin. rewrite Forall_forall in H.
  destruct (H (id, j)) as (H1 & H2 & H3); [by eapply elem_of_sublist|]. simpl in *.
  split_and!; [unfold valid_ref in *; lia|done|by rewrite Hids].
Qed.

Lemma jk_frame {A} (m : M A) :
  (∀ st, heap (m st).2 = heap st ∧ jobs (m st).2 = jobs st) → preserves job_keyed m.
Proof.
  intros Hm st H. destruct (Hm st) as (Hh & Hj).
  assert (job_keyed (m st).2) as H'.
  { apply (job_keyed_mono st); [by rewrite Hh|by rewrite Hh|by rewrite Hj|done]. }
  by destruct (m st) as [[a|e] st'].
Qed.

Lemma jk_alloc v : preserves job_keyed (alloc v).
Proof.
  intros st H. unfold alloc. apply (job_keyed_mono st); simpl; [| |done..].
  - rewrite length_app. lia.
  - intros l Hl. by rewrite video_at_app.
Qed.

Lemma jk_query_video l r : preserves job_keyed (query_video l r).
Proof.
  intros st H.
  destruct (query_video_frame l r st) as (Q1 & Q2 & Q3 & Q4 & Q5 & Q6 & Q7 & Q8 & Q9 & Q10).
  assert (job_keyed (query_video l r st).2) as H'.
  { apply (job_keyed_mono st); [lia| |by rewrite Q3|done].
    intros l' _. destruct (decide (l' = l)) as [->|Hne]; [done|]. by rewrite Q7. }
  by destruct (query_video l r st) as [[ok|e] st'].
Qed.

Lemma jk_send env ev : preserves job_keyed (send_youtube_event env ev).
Proof.
  apply jk_frame. intros st. rewrite send_youtube_event_eq. cbv zeta.
  by destruct (build_event _ _ _).
Qed.

Lemma jk_channel_append c l : preserves job_keyed (channel_append c l).
Proof. apply jk_frame. intros st. unfold channel_append. by destruct (dict_get _ _). Qed.

Lemma jk_channel_remove c l : preserves job_keyed (channel_remove c l).
Proof.
  apply jk_frame. intros st. unfold channel_remove.
  destruct (dict_get _ _); [|done]. by destruct (remove_first _ _ _).
Qed.

Lemma jk_remove_job id : preserves job_keyed (remove_job id).
Proof.
  intros st H. unfold remove_job. destruct (dict_get id (jobs st)); [|done].
  apply (job_keyed_mono st); simpl; [done|done|apply dict_pop_sublist|done].
Qed.

Lemma jk_hub c r : preserves job_keyed (_subscribe c r).
Proof. by apply jk_frame. Qed.

Lemma jk_register c :
  preserves job_keyed (modify (λ st, set_channel_list (dict_set c [] (channel_list st)) st)).
Proof. by apply jk_frame. Qed.

Lemma jk_pop c :
  preserves job_keyed (modify (λ st, set_channel_list (dict_pop c (channel_list st)) st)).
Proof. by apply jk_frame. Qed.

Lemma jk_read_set rl : preserves job_keyed (modify (set_read_list rl)).
Proof. by apply jk_frame. Qed.

#[local] Hint Resolve jk_alloc jk_query_video jk_send jk_channel_append jk_channel_remove
  jk_remove_job jk_hub jk_register jk_pop jk_read_set : pres.

Lemma jk_alloc_all vs : preserves job_keyed (alloc_all vs).
Proof. induction vs; simpl; pres. Qed.
#[local] Hint Resolve jk_alloc_all : pres.

Lemma jk_tick env obs : preserves job_keyed (tick env obs).
Proof. unfold tick, tick_scan, tick_video, seconds_between. pres. Qed.

Lemma jk_subscribe c : preserves job_keyed (subscribe c).
Proof. unfold subscribe. pres. Qed.

Lemma jk_unsubscribe c pop : preserves job_keyed (unsubscribe c pop).
Proof. unfold unsubscribe. pres. Qed.

Lemma jk_renewal : preserves job_keyed renewal.
Proof. unfold renewal. pres. Qed.

Lemma jk_get mode challenge c : preserves job_keyed (get mode challenge c).
Proof. unfold get. pres. Qed.

Lemma jk_dump_state : preserves job_keyed dump_state.
Proof. unfold dump_state. pres. Qed.

Lemma jk_fire_job env id : preserves job_keyed (fire_job env id).
Proof.
  intros st H. unfold fire_job. destruct (dict_get id (jobs st)) as [j|] eqn:Hg; [|done].
  simpl. apply preserves_snd; [apply jk_send|].
  pose proof (jk_remove_job id st H) as Hr. unfold remove_job in Hr. by rewrite Hg in Hr.
Qed.

Lemma job_keyed_ext st st' :
  heap st' = heap st → jobs st' = jobs st → job_keyed st → job_keyed st'.
Proof. intros Hh Hj H. unfold job_keyed, valid_ref in *. by rewrite Hh, Hj. Qed.

Lemma job_keyed_armed st v t c l scheduled js :
  job_keyed st → l = length (heap st) → sublist js (jobs st) →
  job_keyed (set_jobs (js ++ [(job_id c (video_id v),
                               {| job_event := {| ev_type := t; ev_event := REMINDER;
                                                  ev_channel := c; ev_video := l |};
                                  job_run_at := scheduled |})])
                      (set_heap (heap st ++ [v]) st)).
Proof.
  intros H -> Hsub. unfold job_keyed. simpl. apply Forall_app. split.
  - assert (job_keyed (set_jobs js (set_heap (heap st ++ [v]) st))) as H'; [|exact H'].
    apply (job_keyed_mono st); simpl; [rewrite length_app; lia| |done|done].
    intros l Hl. by rewrite video_at_app.
  - constructor; [|done]. simpl. rewrite video_at_alloc.
    split_and!; [|done..]. unfold valid_ref. simpl. rewrite length_app. simpl. lia.
Qed.

Lemma jk_post env n reply st : job_keyed st → job_keyed (post env n reply st).2.
Proof.
  intros H. pose proof (post_cases env n reply st) as Hcases. cbv zeta in Hcases.
  set (st' := (post env n reply st).2) in *. clearbody st'.
  destruct Hcases
    as [->|[(video & Hh & Hc & Hj & _)|(c & videos & videos' & video & scheduled
                                          & Hg & Hold & Hh & Hc & Hj & _)]]; [done| |].
  - apply (job_keyed_mono st); [rewrite Hh, length_app; lia| |by rewrite Hj|done].
    intros l Hl. rewrite Hh. by rewrite video_at_app.
  - pose proof (job_keyed_armed st video (Some BROADCAST) c (length (heap st)) scheduled
                  (dict_pop (job_id c (video_id video)) (jobs st)) H eq_refl
                  (dict_pop_sublist _ _)) as Harmed.
    revert Harmed. by apply job_keyed_ext.
Qed.

Lemma jk_load_saved api channel saved : preserves job_keyed (load_saved api channel saved).
Proof.
  intros st H. unfold load_saved. rewrite bind_unfold. unfold lift at 1.
  destruct (load saved) as [video|e]; [|done]. cbn beta iota.
  rewrite bind_unfold. unfold lift at 1.
  destruct (query_video_on video _) as [[ok video']|e]; [|done]. cbn beta iota.
  destruct (bool_decide _); [|done].
  rewrite bind_unfold. unfold alloc at 1. cbn beta iota.
  pose proof (jk_alloc video' st H) as Halloc. unfold alloc in Halloc. cbn beta iota in Halloc.
  rewrite bind_unfold, new_YoutubeEvent_eq.
  destruct (_ && _); [done|]. cbn beta iota.
  rewrite bind_unfold. unfold attr.
  destruct (scheduled_start_time video') as [scheduled|]; [|done].
  unfold mret at 1, M_ret at 1, ret at 1. cbn beta iota.
  rewrite bind_unfold. unfold add_job at 1. cbn [jobs set_heap].
  destruct (dict_get _ (jobs st)); [done|].
  pose proof (job_keyed_armed st video' (type video') channel (length (heap st)) scheduled
                (jobs st) H eq_refl (reflexivity _)) as Harmed.
  match goal with
  | |- context [channel_append ?c ?l ?s] =>
      pose proof (jk_channel_append c l s) as Happ
  end.
  specialize (Happ Harmed). exact Happ.
Qed.

Lemma jk_load_state saved api : preserves job_keyed (load_state saved api).
Proof. unfold load_state. pres. apply jk_load_saved. Qed.

Lemma job_keyed_step op st : job_keyed st → job_keyed (step op st).
Proof.
  intros H. destruct op; simpl.
  - apply preserves_snd; [apply jk_subscribe|done].
  - apply preserves_snd; [apply jk_unsubscribe|done].
  - apply preserves_snd; [apply jk_renewal|done].
  - apply preserves_snd; [apply jk_get|done].
  - by apply jk_post.
  - apply preserves_snd; [apply jk_tick|done].
  - apply preserves_snd; [apply jk_fire_job|done].
  - apply preserves_snd; [apply jk_dump_state|done].
  - apply preserves_snd; [apply jk_load_state|done].
Qed.

(** X24. In every state the operations can produce, each job of the store is
    a reminder (an event of kind [REMINDER]) for a video object that has a
    scheduled start, it sits under the key made of its own channel and the
    id of its video, and it is the only job under that key. *)
Theorem reminder_jobs_keyed st :
  reachable st →
  ∀ id job, (id, job) ∈ jobs st →
    ev_event (job_event job) = REMINDER
    ∧ id = job_id (ev_channel (job_event job))
                  (video_id (video_at (heap st) (ev_video (job_event job))))
    ∧ is_Some (scheduled_start_time (video_at (heap st) (ev_video (job_event job))))
    ∧ dict_get id (jobs st) = Some job.
Proof.
  intros Hr id job Hin.
  assert (job_keyed st) as Hk.
  { destruct Hr as [ops <-]. apply run_invariant; [apply job_keyed_step|constructor]. }
  assert (jobs_unique st) as Hu.
  { destruct Hr as [ops <-]. apply run_invariant; [apply jobs_unique_step|constructor]. }
  destruct (reachable_scheduled_inv st Hr) as (_ & Hs & _).
  unfold job_keyed in Hk. unfold jobs_scheduled in Hs. rewrite Forall_forall in Hk, Hs.
  destruct (Hk _ Hin) as (_ & K2 & K3). specialize (Hs _ Hin). simpl in *.
  split_and!; [done..|]. by apply dict_get_NoDup.
Qed.

Lemma reminder_jobs_keyed_witness :
  ev_event (job_event (reminder_job "c1" 0 (local_time 1000))) = REMINDER
  ∧ job_id "c1" "v1"
    = job_id (ev_channel (job_event (reminder_job "c1" 0 (local_time 1000))))
             (video_id (video_at (heap demo_pending)
                                 (ev_video (job_event (reminder_job "c1" 0 (local_time 1000))))))
  ∧ is_Some (scheduled_start_time
               (video_at (heap demo_pending)
                         (ev_video (job_event (reminder_job "c1" 0 (local_time 1000))))))
  ∧ dict_get (job_id "c1" "v1") (jobs demo_pending)
    = Some (reminder_job "c1" 0 (local_time 1000)).
Proof.
  apply (reminder_jobs_keyed demo_pending).
  - exists [OpSubscribe "c1";
            OpPost demo_env (demo_note "v1" "c1") (broadcast_reply 1000 None)].
    reflexivity.
  - vm_compute. apply list_elem_of_here.
Defined.

(** ** The pending lists after a tick that returns *)

Lemma tick_video_exact env obs st c rl l s rl' s' :
  tick_video env obs c rl l s = (Ok rl', s') →
  valid_ref s l → video_at (heap s) l = video_at (heap st) l →
  actual_start_time (video_at (heap st) l) = None →
  rl' = rl ++ (if tick_drops obs st l then [(c, l)] else []).
Proof.
  intros H Hvalid Hsame Hact. unfold tick_drops. cbv zeta. rewrite <- Hsame in *.
  unfold tick_video in H. rewrite bind_unfold in H.
  unfold deref at 1 in H. cbn beta iota in H.
  destruct (scheduled_start_time (video_at (heap s) l)) as [scheduled|] eqn:Hs.
  2:{ by injection H as <- <-. }
  rewrite bind_unfold in H. unfold seconds_between at 1 in H.
  destruct (bool_decide (aware _ = aware scheduled)); [|done].
  unfold mret at 1, M_ret at 1, ret at 1 in H. cbn beta iota in H. cbn [ts local_time] in H.
  destruct (bool_decide (_ > -600)).
  2:{ injection H as <- <-. by rewrite app_nil_r. }
  cbn [andb]. rewrite bind_unfold, query_video_eq in H.
  destruct (query_video_on _ _) as [[ok v]|e] eqn:Hq; [|done].
  set (s1 := set_heap (<[l:=v]> (heap s)) s) in *.
  assert (video_at (heap s1) l = v) as Hv by (by apply video_at_insert).
  rewrite bind_unfold in H. unfold deref at 1 in H. cbn beta iota zeta in H.
  rewrite Hv in H.
  destruct ok.
  - cbn [negb orb] in *.
    destruct (actual_start_time v) as [actual|] eqn:Ha.
    + rewrite bool_decide_eq_true_2 by (by eexists).
      rewrite bind_unfold in H. unfold seconds_between at 1 in H.
      destruct (bool_decide (aware _ = aware actual)); [|done].
      unfold mret at 1, M_ret at 1, ret at 1 in H. cbn beta iota in H.
      destruct (bool_decide (_ < 10800)).
      * rewrite !bind_unfold, new_YoutubeEvent_eq in H.
        destruct (_ && _); [done|]. rewrite send_youtube_event_eq in H. cbv zeta in H.
        destruct (build_event _ _ _) as [event|e]; [|done]. by injection H as <- <-.
      * rewrite bind_unfold in H. by injection H as <- <-.
    + rewrite bool_decide_eq_false_2 by (by intros [? ?]).
      injection H as <- <-. by rewrite app_nil_r.
  - cbn [negb orb] in *. apply query_video_on_false in Hq. subst v. rewrite Hact in H.
    by injection H as <- <-.
Qed.

Lemma scan_exact env obs st todo visited rl s rl' s' :
  NoDup (visited ++ todo).*2 →
  NoDup (pair_ids (heap st) (visited ++ todo)) →
  Forall (λ cl, valid_ref st cl.2 ∧ actual_start_time (video_at (heap st) cl.2) = None) todo →
  scan_inv st visited rl s →
  fold_m (λ remove_list cl, tick_video env obs cl.1 remove_list cl.2) todo rl s = (Ok rl', s') →
  rl' = rl ++ filter (λ cl, tick_drops obs st cl.2 = true) todo.
Proof.
  revert visited rl s. induction todo as [|[c l] todo IH]; intros visited rl s Hnd Hids Htodo Hinv H.
  - simpl in H. injection H as <- <-. by rewrite app_nil_r.
  - cbn [fold_m] in H. rewrite bind_unfold in H. cbn [fst snd] in H.
    destruct (tick_video env obs c rl l s) as [[rl1|e] s1] eqn:Hstep; [|done].
    pose proof Htodo as [[Hvalid Hact] Htodo']%Forall_cons. simpl in Hvalid, Hact.
    pose proof Hinv as (I1 & I2 & I3 & _).
    assert (l ∉ visited.*2) as Hfresh.
    { rewrite fmap_app in Hnd. apply NoDup_app in Hnd as (_ & Hcross & _).
      intros Hin. apply (Hcross _ Hin). rewrite fmap_cons. by left. }
    assert (rl1 = rl ++ (if tick_drops obs st l then [(c, l)] else [])) as Hrl1.
    { apply (tick_video_exact _ _ _ _ _ _ _ _ _ Hstep); [|by apply I3|done].
      unfold valid_ref in *. by rewrite I2. }
    assert (scan_inv st (visited ++ [(c, l)]) rl1 s1) as Hinv1.
    { replace (visited ++ (c, l) :: todo) with ((visited ++ [(c, l)]) ++ todo) in *
        by (by rewrite <- app_assoc).
      rewrite fmap_app in Hnd. apply NoDup_app in Hnd as (Hnd & _).
      unfold pair_ids in Hids. rewrite fmap_app in Hids. apply NoDup_app in Hids as (Hids & _).
      apply (scan_steps env obs st [(c, l)] visited rl s); [done|done| |done|].
      - constructor; [by split|done].
      - cbn [fold_m]. rewrite bind_unfold. cbn [fst snd]. by rewrite Hstep. }
    replace (visited ++ (c, l) :: todo) with ((visited ++ [(c, l)]) ++ todo) in *
      by (by rewrite <- app_assoc).
    rewrite (IH _ _ _ Hnd Hids Htodo' Hinv1 H). rewrite Hrl1, <- app_assoc. f_equal.
    rewrite filter_cons. simpl. by destruct (tick_drops obs st l).
Qed.

Lemma channel_remove_keeps c l s s' :
  pending_wf s → (c, l) ∈ pending_pairs (channel_list s) →
  channel_remove c l s = (Ok tt, s') →
  (∀ cl, cl ∈ pending_pairs (channel_list s) → cl ≠ (c, l) →
         cl ∈ pending_pairs (channel_list s'))
  ∧ ∀ c', sublist (pending s' c') (pending s c').
Proof.
  intros Hwf Hin H. pose proof (pw_channel_remove c l s Hwf) as Hwf'. rewrite H in Hwf'.
  pose proof Hwf as (W1 & _). pose proof Hwf' as (V1 & _).
  apply (pending_pairs_elem _ _ _ W1) in Hin. unfold pending in Hin.
  unfold channel_remove in H.
  destruct (dict_get c (channel_list s)) as [videos|] eqn:Hg; [|done]. simpl in Hin.
  destruct (remove_first _ _ videos) as [videos'|] eqn:Hr; [|done].
  injection H as <-.
  pose proof (pending_wf_ids _ _ _ Hwf Hg) as Hids.
  pose proof (remove_first_is_sublist _ _ _ _ Hr) as Hsub.
  apply remove_first_split in Hr as (before & l0 & after & -> & -> & Hx & _).
  assert (l0 = l) as ->.
  { apply (NoDup_fmap_elem (λ l, video_id (video_at (heap s) l)) (before ++ l0 :: after));
      [done| |done|by rewrite Hx].
    apply elem_of_app. right. by left. }
  split.
  - intros [c' l'] Hcl Hne. apply (pending_pairs_elem _ _ _ V1).
    apply (pending_pairs_elem _ _ _ W1) in Hcl. unfold pending in *. simpl.
    destruct (decide (c = c')) as [<-|Hc].
    + rewrite dict_get_set_eq. rewrite Hg in Hcl. simpl in *.
      apply elem_of_app in Hcl as [?|[-> | ?]%elem_of_cons];
        [apply elem_of_app; by left|done|apply elem_of_app; by right].
    + by rewrite dict_get_set_ne.
  - intros c'. unfold pending. simpl. destruct (decide (c = c')) as [<-|Hc].
    + by rewrite dict_get_set_eq, Hg.
    + by rewrite dict_get_set_ne.
Qed.

Lemma removal_keeps rl s s' :
  pending_wf s → NoDup rl → (∀ cl, cl ∈ rl → cl ∈ pending_pairs (channel_list s)) →
  for_each (fun '(channel_id, video) => channel_remove channel_id video) rl s = (Ok tt, s') →
  (∀ cl, cl ∈ pending_pairs (channel_list s) → cl ∉ rl →
         cl ∈ pending_pairs (channel_list s'))
  ∧ ∀ c, sublist (pending s' c) (pending s c).
Proof.
  revert s. induction rl as [|[c l] rl IH]; intros s Hwf Hnd Hin H.
  - simpl in H. by injection H as <-.
  - rewrite for_each_cons in H.
    destruct (channel_remove c l s) as [[[]|e] s1] eqn:Hstep; [|done].
    apply NoDup_cons in Hnd as [Hn Hnd].
    destruct (channel_remove_keeps _ _ _ _ Hwf (Hin _ (list_elem_of_here _ _)) Hstep)
      as [K1 K2].
    destruct (channel_remove_step _ _ _ _ Hwf Hstep) as (_ & _ & _ & _ & Hwf1).
    destruct (IH s1 Hwf1 Hnd) as [J1 J2]; [|done|].
    { intros cl Hcl. apply K1; [apply Hin; by right|]. by intros ->. }
    split.
    + intros cl Hcl Hnot. apply not_elem_of_cons in Hnot as [Hne Hnot].
      apply J1; [by apply K1|done].
    + intros c'. etrans; [apply J2|apply K2].
Qed.

Lemma sublist_filter_eq {A} (P : A → Prop) `{!∀ x, Decision (P x)} (xs' xs : list A) :
  NoDup xs → sublist xs' xs → (∀ x, x ∈ xs' ↔ x ∈ xs ∧ P x) → xs' = filter P xs.
Proof.
  intros Hnd Hsub. revert Hnd. induction Hsub as [|x xs' xs Hsub IH|x xs' xs Hsub IH];
    intros Hnd Hiff.
  - done.
  - apply NoDup_cons in Hnd as [Hn Hnd].
    rewrite filter_cons_True by (apply Hiff; by left). f_equal. apply IH; [done|].
    intros y. split.
    + intros Hy. destruct (Hiff y) as [[Hy1 Hy2] _]; [by right|]. split; [|done].
      apply elem_of_cons in Hy1 as [-> | ?]; [|done].
      destruct Hn. by eapply elem_of_sublist.
    + intros [Hy HP]. destruct (Hiff y) as [_ Hy']. specialize (Hy' (conj (list_elem_of_further _ _ _ Hy) HP)).
      apply elem_of_cons in Hy' as [-> | ?]; [done|done].
  - apply NoDup_cons in Hnd as [Hn Hnd].
    assert (¬ P x) as HnP.
    { intros HP. destruct (Hiff x) as [_ Hx]. specialize (Hx (conj (list_elem_of_here _ _) HP)).
      apply Hn. by eapply elem_of_sublist. }
    rewrite filter_cons_False by done. apply IH; [done|].
    intros y. rewrite Hiff. split.
    + intros [[-> | ?]%elem_of_cons HP]; [done|by split].
    + intros [Hy HP]. split; [by right|done].
Qed.

(** X25. After a tick that returns, started in a well-formed state in which
    no pending video has an actual start, the pending list of each channel is
    the old one, in its order, without the videos the tick drops: those
    without a scheduled start, and those whose scheduled start is less than
    ten minutes ahead of the clock reading and for which the API has nothing
    or shows an actual start. *)
Theorem tick_pending_after env obs st st' :
  pending_wf st → pending_unstarted st →
  tick env obs st = (Ok tt, st') →
  ∀ c, pending st' c = filter (λ l, tick_drops obs st l = false) (pending st c).
Proof.
  intros Hwf Hun H c. unfold tick in H. rewrite bind_unfold in H.
  unfold get_state at 1 in H. cbn beta iota in H. rewrite bind_unfold in H.
  unfold tick_scan in H. rewrite tick_scan_pairs in H.
  destruct (fold_m _ (pending_pairs (channel_list st)) [] st) as [[rl|e] s1] eqn:Hscan; [|done].
  pose proof Hwf as (W1 & W2 & W3 & W4).
  assert (Forall (λ cl, valid_ref st cl.2
                        ∧ actual_start_time (video_at (heap st) cl.2) = None)
                 (pending_pairs (channel_list st))) as Htodo.
  { unfold pending_unstarted in Hun. rewrite Forall_fmap in W2.
    rewrite Forall_forall in *. intros cl Hcl. split; [by apply (W2 cl)|by apply Hun]. }
  assert (scan_inv st [] [] st) as Hinv0.
  { split_and!; try done. exists []. split; [by rewrite app_nil_r|].
    intros c' v. split; [simpl; lia|done]. }
  pose proof (scan_steps env obs st _ [] [] st _ _ W3 W4 Htodo Hinv0 Hscan)
    as (I1 & I2 & I3 & I4 & I5 & _).
  pose proof (scan_exact env obs st _ [] [] st _ _ W3 W4 Htodo Hinv0 Hscan) as Hrl.
  simpl in Hrl, I5.
  assert (pending_wf s1) as Hwf1.
  { apply (pending_wf_shrink st); [lia|by intros l _|by rewrite I1|by rewrite I1|done]. }
  assert (NoDup (pending_pairs (channel_list st))) as Hndp by (by eapply NoDup_fmap_1).
  destruct (removal_keeps rl s1 st' Hwf1) as [K1 K2]; [| |done|].
  { eapply sublist_NoDup; [exact Hndp|done]. }
  { intros cl Hcl. rewrite I1. by eapply elem_of_sublist. }
  destruct (removal_loop _ _ _ Hwf1 H) as (_ & _ & L3 & L4 & (V1 & _)).
  rewrite I1 in K1, L3.
  assert (pending s1 c = pending st c) as Hsame by (unfold pending; by rewrite I1).
  specialize (K2 c). rewrite Hsame in K2.
  apply sublist_filter_eq; [|done|].
  - unfold pending. destruct (dict_get c (channel_list st)) as [videos|] eqn:Hg;
      [|constructor].
    simpl. apply (NoDup_fmap_1 (λ l, video_id (video_at (heap st) l))).
    by apply (pending_wf_ids st c).
  - intros l. rewrite <- (pending_pairs_elem st' c l V1), <- (pending_pairs_elem st c l W1).
    split.
    + intros Hin. split; [by eapply elem_of_sublist|].
      destruct (tick_drops obs st l) eqn:Hd; [|done]. exfalso.
      apply (L4 (c, l)); [|done]. rewrite Hrl. apply list_elem_of_filter. split; [done|].
      by eapply elem_of_sublist.
    + intros [Hin Hd]. apply K1; [done|]. rewrite Hrl.
      intros [Hd' _]%list_elem_of_filter. simpl in Hd'. congruence.
Qed.

Lemma tick_pending_after_witness :
  pending (tick demo_env demo_obs_live demo_two_pending).2 "c1"
  = filter (λ l, tick_drops demo_obs_live demo_two_pending l = false)
           (pending demo_two_pending "c1").
Proof.
  refine (tick_pending_after demo_env demo_obs_live demo_two_pending _ _ _ _ "c1").
  - apply (pending_wf_run
             [OpSubscribe "c1";
              OpPost demo_env (demo_note "v1" "c1") (broadcast_reply 1000 None);
              OpPost demo_env (demo_note "v2" "c1") (broadcast_reply 1000 None)]);
      [repeat constructor|apply pending_wf_initial].
  - unfold pending_unstarted. vm_compute. repeat constructor.
  - by vm_compute.
Defined.

(** ** A new snapshot takes the place of the prior one *)



(** ** What [post] leaves alone *)

Lemma dict_get_rearm_ne id id' job js :
  id' ≠ id → dict_get id' (rearm id job js) = dict_get id' js.
Proof.
  intros Hne. unfold rearm. rewrite dict_get_app_ne by done. by apply dict_get_pop_ne.
Qed.

(** X27. Whether [post] returns or raises, the tracked channels and their
    order are as before and no request goes to the hub; the store of video
    objects, the dedup list and the sent events keep their old content as a
    prefix; only the pending list of the channel of the feed's first entry
    can change, and only the job under the key of that entry's channel and
    video. *)
Theorem post_frame env n reply st :
  let st' := (post env n reply st).2 in
  dict_keys (channel_list st') = dict_keys (channel_list st)
  ∧ hub st' = hub st
  ∧ heap st `prefix_of` heap st'
  ∧ read_list st `prefix_of` read_list st'
  ∧ sent st `prefix_of` sent st'
  ∧ (∀ c, (∀ entry rest, entries n = entry :: rest → c ≠ yt_channelid entry) →
          pending st' c = pending st c)
  ∧ (∀ id, (∀ entry rest, entries n = entry :: rest →
                          id ≠ job_id (yt_channelid entry) (yt_videoid entry)) →
           dict_get id (jobs st') = dict_get id (jobs st)).
Proof.
  pose proof (post_cases env n reply st) as Hcases. cbv zeta in *.
  set (st' := (post env n reply st).2) in *. clearbody st'.
  destruct Hcases
    as [->|[(video & Hh & Hc & Hj & Hhub & Hr & Hs)
           |(c & videos & videos' & video & scheduled
               & Hg & Hold & Hh & Hc & Hj & Hr & Hhub & Hs & entry & rest & He & -> & Hid)]].
  - by split_and!.
  - unfold pending. rewrite Hc, Hj, Hh. split_and!; try done. by apply prefix_app_r.
  - unfold pending. rewrite Hc, Hj, Hh, Hr. split_and!; try done.
    + by rewrite (dict_keys_set_present _ _ _ _ Hg).
    + by apply prefix_app_r.
    + intros c Hne. rewrite dict_get_set_ne; [done|]. intros Heq.
      by apply (Hne entry rest He).
    + intros id Hne. apply dict_get_rearm_ne. rewrite Hid. by apply (Hne entry rest He).
Qed.

(** ** Restoring a saved broadcast *)

Lemma load_state_one api c d st :
  load_state {| youtube_live_state := Some [(c, [d])]; youtube_video_state := Some [] |} api st
  = match load_saved api c d st with
    | (Ok _, st1) => (Ok tt, set_read_list [] st1)
    | (Raise e, st1) => (Raise e, st1)
    end.
Proof.
  unfold load_state. cbv [from_option id youtube_live_state youtube_video_state].
  rewrite bind_unfold. rewrite for_each_cons. rewrite for_each_cons.
  destruct (load_saved api c d st) as [[[]|e] st1]; [|done].
  cbn [for_each]. unfold mret at 1, M_ret at 1, ret at 1. cbn beta iota.
  unfold mret at 1, M_ret at 1, ret at 1. cbn beta iota.
  rewrite bind_unfold. unfold lift at 1. cbn [map_res]. cbn beta iota.
  rewrite bind_unfold, alloc_all_eq. unfold modify. simpl. rewrite app_nil_r.
  by destruct st1.
Qed.

Lemma load_saved_eq api c d st v ok v' :
  load d = Ok v → query_video_on v (api (video_id v)) = Ok (ok, v') →
  load_saved api c d st
  = if bool_decide (actual_start_time v' = None) then
      let st1 := set_heap (heap st ++ [v']) st in
      if bool_decide (type v' = Some BROADCAST)
         && bool_decide (scheduled_start_time v' = None)
      then (Raise (ValueError "Missing field(s): scheduled_start_time in video."), st1)
      else match scheduled_start_time v' with
           | None => (Raise AttributeError, st1)
           | Some s =>
               match dict_get (job_id c (video_id v)) (jobs st) with
               | Some _ => (Raise ConflictingIdError, st1)
               | None =>
                   channel_append c (length (heap st))
                     (set_jobs (jobs st ++ [(job_id c (video_id v),
                                             {| job_event :=
                                                  {| ev_type := type v'; ev_event := REMINDER;
                                                     ev_channel := c;
                                                     ev_video := length (heap st) |};
                                                job_run_at := s |})]) st1)
               end
           end
    else (Ok tt, st).
Proof.
  intros Hload Hq. pose proof (query_video_on_id _ _ _ _ Hq) as Hid.
  unfold load_saved. rewrite bind_unfold. unfold lift at 1.
  rewrite Hload. cbn beta iota. rewrite bind_unfold. unfold lift at 1. rewrite Hq.
  cbn beta iota. rewrite Hid.
  destruct (bool_decide (actual_start_time v' = None)); [|done].
  rewrite bind_unfold. unfold alloc at 1. cbn beta iota.
  rewrite bind_unfold, new_YoutubeEvent_eq. cbn [heap set_heap]. rewrite video_at_alloc.
  cbv zeta. destruct (_ && _); [done|]. cbn beta iota.
  rewrite bind_unfold. unfold attr.
  destruct (scheduled_start_time v') as [s|]; [|done].
  unfold mret at 1, M_ret at 1, ret at 1. cbn beta iota.
  rewrite bind_unfold. unfold add_job at 1. cbn [jobs set_heap].
  by destruct (dict_get _ (jobs st)).
Qed.


